(** * bubuku: a shallow embedding of the supervisor's control core

    The development follows the four source files
    - [bubuku/broker.py]      (module [Broker]),
    - [bubuku/zookeeper.py]   (module [Zookeeper]),
    - [bubuku/features/swap_partitions.py] (module [SwapPartitions]),
    - [bubuku/controller.py]  (module [Controller]).

    Python values that the code converts with [str] or [int] are kept as
    [pyobj]; exceptions are an explicit [result]; every call that touches
    the coordination store or a collaborator leaves an event in a trace.
    Clock readings are binary64 floats and the arithmetic on them is
    the machine's. The embedding comes first, then sample inputs, then
    the properties, one module per part of the code. *)

From Stdlib Require Import ZArith QArith Qpower Lia Lqa Ascii Floats.
From stdpp Require Import base option list strings gmap pretty.

Set Warnings "-register-all".

Local Open Scope string_scope.
Local Open Scope Z_scope.
Local Open Scope list_scope.

(** ** Python values, exceptions and results *)

Module Py.

(** The scalars the code meets: [None], integers and strings (broker ids
    arrive as either, JSON fields as integers or [null]). *)
Inductive pyobj : Type :=
| PyNone
| PyInt (z : Z)
| PyStr (s : string).

#[global] Instance pyobj_eq_dec : EqDecision pyobj.
Proof. solve_decision. Defined.

#[global] Instance pyobj_countable : Countable pyobj.
Proof.
  refine (inj_countable'
    (fun o => match o with
              | PyNone => inl tt
              | PyInt z => inr (inl z)
              | PyStr s => inr (inr s)
              end)
    (fun x => match x with
              | inl _ => PyNone
              | inr (inl z) => PyInt z
              | inr (inr s) => PyStr s
              end) _).
  by intros [].
Defined.

(** Python [==] on these scalars: an [int] never equals a [str]. *)
Definition py_eqb (a b : pyobj) : bool := bool_decide (a = b).

(** [str(o)]. *)
Definition py_str (o : pyobj) : string :=
  match o with
  | PyNone => "None"
  | PyInt z => pretty z
  | PyStr s => s
  end.

(** Truthiness of a [str]: the empty string is the only falsy one. *)
Definition str_truthy (s : string) : bool :=
  match s with
  | EmptyString => false
  | String _ _ => true
  end.

(** [x in xs] on a list. *)
Definition py_in (x : pyobj) (xs : list pyobj) : bool :=
  existsb (py_eqb x) xs.

Inductive exn : Type :=
| KeyError
| IndexError
| ValueError
| AttributeError
| NoNodeError
| TypeError
| NodeExistsError
| OtherError (tag : string).

Inductive result (A : Type) : Type :=
| Ok (a : A)
| Raise (e : exn).
Arguments Ok {A} a.
Arguments Raise {A} e.

Definition is_ok {A} (r : result A) : bool :=
  match r with Ok _ => true | Raise _ => false end.

End Py.
Import Py.

(** ** bubuku/broker.py *)

Module Broker.

(** [/brokers/topics/<t>/partitions/<p>/state], parsed by [json.loads]. *)
Record PartitionState : Type := mkState {
  leader : pyobj;
  isr : list pyobj
}.

(** What the exhibitor serves below [/brokers/topics]: the topics in
    listing order, and for each the children of its [partitions] node
    with the state stored under it ([None]: the state node is absent,
    so [get] raises [NoNodeError]). *)
Definition TopicTree : Type :=
  list (string * list (string * option PartitionState)).

Inductive event : Type :=
| ProcTerminate
| ProcWait
| WaitBrokerIdAbsence
| LogError
| LogWarn (broker_id topic partition : string)
| ZkGetChildren (path : string)
| ZkGet (path : string).

Definition is_zk_read (e : event) : bool :=
  match e with
  | ZkGetChildren _ | ZkGet _ => true
  | _ => false
  end.

(** The subprocess handle: whether [terminate()] and [wait()] raise. *)
Record Process : Type := mkProcess {
  terminate_raises : bool;
  wait_raises : bool
}.

(** The id_manager collaborator (bubuku.id_generator is not part of
    the core): the id it hands out and whether waiting for the
    ephemeral node to vanish raises. *)
Record BrokerIdGenerator : Type := mkIdGen {
  get_broker_id : pyobj;
  wait_for_broker_id_absence_raises : bool
}.

Record BrokerManager : Type := mkBroker {
  id_manager : BrokerIdGenerator;
  exhibitor : TopicTree;
  kafka_properties : gmap string string;
  process : option Process
}.

Definition get_property (bm : BrokerManager) (name : string) : option string :=
  kafka_properties bm !! name.

Definition _is_clean_election (bm : BrokerManager) : bool :=
  let value := get_property bm "unclean.leader.election.enable" in
  if bool_decide (value = None) || bool_decide (value = Some "true")
  then false
  else true.

Definition topics_path : string := "/brokers/topics".
Definition partitions_path (topic : string) : string :=
  "/brokers/topics/" +:+ topic +:+ "/partitions".
Definition state_path (topic partition : string) : string :=
  "/brokers/topics/" +:+ topic +:+ "/partitions/" +:+ partition +:+ "/state".

(** The inner loop of [_have_leadership] over the partitions of one
    topic. [Ok (Some b)]: the function returned [b]; [Ok None]: the loop
    ran to its end. *)
Fixpoint scan_partitions (broker_id topic : string)
    (parts : list (string * option PartitionState))
    : result (option bool) * list event :=
  match parts with
  | [] => (Ok None, [])
  | (partition, node) :: rest =>
      match node with
      | None => (Raise NoNodeError, [ZkGet (state_path topic partition)])
      | Some state =>
          if String.eqb (py_str (leader state)) broker_id then
            (Ok (Some true),
             [ZkGet (state_path topic partition);
              LogWarn broker_id topic partition])
          else if existsb (fun x => String.eqb (py_str x) broker_id) (isr state) then
            (Ok (Some true),
             [ZkGet (state_path topic partition);
              LogWarn broker_id topic partition])
          else
            let '(r, tr) := scan_partitions broker_id topic rest in
            (r, ZkGet (state_path topic partition) :: tr)
      end
  end.

(** The outer loop over the topics. *)
Fixpoint scan_topics (broker_id : string) (tree : TopicTree)
    : result (option bool) * list event :=
  match tree with
  | [] => (Ok None, [])
  | (topic, parts) :: rest =>
      let '(r, tr) := scan_partitions broker_id topic parts in
      match r with
      | Ok None =>
          let '(r', tr') := scan_topics broker_id rest in
          (r', ZkGetChildren (partitions_path topic) :: tr ++ tr')
      | _ => (r, ZkGetChildren (partitions_path topic) :: tr)
      end
  end.

Definition _have_leadership (bm : BrokerManager) : result bool * list event :=
  if negb (_is_clean_election bm) then (Ok false, [])
  else
    let broker_id := py_str (get_broker_id (id_manager bm)) in
    if negb (str_truthy broker_id) then (Ok false, [])
    else
      let '(r, tr) := scan_topics broker_id (exhibitor bm) in
      (match r with
       | Ok (Some b) => Ok b
       | Ok None => Ok false
       | Raise e => Raise e
       end, ZkGetChildren topics_path :: tr).

Definition _terminate_process (bm : BrokerManager) : BrokerManager * list event :=
  match process bm with
  | Some p =>
      (mkBroker (id_manager bm) (exhibitor bm) (kafka_properties bm) None,
       if terminate_raises p then [ProcTerminate; LogError]
       else if wait_raises p then [ProcTerminate; ProcWait; LogError]
       else [ProcTerminate; ProcWait])
  | None => (bm, [])
  end.

Definition _wait_for_zk_absence (bm : BrokerManager) : list event :=
  if wait_for_broker_id_absence_raises (id_manager bm)
  then [WaitBrokerIdAbsence; LogError]
  else [WaitBrokerIdAbsence].

Definition stop_kafka_process (bm : BrokerManager)
    : result bool * BrokerManager * list event :=
  let '(bm1, tr1) := _terminate_process bm in
  let tr2 := _wait_for_zk_absence bm1 in
  let '(r, tr3) := _have_leadership bm1 in
  (match r with
   | Ok b => Ok (negb b)
   | Raise e => Raise e
   end, bm1, tr1 ++ tr2 ++ tr3).

(** The store reads a call made, in order. *)
Definition zk_reads (tr : list event) : list event := filter is_zk_read tr.

(** The property the gate reads. *)
Definition gate_key : string := "unclean.leader.election.enable".

End Broker.

(** ** bubuku/zookeeper.py *)

Module Zookeeper.

(** A JSON document, as [json.dumps] receives it. Node data is kept as
    the document whose UTF-8 serialisation the store holds. *)
Inductive json : Type :=
| JNull
| JInt (z : Z)
| JStr (s : string)
| JList (items : list json)
| JObj (fields : list (string * json)).

(** What a node holds: the bytes of a serialised document, or no bytes
    at all, which is what the client gives the parents it creates on
    the way to a node. *)
Inductive data : Type :=
| Doc (j : json)
| NoData.

(** The coordination store as the client sees it: node path to data.
    The root is always there and has no entry. *)
Abbreviation Store := (gmap string data).

Inductive log : Type :=
| LogReallocating (data : json)
| LogWaitingForSlot.

Definition reassign_path : string := "/admin/reassign_partitions".

(** The path up to its last slash, [None] without a slash. *)
Fixpoint drop_last_component (path : string) : option string :=
  match path with
  | EmptyString => None
  | String c rest =>
      match drop_last_component rest with
      | Some prefix => Some (String c prefix)
      | None => if Ascii.eqb c "/"%char then Some EmptyString else None
      end
  end.

(** The node above [path]: [/admin] for [/admin/reassign_partitions],
    the root for [/admin]. *)
Definition parent (path : string) : string :=
  match drop_last_component path with
  | Some (String c prefix) => String c prefix
  | _ => "/"
  end.

Definition node_exists (path : string) (store : Store) : bool :=
  match store !! path with
  | Some _ => true
  | None => String.eqb path "/"
  end.

(** [client.create(path, value)] without [makepath]: refuses an existing
    node with [NodeExistsError] and a node whose parent is missing with
    [NoNodeError]; otherwise adds it in one step. A node that exists
    has its parent, so the order of the two tests does not show on a
    store that is a tree. *)
Definition create (path : string) (value : json) (store : Store)
    : result unit * Store :=
  match store !! path with
  | Some _ => (Raise NodeExistsError, store)
  | None =>
      if node_exists (parent path) store
      then (Ok tt, <[path := Doc value]> store)
      else (Raise NoNodeError, store)
  end.

(** The client's [ensure_path]: the nodes missing on the way down to
    [path], [path] included, are created with no data. [fuel] bounds
    the climb; the length of the path is enough. *)
Fixpoint ensure_path (fuel : nat) (path : string) (store : Store) : Store :=
  match fuel with
  | O => store
  | S n =>
      if node_exists path store then store
      else <[path := NoData]> (ensure_path n (parent path) store)
  end.

(** [client.create(path, value, makepath=True)]: when the plain create
    meets a missing parent, the parents are created and the create is
    tried again. *)
Definition create_makepath (path : string) (value : json) (store : Store)
    : result unit * Store :=
  match create path value store with
  | (Raise NoNodeError, _) =>
      create path value (ensure_path (String.length path) (parent path) store)
  | other => other
  end.

(** One element of the [partitions] array, once its numbers are
    integers. *)
Definition plan_entry (topic : string) (p : Z) (rs : list Z) : json :=
  JObj [("topic", JStr topic);
        ("partition", JInt p);
        ("replicas", JList (JInt <$> rs))].

Section Int.

(** Python's [int] on a [str]; [None] stands for [ValueError]. *)
Variable int_of_str : string -> option Z.

Definition py_int (o : pyobj) : result Z :=
  match o with
  | PyInt z => Ok z
  | PyStr s =>
      match int_of_str s with
      | Some z => Ok z
      | None => Raise ValueError
      end
  | PyNone => Raise TypeError
  end.

(** [[int(p) for p in replicas]]: the first failing element raises. *)
Fixpoint py_ints (l : list pyobj) : result (list Z) :=
  match l with
  | [] => Ok []
  | p :: rest =>
      match py_int p with
      | Raise e => Raise e
      | Ok z =>
          match py_ints rest with
          | Raise e => Raise e
          | Ok zs => Ok (z :: zs)
          end
      end
  end.

(** The dictionary built for one triple: [int(partition)] is evaluated
    before the replicas. *)
Definition partition_entry (topic : string) (partition : pyobj)
    (replicas : list pyobj) : result json :=
  match py_int partition with
  | Raise e => Raise e
  | Ok p =>
      match py_ints replicas with
      | Raise e => Raise e
      | Ok rs => Ok (plan_entry topic p rs)
      end
  end.

Definition wire (entries : list json) : json :=
  JObj [("version", JStr "1"); ("partitions", JList entries)].

(** The [try] block shared by the single and the list entry point. *)
Definition submit (j : json) (store : Store) : result bool * Store * list log :=
  match create reassign_path j store with
  | (Ok _, store') => (Ok true, store', [LogReallocating j])
  | (Raise NodeExistsError, store') => (Ok false, store', [LogWaitingForSlot])
  | (Raise e, store') => (Raise e, store', [])
  end.

Definition reallocate_partition (topic : string) (partition : pyobj)
    (replicas : list pyobj) (store : Store)
    : result bool * Store * list log :=
  match partition_entry topic partition replicas with
  | Raise e => (Raise e, store, [])
  | Ok entry => submit (wire [entry]) store
  end.

Definition Triple : Type := string * pyobj * list pyobj.

Fixpoint partition_entries (partitions_data : list Triple) : result (list json) :=
  match partitions_data with
  | [] => Ok []
  | (topic, partition, replicas) :: rest =>
      match partition_entry topic partition replicas with
      | Raise e => Raise e
      | Ok entry =>
          match partition_entries rest with
          | Raise e => Raise e
          | Ok entries => Ok (entry :: entries)
          end
      end
  end.

(** Modelled from the spec: [BukuExhibitor.reallocate_partitions], the
    list entry point that [SwapPartitionsChange.__perform_swap] calls;
    zookeeper.py as read here defines only the single-partition
    [reallocate_partition]. The spec: atomic create of
    [admin/reassign_partitions], true on create, false when the node
    already exists, other failures propagate; the pairs are normalised
    to the wire JSON with version 1 and integer partitions and
    replicas. *)
Definition reallocate_partitions (partitions_data : list Triple) (store : Store)
    : result bool * Store * list log :=
  match partition_entries partitions_data with
  | Raise e => (Raise e, store, [])
  | Ok entries => submit (wire entries) store
  end.

(** Modelled from the spec: [submit_reassignment], which accepts either
    a single [(topic, partition, replicas)] or a list thereof. *)
Inductive ReassignmentInput : Type :=
| Single (t : Triple)
| Many (ts : list Triple).

Definition submit_reassignment (input : ReassignmentInput) (store : Store)
    : result bool * Store * list log :=
  match input with
  | Single (topic, partition, replicas) =>
      reallocate_partition topic partition replicas store
  | Many ts => reallocate_partitions ts store
  end.

(** *** Notions used to state the properties *)

(** [int(o)] is [z]: an [int] is itself, a [str] is read, [None] has no
    integer. *)
Definition converts (o : pyobj) (z : Z) : Prop :=
  match o with
  | PyInt z' => z' = z
  | PyStr s => int_of_str s = Some z
  | PyNone => False
  end.

(** The numbers of a triple: its partition and its replicas. *)
Definition numbers_of (t : Triple) (n : Z * list Z) : Prop :=
  converts t.1.2 n.1 /\ Forall2 converts t.2 n.2.

End Int.

End Zookeeper.

(** ** bubuku/features/swap_partitions.py *)

Module SwapPartitions.
Import Zookeeper.

Record TpData : Type := mkTpData {
  topic : string;
  partition : Z;
  size : Z;
  replicas : list pyobj
}.

(** One broker's entry of [size_stats]: the disk figures and, per topic,
    the size of each partition it holds. *)
Record BrokerStats : Type := mkBrokerStats {
  free_kb : Z;
  used_kb : Z;
  topics : gmap string (gmap Z Z)
}.

(** What [load_partition_assignment] yields, in order. *)
Definition Assignment : Type := list (string * Z * list pyobj).

(** The part of [BukuExhibitor] the change talks to. *)
Record Zk : Type := mkZk {
  load_partition_assignment : Assignment;
  nodes : Store
}.

Definition Plan : Type := list (string * Z * list pyobj).

Record SwapPartitionsChange : Type := mkSwap {
  fat_broker_id : pyobj;
  slim_broker_id : pyobj;
  gap : Z;
  size_stats : list (pyobj * BrokerStats);
  to_move : option Plan;
  (** [BaseRebalanceChange.should_be_cancelled], from
      bubuku.features.rebalance, taken as given. *)
  should_be_cancelled : list string -> bool
}.

Inductive log : Type :=
| LogCancelling (current_actions : list string)
| LogNoPartitionsOnSlim (slim : pyobj)
| LogSlimPartition (slim : pyobj) (tp : TpData)
| LogNoCandidateFromFat (fat : pyobj)
| LogTryingToSwap (swap_json : Plan)
| LogPostponed
| LogScheduled
| LogZk (l : Zookeeper.log).

(** [topics_stats[topic].update(broker_stats["topics"][topic])] for every
    topic of one broker: the broker's sizes win over the ones merged so
    far, topics it does not mention stay. *)
Definition merge_broker (topics_stats : gmap string (gmap Z Z))
    (broker_stats : BrokerStats) : gmap string (gmap Z Z) :=
  union_with (fun new old => Some (new ∪ old)) (topics broker_stats) topics_stats.

Definition merge_stats (stats : list (pyobj * BrokerStats))
    : gmap string (gmap Z Z) :=
  foldl (fun acc item => merge_broker acc item.2) ∅ stats.

(** [topics_stats[topic][partition]], when both keys are present. *)
Definition known_size (topics_stats : gmap string (gmap Z Z))
    (t : string) (p : Z) : option Z :=
  topics_stats !! t ≫= fun sizes => sizes !! p.

Definition append_candidate (broker_id : pyobj) (tp : TpData)
    (d : gmap pyobj (list TpData)) : gmap pyobj (list TpData) :=
  <[broker_id := default [] (d !! broker_id) ++ [tp]]> d.

(** The body of the loop over the partition assignment. *)
Definition candidate_step (fat slim : pyobj)
    (topics_stats : gmap string (gmap Z Z))
    (d : gmap pyobj (list TpData)) (item : string * Z * list pyobj)
    : gmap pyobj (list TpData) :=
  let '(t, p, rs) := item in
  match known_size topics_stats t p with
  | None => d
  | Some sz =>
      if py_in fat rs && py_in slim rs then d
      else
        foldl (fun d broker_id =>
                 if py_in broker_id rs
                 then append_candidate broker_id (mkTpData t p sz rs) d
                 else d)
              d [slim; fat]
  end.

Definition __find_all_swap_candidates (zk : Zk) (fat slim : pyobj)
    (topics_stats : gmap string (gmap Z Z)) : gmap pyobj (list TpData) :=
  foldl (candidate_step fat slim topics_stats) ∅ (load_partition_assignment zk).

(** [candidates.sort(key=attrgetter("size"), reverse=True)]: a stable
    sort, so equal sizes keep their order; the result of a stable sort
    is unique, insertion is one way to compute it. *)
Fixpoint insert_by_size_desc (tp : TpData) (l : list TpData) : list TpData :=
  match l with
  | [] => [tp]
  | x :: rest =>
      if size x <=? size tp then tp :: l
      else x :: insert_by_size_desc tp rest
  end.

Definition sort_by_size_desc (l : list TpData) : list TpData :=
  foldr insert_by_size_desc [] l.

Definition new_gap (brokers_gap partition_to_swap_size : Z) (tp : TpData) : Z :=
  Z.abs (brokers_gap - 2 * Z.abs (size tp - partition_to_swap_size)).

(** The [for tp in candidates] loop with its two locals. *)
Fixpoint best_loop (brokers_gap partition_to_swap_size : Z)
    (candidates : list TpData) (smallest_new_gap : Z)
    (matching_swap_partition : option TpData) : option TpData :=
  match candidates with
  | [] => matching_swap_partition
  | tp :: rest =>
      if new_gap brokers_gap partition_to_swap_size tp <? smallest_new_gap
      then best_loop brokers_gap partition_to_swap_size rest
             (new_gap brokers_gap partition_to_swap_size tp) (Some tp)
      else best_loop brokers_gap partition_to_swap_size rest
             smallest_new_gap matching_swap_partition
  end.

Definition __find_best_swap_candidate (candidates : list TpData)
    (brokers_gap partition_to_swap_size : Z) : option TpData :=
  best_loop brokers_gap partition_to_swap_size
    (sort_by_size_desc candidates) brokers_gap None.

(** [min(l, key=attrgetter("size"))]: the first of the smallest;
    [ValueError] on an empty list. *)
Fixpoint min_by_size_from (best : TpData) (l : list TpData) : TpData :=
  match l with
  | [] => best
  | x :: rest =>
      if size x <? size best then min_by_size_from x rest
      else min_by_size_from best rest
  end.

Definition min_by_size (l : list TpData) : result TpData :=
  match l with
  | [] => Raise ValueError
  | x :: rest => Ok (min_by_size_from x rest)
  end.

Definition swap_replica (from to : pyobj) (rs : list pyobj) : list pyobj :=
  (fun r => if py_eqb r from then to else r) <$> rs.

Definition __create_swap_partitions_json (tp1 : TpData) (broker1 : pyobj)
    (tp2 : TpData) (broker2 : pyobj) : Plan :=
  [ (topic tp1, partition tp1, swap_replica broker1 broker2 (replicas tp1));
    (topic tp2, partition tp2, swap_replica broker2 broker1 (replicas tp2)) ].

(** [self.to_move] is tested for truth: [None] and the empty list fail. *)
Definition plan_truthy (p : option Plan) : option Plan :=
  match p with
  | Some (_ :: _) => p
  | _ => None
  end.

Section Int.

Variable int_of_str : string -> option Z.

Definition __perform_swap (swap_json : Plan) (zk : Zk)
    : result bool * Zk * list log :=
  let '(r, store, lg) :=
    reallocate_partitions int_of_str
      ((fun '(t, p, rs) => (t, PyInt p, rs)) <$> swap_json) (nodes zk) in
  (r, mkZk (load_partition_assignment zk) store,
   LogTryingToSwap swap_json :: (LogZk <$> lg)).

Definition set_to_move (self : SwapPartitionsChange) (plan : Plan)
    : SwapPartitionsChange :=
  mkSwap (fat_broker_id self) (slim_broker_id self) (gap self)
         (size_stats self) (Some plan) (should_be_cancelled self).

Definition run (self : SwapPartitionsChange) (current_actions : list string)
    (zk : Zk) : result bool * SwapPartitionsChange * Zk * list log :=
  if should_be_cancelled self current_actions then
    (Ok false, self, zk, [LogCancelling current_actions])
  else
    match plan_truthy (to_move self) with
    | Some plan =>
        let '(r, zk', lg) := __perform_swap plan zk in
        (match r with Ok b => Ok (negb b) | Raise e => Raise e end,
         self, zk', lg)
    | None =>
        let topics_stats := merge_stats (size_stats self) in
        let swap_partition_candidates :=
          __find_all_swap_candidates zk (fat_broker_id self)
            (slim_broker_id self) topics_stats in
        match swap_partition_candidates !! slim_broker_id self with
        | None => (Raise KeyError, self, zk, [])
        | Some slim_candidates =>
            match min_by_size slim_candidates with
            | Raise e => (Raise e, self, zk, [])
            | Ok slim_broker_smallest_partition =>
                let lg1 :=
                  [LogSlimPartition (slim_broker_id self)
                     slim_broker_smallest_partition] in
                match swap_partition_candidates !! fat_broker_id self with
                | None => (Raise KeyError, self, zk, lg1)
                | Some fat_broker_swap_candidates =>
                    match __find_best_swap_candidate fat_broker_swap_candidates
                            (gap self) (size slim_broker_smallest_partition) with
                    | None =>
                        (Ok false, self, zk,
                         lg1 ++ [LogNoCandidateFromFat (fat_broker_id self)])
                    | Some matching_swap_partition =>
                        let plan :=
                          __create_swap_partitions_json
                            slim_broker_smallest_partition (slim_broker_id self)
                            matching_swap_partition (fat_broker_id self) in
                        let self' := set_to_move self plan in
                        let '(r, zk', lg2) := __perform_swap plan zk in
                        match r with
                        | Raise e => (Raise e, self', zk', lg1 ++ lg2)
                        | Ok scheduled_rebalance =>
                            (Ok (negb scheduled_rebalance), self', zk',
                             lg1 ++ lg2 ++
                             [if scheduled_rebalance then LogScheduled
                              else LogPostponed])
                        end
                    end
                end
            end
        end
    end.

End Int.

(** A partition of the assignment is a candidate when it ends up in the
    list of one of the two brokers. *)
Definition is_candidate (d : gmap pyobj (list TpData)) (tp : TpData) : Prop :=
  exists (broker_id : pyobj) (l : list TpData),
    d !! broker_id = Some l /\ tp ∈ l.

(** *** Notions used to state the properties *)

(** Larger sizes first. *)
Fixpoint descending (l : list TpData) : Prop :=
  match l with
  | [] => True
  | x :: rest => Forall (fun y => size y <= size x) rest /\ descending rest
  end.

Definition entry_in (d : gmap pyobj (list TpData)) (b : pyobj) (tp : TpData)
    : Prop :=
  exists l, d !! b = Some l /\ tp ∈ l.

(** What one turn of the loop adds for the partition [item]. *)
Definition selected (fat slim : pyobj) (topics_stats : gmap string (gmap Z Z))
    (item : string * Z * list pyobj) (b : pyobj) (tp : TpData) : Prop :=
  known_size topics_stats item.1.1 item.1.2 = Some (size tp) /\
  tp = mkTpData item.1.1 item.1.2 (size tp) item.2 /\
  py_in fat item.2 && py_in slim item.2 = false /\
  (b = slim \/ b = fat) /\ py_in b item.2 = true.

Definition candidates_of (self : SwapPartitionsChange) (zk : Zk)
    : gmap pyobj (list TpData) :=
  __find_all_swap_candidates zk (fat_broker_id self) (slim_broker_id self)
    (merge_stats (size_stats self)).

End SwapPartitions.

(** ** bubuku/controller.py *)

Module Controller.

(** A change as the controller uses it. [run] answers [Ok true] for
    "call me again", [Ok false] for "done", or raises; [on_remove] is
    the hook of the base class and leaves an event. *)
Record Change : Type := mkChange {
  get_name : string;
  can_run : list string -> bool;
  run : list string -> result bool;
  can_run_at_exit : bool
}.

(** Time is what [time()] returns, a binary64 float, and the
    arithmetic on it rounds as Python's does. An interval or the
    initial timestamp [0] given as an [int] stands for the float it
    becomes when it meets a float (the same number below 2^53). *)
Record Check : Type := mkCheck {
  check_interval_s : float;
  __last_check_timestamp_s : float;
  (** the subclass's [check()]: a change, nothing, or an exception *)
  check : result (option Change)
}.

Inductive event : Type :=
| TakeLock (lock_data : option string)
| ReleaseLock
| GetRunningChanges
| RegisterChange (name provider_id : string)
| UnregisterChange (name : string)
| CallCanRun (c : Change) (peers : list string)
| CallRun (c : Change) (peers : list string)
| CallOnRemove (c : Change)
| ForcedToStop (c : Change)
| TimeRead (t : float)
| SetTimestamp (t : float)
| CallCheck (c : Check).

Definition is_lock (e : event) : bool :=
  match e with
  | TakeLock _ => true
  | _ => false
  end.

(** Python dictionaries whose iteration order the loops follow. *)
Definition dict (V : Type) : Type := list (string * V).

Fixpoint dict_get {V} (k : string) (d : dict V) : option V :=
  match d with
  | [] => None
  | (k', v) :: rest => if String.eqb k' k then Some v else dict_get k rest
  end.

Fixpoint dict_set {V} (k : string) (v : V) (d : dict V) : dict V :=
  match d with
  | [] => [(k, v)]
  | (k', v') :: rest =>
      if String.eqb k' k then (k', v) :: rest
      else (k', v') :: dict_set k v rest
  end.

Fixpoint dict_del {V} (k : string) (d : dict V) : dict V :=
  match d with
  | [] => []
  | (k', v') :: rest =>
      if String.eqb k' k then rest else (k', v') :: dict_del k rest
  end.

(** The controller's fields, the change registry under
    [/bubuku/changes] and the clock that [time()] reads: the n-th call
    returns [clock n]. *)
Record World : Type := mkWorld {
  checks : list Check;
  changes : dict (list Change);
  running : bool;
  registry : dict string;
  clock : nat -> float;
  ticks : nat
}.

Definition set_changes (w : World) (c : dict (list Change)) : World :=
  mkWorld (checks w) c (running w) (registry w) (clock w) (ticks w).
Definition set_checks (w : World) (c : list Check) : World :=
  mkWorld c (changes w) (running w) (registry w) (clock w) (ticks w).
Definition set_running (w : World) (b : bool) : World :=
  mkWorld (checks w) (changes w) b (registry w) (clock w) (ticks w).
Definition set_registry (w : World) (r : dict string) : World :=
  mkWorld (checks w) (changes w) (running w) r (clock w) (ticks w).
Definition set_ticks (w : World) (n : nat) : World :=
  mkWorld (checks w) (changes w) (running w) (registry w) (clock w) n.

(** Code that changes the world, may raise, and leaves events. What was
    changed before an exception stays changed. *)
Definition M (A : Type) : Type := World -> result A * World * list event.

#[global] Instance M_ret : MRet M :=
  fun A a w => (Ok a, w, []).

#[global] Instance M_bind : MBind M :=
  fun A B f m w =>
    match m w with
    | (Ok a, w1, tr1) =>
        let '(r, w2, tr2) := f a w1 in (r, w2, tr1 ++ tr2)
    | (Raise e, w1, tr1) => (Raise e, w1, tr1)
    end.

Definition raise {A} (e : exn) : M A := fun w => (Raise e, w, []).
Definition emit (e : event) : M unit := fun w => (Ok tt, w, [e]).
Definition get_world : M World := fun w => (Ok w, w, []).
Definition modify (f : World -> World) : M unit := fun w => (Ok tt, f w, []).

(** [with self.zk.lock(data): body]: the lock is released on the way
    out, also when the body raises. *)
Definition with_lock {A} (lock_data : option string) (body : M A) : M A :=
  fun w =>
    let '(r, w1, tr) := body w in
    (r, w1, TakeLock lock_data :: tr ++ [ReleaseLock]).

(** *** Check *)

(** [time_till_check] reads the clock once. *)
Definition time_till_check (self : Check) (clock : nat -> float) (ticks : nat)
    : float * nat :=
  ((__last_check_timestamp_s self + check_interval_s self - clock ticks)%float,
   S ticks).

(** [check_if_time]: a second reading becomes the timestamp, and only
    then is [check()] called; the updated check is returned next to the
    outcome because the assignment stays when [check()] raises. *)
Definition check_if_time (self : Check) (clock : nat -> float) (ticks : nat)
    : result (option Change) * Check * nat * list event :=
  let '(till, ticks1) := time_till_check self clock ticks in
  if (till <=? 0)%float then
    let t2 := clock ticks1 in
    let self' := mkCheck (check_interval_s self) t2 (check self) in
    (check self, self', S ticks1,
     [TimeRead (clock ticks); TimeRead t2; SetTimestamp t2; CallCheck self'])
  else
    (Ok None, self, ticks1, [TimeRead (clock ticks)]).

(** *** The registry calls of BukuExhibitor *)

Definition get_running_changes : M (dict string) :=
  w ← get_world; emit GetRunningChanges;; mret (registry w).

Definition register_change (name ip : string) : M unit :=
  w ← get_world;
  match dict_get name (registry w) with
  | Some _ => raise NodeExistsError
  | None =>
      modify (fun w => set_registry w (registry w ++ [(name, ip)]));;
      emit (RegisterChange name ip)
  end.

(** [delete(path, recursive=True)]: silent when the node is not
    there. *)
Definition unregister_change (name : string) : M unit :=
  modify (fun w => set_registry w (dict_del name (registry w)));;
  emit (UnregisterChange name).

(** *** Controller *)

Definition _exclude_self (provider_id name : string)
    (running_actions : dict string) : list string :=
  (List.filter
     (fun '(k, v) => negb (String.eqb k name) || negb (String.eqb v provider_id))
     running_actions).*1.

Fixpoint register_loop (provider_id : string)
    (items : list (string * list Change)) (running_changes : dict string)
    : M (dict string) :=
  match items with
  | [] => mret running_changes
  | (name, change_list) :: rest =>
      match change_list with
      | [] => raise IndexError
      | first_change :: _ =>
          let peers := _exclude_self provider_id name running_changes in
          emit (CallCanRun first_change peers);;
          if can_run first_change peers then
            match dict_get name running_changes with
            | None =>
                register_change name provider_id;;
                register_loop provider_id rest
                  (dict_set name provider_id running_changes)
            | Some _ => register_loop provider_id rest running_changes
            end
          else register_loop provider_id rest running_changes
      end
  end.

Definition _register_running_changes (provider_id : string) : M (dict string) :=
  w ← get_world;
  match changes w with
  | [] => mret []
  | _ :: _ =>
      with_lock (Some provider_id)
        (running_changes ← get_running_changes;
         register_loop provider_id (changes w) running_changes)
  end.

Fixpoint run_loop (provider_id : string) (is_running : bool)
    (items : list (string * list Change)) (running_changes : dict string)
    (changes_to_remove : list string) : M (list string) :=
  match items with
  | [] => mret changes_to_remove
  | (name, change_list) :: rest =>
      if bool_decide (dict_get name running_changes = Some provider_id) then
        match change_list with
        | [] => raise IndexError
        | change :: _ =>
            if is_running || can_run_at_exit change then
              let peers :=
                _exclude_self provider_id (get_name change) running_changes in
              emit (CallRun change peers);;
              match run change peers with
              | Ok true =>
                  run_loop provider_id is_running rest running_changes
                    changes_to_remove
              | Ok false | Raise _ =>
                  run_loop provider_id is_running rest running_changes
                    (changes_to_remove ++ [get_name change])
              end
            else
              emit (ForcedToStop change);;
              run_loop provider_id is_running rest running_changes
                (changes_to_remove ++ [get_name change])
        end
      else
        run_loop provider_id is_running rest running_changes changes_to_remove
  end.

Definition _run_changes (running_changes : dict string) (provider_id : string)
    : M (list string) :=
  w ← get_world;
  run_loop provider_id (running w) (changes w) running_changes [].

(** One turn of the first loop of [_release_changes_lock]. *)
Definition remove_head (change_name : string) : M unit :=
  w ← get_world;
  match dict_get change_name (changes w) with
  | None => raise KeyError
  | Some [] => raise IndexError
  | Some (removed_change :: queue) =>
      modify (fun w =>
        set_changes w
          (match queue with
           | [] => dict_del change_name (changes w)
           | _ :: _ => dict_set change_name queue (changes w)
           end));;
      emit (CallOnRemove removed_change)
  end.

Fixpoint for_each {A} (body : A -> M unit) (l : list A) : M unit :=
  match l with
  | [] => mret tt
  | x :: rest => body x;; for_each body rest
  end.

Definition _release_changes_lock (changes_to_remove : list string) : M unit :=
  match changes_to_remove with
  | [] => mret tt
  | _ :: _ =>
      for_each remove_head changes_to_remove;;
      with_lock None (for_each unregister_change changes_to_remove)
  end.

Definition _add_change_to_queue (change : option Change) : M unit :=
  match change with
  | None => mret tt
  | Some c =>
      modify (fun w =>
        set_changes w
          (dict_set (get_name c)
             (default [] (dict_get (get_name c) (changes w)) ++ [c])
             (changes w)))
  end.

(** [for check in self.checks: self._add_change_to_queue(check.check_if_time())],
    with the checks already passed collected in [done]. *)
Fixpoint probe (done todo : list Check) : M unit :=
  match todo with
  | [] => mret tt
  | c :: rest =>
      w ← get_world;
      let '(r, c', n, tr) := check_if_time c (clock w) (ticks w) in
      (fun w => (Ok tt, set_checks (set_ticks w n) (done ++ c' :: rest), tr));;
      match r with
      | Raise e => raise e
      | Ok change =>
          _add_change_to_queue change;;
          probe (done ++ [c']) rest
      end
  end.

Definition make_step (provider_id : string) : M unit :=
  running_changes ← _register_running_changes provider_id;
  changes_to_remove ← _run_changes running_changes provider_id;
  _release_changes_lock changes_to_remove;;
  w ← get_world;
  if running w then probe [] (checks w) else mret tt.

Definition stop (change : option Change) : M unit :=
  _add_change_to_queue change;;
  modify (fun w => set_running w false).

(** *** Sequences of [check_if_time] calls *)



(** *** Notions used to state the properties *)

(** The timer of a check stamped [last], read at [now], has run out:
    the test [check_if_time] makes, in the arithmetic it makes it in. *)
Definition due (last interval now : float) : Prop :=
  (last + interval - now <=? 0)%float = true.


(** The number a float stands for; infinities and NaN have none and
    are given 0. *)
Definition value (x : float) : Q :=
  match Prim2SF x with
  | S754_finite s m e =>
      ((if s then -1 else 1) * inject_Z (Z.pos m) * Qpower 2 e)%Q
  | _ => 0%Q
  end.



(** [m] leaves only events allowed by [P] and keeps [Inv]. *)
Definition keeps (P : event -> Prop) (Inv : World -> Prop) {A} (m : M A)
    : Prop :=
  forall w, Inv w -> Forall P (m w).2 /\ Inv (m w).1.2.

Definition not_a_lock (e : event) : Prop := is_lock e = false.

(** The only [run] calls allowed once the controller is stopping. *)
Definition runs_at_exit_only (e : event) : Prop :=
  forall c peers, e = CallRun c peers -> can_run_at_exit c = true.

Definition stopped (w : World) : Prop := running w = false.

End Controller.

(** ** bubuku/broker.py: starting the broker *)

Module BrokerStart.
Import Broker.

Inductive event : Type :=
| ZkGetChildren (path : string)
| ZkGet (path : string)
| LogNotTransferred (topic partition : string)
| SetProperty (name value : string)
| DeleteProperty (name : string)
| Dump
| OpenProcess
| WaitForBrokerIdPresence (timeout : Z)
| LogStartTimeout (timeout : Z).

(** What [start_kafka_process] meets outside the manager: the children
    of [/brokers/ids], the answer of
    [id_manager.wait_for_broker_id_presence] for a timeout, and the
    handle [_open_process] returns. *)
Record Env : Type := mkEnv {
  broker_ids : list string;
  wait_for_broker_id_presence : Z -> bool;
  spawned : Process
}.

(** The manager with the field the claims did not need. *)
Record Starter : Type := mkStarter {
  manager : BrokerManager;
  wait_timeout : Z
}.

(** [s in active_brokers] on a list of strings. *)
Definition str_in (s : string) (l : list string) : bool :=
  existsb (String.eqb s) l.

Definition ids_path : string := "/brokers/ids".

(** The inner loop of [_wait_for_clean_leader_election]. *)
Fixpoint election_partitions (active_brokers : list string) (topic : string)
    (parts : list (string * option PartitionState))
    : result (option bool) * list event :=
  match parts with
  | [] => (Ok None, [])
  | (partition, node) :: rest =>
      match node with
      | None => (Raise NoNodeError, [ZkGet (state_path topic partition)])
      | Some state =>
          if negb (str_in (py_str (leader state)) active_brokers) then
            (Ok (Some false),
             [ZkGet (state_path topic partition);
              LogNotTransferred topic partition])
          else if existsb (fun x => negb (str_in (py_str x) active_brokers))
                    (isr state) then
            (Ok (Some false),
             [ZkGet (state_path topic partition);
              LogNotTransferred topic partition])
          else
            let '(r, tr) := election_partitions active_brokers topic rest in
            (r, ZkGet (state_path topic partition) :: tr)
      end
  end.

Fixpoint election_topics (active_brokers : list string) (tree : TopicTree)
    : result (option bool) * list event :=
  match tree with
  | [] => (Ok None, [])
  | (topic, parts) :: rest =>
      let '(r, tr) := election_partitions active_brokers topic parts in
      match r with
      | Ok None =>
          let '(r', tr') := election_topics active_brokers rest in
          (r', ZkGetChildren (partitions_path topic) :: tr ++ tr')
      | _ => (r, ZkGetChildren (partitions_path topic) :: tr)
      end
  end.

Definition _wait_for_clean_leader_election (bm : BrokerManager) (env : Env)
    : result bool * list event :=
  if negb (_is_clean_election bm) then (Ok true, [])
  else
    let '(r, tr) := election_topics (broker_ids env) (exhibitor bm) in
    (match r with
     | Ok (Some b) => Ok b
     | Ok None => Ok true
     | Raise e => Raise e
     end, ZkGetChildren ids_path :: ZkGetChildren topics_path :: tr).

Definition set_properties (bm : BrokerManager) (props : gmap string string)
    : BrokerManager :=
  mkBroker (id_manager bm) (exhibitor bm) props (process bm).

Definition set_process (bm : BrokerManager) (p : option Process)
    : BrokerManager :=
  mkBroker (id_manager bm) (exhibitor bm) (kafka_properties bm) p.

(** [start_kafka_process]. The properties hold strings: the broker id
    is kept as its [str], which is what [dump] writes. *)
Definition start_kafka_process (self : Starter) (env : Env)
    (zookeeper_address : string) : result bool * Starter * list event :=
  let bm := manager self in
  match process bm with
  | Some _ => (Ok true, self, [])
  | None =>
      let broker_id := get_broker_id (id_manager bm) in
      let '(props1, tr1) :=
        match broker_id with
        | PyNone =>
            (delete "broker.id" (kafka_properties bm),
             [DeleteProperty "broker.id"])
        | _ =>
            (<["broker.id" := py_str broker_id]> (kafka_properties bm),
             [SetProperty "broker.id" (py_str broker_id)])
        end in
      let props2 := <["zookeeper.connect" := zookeeper_address]> props1 in
      let bm2 := set_properties bm props2 in
      let tr2 := tr1 ++ [SetProperty "zookeeper.connect" zookeeper_address; Dump] in
      let '(r, tr3) := _wait_for_clean_leader_election bm2 env in
      match r with
      | Raise e => (Raise e, mkStarter bm2 (wait_timeout self), tr2 ++ tr3)
      | Ok false => (Ok false, mkStarter bm2 (wait_timeout self), tr2 ++ tr3)
      | Ok true =>
          let bm3 := set_process bm2 (Some (spawned env)) in
          if wait_for_broker_id_presence env (wait_timeout self) then
            (Ok true, mkStarter bm3 (wait_timeout self),
             tr2 ++ tr3 ++
             [OpenProcess; WaitForBrokerIdPresence (wait_timeout self)])
          else
            (Ok true, mkStarter bm3 (wait_timeout self + 60),
             tr2 ++ tr3 ++
             [OpenProcess; WaitForBrokerIdPresence (wait_timeout self);
              LogStartTimeout (wait_timeout self + 60)])
      end
  end.

Definition get_zk_connect_string (bm : BrokerManager) : option string :=
  get_property bm "zookeeper.connect".

(** *** Notions used to state the properties *)

(** The broker [id] leads the partition or is in its ISR. *)
Definition holds_partition (id : string) (state : PartitionState) : Prop :=
  py_str (leader state) = id \/ exists x, x ∈ isr state /\ py_str x = id.

(** Leader and ISR of the partition are all among [active]. *)
Definition transferred (active : list string) (state : PartitionState) : Prop :=
  py_str (leader state) ∈ active /\
  forall x, x ∈ isr state -> py_str x ∈ active.

(** The two tests as the loops compute them. *)
Definition holdsb (id : string) (state : PartitionState) : bool :=
  String.eqb (py_str (leader state)) id ||
  existsb (fun x => String.eqb (py_str x) id) (isr state).

Definition transferredb (active : list string) (state : PartitionState) : bool :=
  str_in (py_str (leader state)) active &&
  forallb (fun x => str_in (py_str x) active) (isr state).

(** The state in which the election wait runs: the two properties are
    written, nothing else has changed. *)
Definition configured (bm : BrokerManager) (address : string) : BrokerManager :=
  set_properties bm
    (<["zookeeper.connect" := address]>
       (match get_broker_id (id_manager bm) with
        | PyNone => delete "broker.id" (kafka_properties bm)
        | id => <["broker.id" := py_str id]> (kafka_properties bm)
        end)).

(** The states stored in the tree; every state node is there. *)
Definition states (tree : TopicTree) : list (option PartitionState) :=
  tree ≫= fun item => item.2.*2.

Definition all_states_present (tree : TopicTree) : Prop :=
  Forall is_Some (states tree).

End BrokerStart.

(** ** bubuku/zookeeper.py: the other node operations of BukuExhibitor *)

Module ZkNodes.
Import Zookeeper.

(** [client.get(path)]: the data, or [NoNodeError]. *)
Definition get (path : string) (store : Store) : result data :=
  match store !! path with
  | Some d => Ok d
  | None => Raise NoNodeError
  end.

(** [client.set(path, value)]: overwrites an existing node only. *)
Definition set (path : string) (value : json) (store : Store)
    : result unit * Store :=
  match store !! path with
  | Some _ => (Ok tt, <[path := Doc value]> store)
  | None => (Raise NoNodeError, store)
  end.

Definition broker_path (broker_id : string) : string :=
  "/brokers/ids/" +:+ broker_id.

Definition size_stats_path (broker_id : string) : string :=
  "/bubuku/size_stats/" +:+ broker_id.

(** The stat that comes with the data is never [None] for a node that
    exists. *)
Definition is_broker_registered (broker_id : string) (store : Store) : bool :=
  match get (broker_path broker_id) store with
  | Ok _ => true
  | Raise _ => false
  end.

(** [update_disk_stats]: create with [makepath], and on
    [NodeExistsError] set. The store keeps [value] for its
    serialisation with sorted keys; that the node is ephemeral, gone
    with the session, is not modelled. *)
Definition update_disk_stats (broker_id : string) (value : json)
    (store : Store) : result unit * Store :=
  match create_makepath (size_stats_path broker_id) value store with
  | (Raise NodeExistsError, store') =>
      set (size_stats_path broker_id) value store'
  | other => other
  end.

Definition is_rebalancing (store : Store) : bool :=
  match get reassign_path store with
  | Ok _ => true
  | Raise _ => false
  end.

(** *** Notions used to state the properties *)

(** [a] lies on the way from the root down to [path], [path] itself
    excluded. *)
Definition above (a path : string) : Prop :=
  exists n : nat, a = Nat.iter (S n) parent path.

(** Every node has its parent: what a store of the service always
    is. *)
Definition is_tree (store : Store) : Prop :=
  forall p d, store !! p = Some d -> node_exists (parent p) store = true.

End ZkNodes.

(** ** bubuku/controller.py: notions for the whole make-step *)

Module ControllerInv.
Import Controller.

(** The change map as the controller keeps it: no name twice, no empty
    queue, every change filed under its own name. *)
Definition well_formed (changes : dict (list Change)) : Prop :=
  NoDup changes.*1 /\
  Forall (fun item => item.2 <> [] /\
                      Forall (fun c => get_name c = item.1) item.2) changes.

(** Events that belong inside the global lock, and events that belong
    outside it. *)
Definition under_lock (e : event) : bool :=
  match e with
  | GetRunningChanges | RegisterChange _ _ | UnregisterChange _
  | CallCanRun _ _ => true
  | _ => false
  end.

Definition lock_free (e : event) : bool :=
  match e with
  | CallRun _ _ | CallOnRemove _ | ForcedToStop _
  | TimeRead _ | SetTimestamp _ | CallCheck _ => true
  | _ => false
  end.

(** Reads a trace from a state of the lock ([held] or not): [None] when
    the lock is taken twice, released while free, a registry event
    happens without it or a change or check runs with it; otherwise
    the state of the lock at the end. *)
Fixpoint lock_discipline (held : bool) (tr : list event) : option bool :=
  match tr with
  | [] => Some held
  | TakeLock _ :: rest => if held then None else lock_discipline true rest
  | ReleaseLock :: rest => if held then lock_discipline false rest else None
  | e :: rest =>
      if held then (if under_lock e then lock_discipline true rest else None)
      else (if lock_free e then lock_discipline false rest else None)
  end.

(** [m] takes and releases the lock properly, from free to free. *)
Definition disciplined {A} (m : M A) : Prop :=
  forall w, lock_discipline false (m w).2 = Some false.

(** No condition on the world. *)
Definition anything (w : World) : Prop := True.

(** The queue of [name] after its head was removed. *)
Definition popped (changes : dict (list Change)) (name : string)
    : option (list Change) :=
  match dict_get name changes with
  | Some (_ :: (_ :: _) as queue) => Some queue
  | _ => None
  end.

(** The names of the owned queue heads, in the order of the change
    map. *)
Fixpoint owned_heads (provider_id : string) (running_changes : dict string)
    (items : list (string * list Change)) : list string :=
  match items with
  | [] => []
  | (name, queue) :: rest =>
      match queue with
      | change :: _ =>
          if bool_decide (dict_get name running_changes = Some provider_id)
          then get_name change :: owned_heads provider_id running_changes rest
          else owned_heads provider_id running_changes rest
      | [] => owned_heads provider_id running_changes rest
      end
  end.

End ControllerInv.

(** ** bubuku/features/swap_partitions.py: CheckBrokersDiskImbalance *)

Module DiskImbalance.
Import SwapPartitions.

(** [max(items, key=free_size_getter)] and [min]: the first of the
    largest, the first of the smallest. *)
Fixpoint max_free_from (best : pyobj * BrokerStats)
    (l : list (pyobj * BrokerStats)) : pyobj * BrokerStats :=
  match l with
  | [] => best
  | x :: rest =>
      if free_kb best.2 <? free_kb x.2 then max_free_from x rest
      else max_free_from best rest
  end.

Fixpoint min_free_from (best : pyobj * BrokerStats)
    (l : list (pyobj * BrokerStats)) : pyobj * BrokerStats :=
  match l with
  | [] => best
  | x :: rest =>
      if free_kb x.2 <? free_kb best.2 then min_free_from x rest
      else min_free_from best rest
  end.

(** [size_stats[broker_id]]. *)
Fixpoint stats_get (broker_id : pyobj) (stats : list (pyobj * BrokerStats))
    : option BrokerStats :=
  match stats with
  | [] => None
  | (k, v) :: rest =>
      if py_eqb k broker_id then Some v else stats_get broker_id rest
  end.

Inductive log : Type :=
| LogNoSizeStats
| LogStartingCheck
| LogGapNotEnough (slim : pyobj) (slim_free : Z) (fat : pyobj) (fat_free : Z)
                  (gap : Z)
| LogCreatingSwap (slim : pyobj) (slim_free : Z) (fat : pyobj) (fat_free : Z)
                  (gap : Z).

(** [create_swap_partition_change]. [size_stats] is what
    [zk.get_disk_stats()] returned ([None] or the mapping, in its
    iteration order); [policy] is the cancellation policy the new
    change inherits from its base class. *)
Definition create_swap_partition_change (diff_threshold_kb : Z)
    (policy : list string -> bool)
    (size_stats : option (list (pyobj * BrokerStats)))
    : result (option SwapPartitionsChange) * list log :=
  match size_stats with
  | None | Some [] => (Ok None, [LogNoSizeStats])
  | Some ((first :: rest) as stats) =>
      let slim_broker_id := (max_free_from first rest).1 in
      let fat_broker_id := (min_free_from first rest).1 in
      match stats_get fat_broker_id stats, stats_get slim_broker_id stats with
      | Some fat_stats, Some slim_stats =>
          let fat_broker_free_kb := free_kb fat_stats in
          let slim_broker_free_kb := free_kb slim_stats in
          let gap := slim_broker_free_kb - fat_broker_free_kb in
          if gap <? diff_threshold_kb then
            (Ok None,
             [LogGapNotEnough slim_broker_id slim_broker_free_kb
                fat_broker_id fat_broker_free_kb gap])
          else
            (Ok (Some (mkSwap fat_broker_id slim_broker_id gap stats None policy)),
             [LogCreatingSwap slim_broker_id slim_broker_free_kb
                fat_broker_id fat_broker_free_kb gap])
      | _, _ => (Raise KeyError, [])
      end
  end.

(** [BrokerManager.is_running_and_registered], with the answer of
    [id_manager.is_registered()]. *)
Definition is_running_and_registered (bm : Broker.BrokerManager)
    (is_registered : bool) : bool :=
  match Broker.process bm with
  | None => false
  | Some _ => is_registered
  end.

(** [CheckBrokersDiskImbalance.check]. *)
Definition check (bm : Broker.BrokerManager) (is_registered : bool)
    (diff_threshold_kb : Z) (policy : list string -> bool)
    (size_stats : option (list (pyobj * BrokerStats)))
    : result (option SwapPartitionsChange) * list log :=
  if is_running_and_registered bm is_registered then
    let '(r, lg) :=
      create_swap_partition_change diff_threshold_kb policy size_stats in
    (r, LogStartingCheck :: lg)
  else (Ok None, []).

(** The interval the check is constructed with. *)
Definition check_interval_s : float := 900%float.

End DiskImbalance.

(** ** bubuku/controller.py: the pause between two steps *)

Module ControllerLoop.
Import Controller.

(** [[check.time_till_check() for check in self.checks]]: one reading
    of the clock per check, in the order of the checks. *)
Fixpoint times_till_check (checks : list Check) (clock : nat -> float)
    (ticks : nat) : list float * nat :=
  match checks with
  | [] => ([], ticks)
  | c :: rest =>
      let '(till, ticks1) := time_till_check c clock ticks in
      let '(tills, ticks2) := times_till_check rest clock ticks1 in
      (till :: tills, ticks2)
  end.

(** [min] over numbers: the first of the smallest, [ValueError] on an
    empty list. *)
Fixpoint min_from (best : float) (l : list float) : float :=
  match l with
  | [] => best
  | x :: rest =>
      if (x <? best)%float then min_from x rest else min_from best rest
  end.

Definition py_min (l : list float) : result float :=
  match l with
  | [] => Raise ValueError
  | x :: rest => Ok (min_from x rest)
  end.

Inductive pause : Type :=
| NoSleep
| Sleep (seconds : float).

(** What [loop] does after [make_step]: half a second while changes
    are pending, otherwise until the first check is due. *)
Definition pause_after_step : M pause :=
  w ← get_world;
  match changes w with
  | _ :: _ => mret (Sleep 0.5%float)
  | [] =>
      let '(tills, n) := times_till_check (checks w) (clock w) (ticks w) in
      (fun w0 =>
         (Ok tt, set_ticks w0 n,
          (fun i => TimeRead (clock w (ticks w + i)%nat))
            <$> seq 0 (length (checks w))));;
      match py_min tills with
      | Raise e => raise e
      | Ok min_time_till_check =>
          if (0 <? min_time_till_check)%float
          then mret (Sleep min_time_till_check)
          else mret NoSleep
      end
  end.

(** One turn of the body of [while self.running or self.changes]. *)
Definition loop_turn (provider_id : string) : M pause :=
  make_step provider_id;; pause_after_step.

(** What is left on the timer of the [i]-th check when [loop] reads
    it. *)
Definition remaining (w : World) (i : nat) (c : Check) : float :=
  (__last_check_timestamp_s c + check_interval_s c
   - clock w (ticks w + i)%nat)%float.

End ControllerLoop.

(** * Sample inputs *)

Module BrokerSamples.
Import Broker.

Definition leading_tree : TopicTree :=
  [("t", [("0", Some (mkState (PyInt 5) [PyInt 5; PyInt 6]))])].

Definition broker_with (value : option string) (id : pyobj) (tree : TopicTree)
    : BrokerManager :=
  mkBroker (mkIdGen id false) tree
    (match value with
     | Some v => {[gate_key := v]}
     | None => ∅
     end)
    (Some (mkProcess false false)).

End BrokerSamples.

Module ZookeeperSamples.
Import Zookeeper.

(** A sample [int] on strings, enough for the inputs used below. *)
Definition sample_int_of_str (s : string) : option Z :=
  if String.eqb s "1" then Some 1
  else if String.eqb s "2" then Some 2
  else if String.eqb s "3" then Some 3
  else None.

(** The plan that holds [t/3] on brokers 1 and 2. *)
Definition sample_doc : json :=
  JObj [("version", JStr "1");
        ("partitions",
         JList [JObj [("topic", JStr "t"); ("partition", JInt 3);
                      ("replicas", JList [JInt 1; JInt 2])]])].

Definition sample_plan : list Triple :=
  [("t", PyStr "3", [PyInt 1; PyStr "2"]); ("u", PyInt 0, [PyStr "1"])].

End ZookeeperSamples.

Module SwapPartitionsSamples.
Import Zookeeper SwapPartitions.

Definition no_int_of_str (s : string) : option Z := None.

Definition fat1 : pyobj := PyInt 1.

Definition slim2 : pyobj := PyInt 2.

Definition U0 : TpData := mkTpData "U" 0 60 [fat1].

Definition U1 : TpData := mkTpData "U" 1 55 [fat1].

Definition U2 : TpData := mkTpData "U" 2 40 [fat1].

(** Only the fat broker holds partitions with known sizes. *)
Definition stats_fat_only : list (pyobj * BrokerStats) :=
  [(fat1, mkBrokerStats 500 900 {["U" := {[0 := 60; 1 := 55]}]});
   (slim2, mkBrokerStats 600 800 ∅)].

Definition zk_fat_only : Zk :=
  mkZk [("U", 0, [fat1]); ("U", 1, [fat1; PyInt 3])] ∅.

Definition change_fat_only : SwapPartitionsChange :=
  mkSwap fat1 slim2 100 stats_fat_only None (fun _ => false).

(** The slim broker holds a partition alone; the only partition of the
    fat broker is on the slim one too. *)
Definition stats_slim_only : list (pyobj * BrokerStats) :=
  [(fat1, mkBrokerStats 500 900 {["U" := {[0 := 60]}]});
   (slim2, mkBrokerStats 600 800 {["T" := {[0 := 10]}; "U" := {[0 := 60]}]})].

Definition zk_slim_only : Zk :=
  mkZk [("T", 0, [slim2]); ("U", 0, [fat1; slim2])] {["/admin" := NoData]}.

Definition change_slim_only : SwapPartitionsChange :=
  mkSwap fat1 slim2 100 stats_slim_only None (fun _ => false).

(** One partition on each broker alone, one on both, one of unknown
    size. *)
Definition stats_both : list (pyobj * BrokerStats) :=
  [(fat1, mkBrokerStats 500 900 {["t" := {[0 := 10; 2 := 30]}]});
   (slim2, mkBrokerStats 600 800 {["t" := {[1 := 20; 2 := 30]}]})].

Definition zk_both : Zk :=
  mkZk [("t", 0, [fat1; PyInt 3]); ("t", 1, [slim2; PyInt 3]);
        ("t", 2, [fat1; slim2]); ("u", 0, [fat1])] ∅.

(** Sizes 60, 55 and 40 on the fat broker, 10 and 20 on the slim one. *)
Definition stats_swap : list (pyobj * BrokerStats) :=
  [(fat1, mkBrokerStats 500 900 {["U" := {[0 := 60; 1 := 55; 2 := 40]}]});
   (slim2, mkBrokerStats 600 800 {["T" := {[0 := 10; 1 := 20]}]})].

(** Every fat partition is as large as the only slim one. *)
Definition stats_even : list (pyobj * BrokerStats) :=
  [(fat1, mkBrokerStats 500 900 {["V" := {[0 := 50; 1 := 50]}]});
   (slim2, mkBrokerStats 600 800 {["T" := {[0 := 50]}]})].

Definition zk_even : Zk :=
  mkZk [("T", 0, [slim2]); ("V", 0, [fat1]); ("V", 1, [fat1])] ∅.

Definition zk_swap : Zk :=
  mkZk [("T", 0, [slim2]); ("T", 1, [slim2]);
        ("U", 0, [fat1]); ("U", 1, [fat1]); ("U", 2, [fat1])]
       {["/admin" := NoData]}.

End SwapPartitionsSamples.

Module ControllerSamples.
Import Controller.

(** A clock that advances three seconds per reading, from 100. *)
Definition clock3 (n : nat) : float :=
  (100 + 3 * PrimFloat.of_uint63 (Uint63.of_Z (Z.of_nat n)))%float.





Definition sample_check : Check :=
  mkCheck 5%float 0%float
    (Ok (Some (mkChange "restart" (fun _ => true) (fun _ => Ok false) false))).

Definition idle_world : World :=
  mkWorld [sample_check] [] true [("rebalance", "3.3.3.3")] clock3 0.

Definition restart_change : Change :=
  mkChange "restart" (fun _ => true) (fun _ => Ok true) false.

Definition final_change : Change :=
  mkChange "stop" (fun _ => true) (fun _ => Ok false) true.

(** A controller after [stop]: two owned queues, one of which may run
    at exit. *)
Definition stopping_world : World :=
  mkWorld [sample_check]
    [("restart", [restart_change]); ("stop", [final_change])]
    false
    [("restart", "1.1.1.1"); ("stop", "1.1.1.1")]
    clock3 0.

(** The same two queues on a running controller whose registry also
    holds the change of another supervisor. *)
Definition shared_world : World :=
  mkWorld [sample_check]
    [("restart", [restart_change]); ("stop", [final_change])]
    true
    [("rebalance", "3.3.3.3"); ("restart", "1.1.1.1")]
    clock3 0.

End ControllerSamples.

Module BrokerStartSamples.
Import Broker BrokerStart.

(** Brokers 1, 2 and 3 are registered; the broker id shows up only
    when waited for at least 330 seconds. *)
Definition three_brokers : Env :=
  mkEnv ["1"; "2"; "3"] (fun timeout => 330 <=? timeout) (mkProcess false false).

Definition stopped_broker (tree : TopicTree) : BrokerManager :=
  mkBroker (mkIdGen (PyInt 2) false) tree
    {[gate_key := "false"]} None.

(** A partition still led by broker 9, which is gone. *)
Definition waiting_starter : Starter :=
  mkStarter
    (stopped_broker [("t", [("0", Some (mkState (PyInt 9) [PyInt 1; PyInt 9]))])])
    300.

(** Leader and ISR are all registered. *)
Definition settled_starter : Starter :=
  mkStarter
    (stopped_broker [("t", [("0", Some (mkState (PyInt 1) [PyInt 1; PyInt 3]))])])
    300.

End BrokerStartSamples.

(** * Properties *)

Module PyFacts.

Lemma py_in_spec x xs : py_in x xs = true <-> x ∈ xs.
Proof.
  unfold py_in, py_eqb. rewrite existsb_exists. split.
  - intros (y & Hy & Heq). apply bool_decide_eq_true in Heq. subst.
    by apply list_elem_of_In.
  - intros Hx. exists x. split; [by apply list_elem_of_In|].
    by apply bool_decide_eq_true.
Qed.

Lemma str_truthy_false s : str_truthy s = false <-> s = "".
Proof. destruct s; simpl; split; congruence. Qed.

End PyFacts.

(** ** The order and the values of binary64 floats *)

Module FloatFacts.
Import Controller.

Ltac sf_order :=
  repeat match goal with
  | H : context [Pos.compare_cont Eq ?a ?b] |- _ =>
      change (Pos.compare_cont Eq a b) with (Pos.compare a b) in H
  | |- context [Pos.compare_cont Eq ?a ?b] =>
      change (Pos.compare_cont Eq a b) with (Pos.compare a b)
  end;
  repeat match goal with
  | H : context [Z.compare ?a ?b] |- _ => destruct (Z.compare_spec a b)
  | |- context [Z.compare ?a ?b] => destruct (Z.compare_spec a b)
  | H : context [Pos.compare ?a ?b] |- _ => destruct (Pos.compare_spec a b)
  | |- context [Pos.compare ?a ?b] => destruct (Pos.compare_spec a b)
  end;
  simpl in *; subst; try discriminate; try reflexivity; try lia.


Lemma SFcompare_flip a b :
  SFcompare b a = match SFcompare a b with
                  | Some c => Some (CompOpp c)
                  | None => None
                  end.
Proof.
  unfold SFcompare.
  destruct a as [sa|sa| |sa ma ea], b as [sb|sb| |sb mb eb];
    try destruct sa; try destruct sb; simpl; try reflexivity; sf_order.
Qed.

Lemma SFcompare_nan a b :
  SFcompare a b = None <-> a = S754_nan \/ b = S754_nan.
Proof.
  unfold SFcompare.
  destruct a as [sa|sa| |sa ma ea], b as [sb|sb| |sb mb eb]; simpl;
    split; try discriminate; try (intros [?|?]; discriminate); auto.
Qed.


Local Open Scope float_scope.






Lemma leb_is_number x y : (x <=? y) = true -> is_nan x = false.
Proof.
  rewrite leb_spec. unfold is_nan. rewrite FloatAxioms.eqb_spec.
  unfold SFleb, SFeqb.
  destruct (SFcompare (Prim2SF x) (Prim2SF y)) as [c|] eqn:E; [|done].
  intros _.
  destruct (SFcompare (Prim2SF x) (Prim2SF x)) as [c'|] eqn:E'.
  - pose proof (SFcompare_flip (Prim2SF x) (Prim2SF x)) as Hflip.
    rewrite E' in Hflip. by destruct c'.
  - apply SFcompare_nan in E' as [Hn|Hn];
      assert (Hnone : SFcompare (Prim2SF x) (Prim2SF y) = None)
        by (apply SFcompare_nan; by left); congruence.
Qed.


End FloatFacts.

(** ** broker.py: the clean-election gate *)

Module BrokerSpec.
Import Broker BrokerSamples.

Lemma is_clean_election_iff bm :
  _is_clean_election bm = true <->
  exists v, get_property bm gate_key = Some v /\ v <> "true".
Proof.
  unfold _is_clean_election, gate_key.
  destruct (get_property bm _) as [v|] eqn:Hv.
  - rewrite (bool_decide_eq_false_2 (Some v = None)) by discriminate.
    simpl. case_bool_decide as Ht; split.
    + discriminate.
    + intros (v' & Hv' & Hne). congruence.
    + intros _. exists v. split; [done|]. congruence.
    + done.
  - rewrite bool_decide_eq_true_2 by done. simpl. split; [discriminate|].
    intros (v & Hv' & _). discriminate.
Qed.

Lemma terminate_keeps_properties bm :
  kafka_properties (_terminate_process bm).1 = kafka_properties bm /\
  id_manager (_terminate_process bm).1 = id_manager bm /\
  exhibitor (_terminate_process bm).1 = exhibitor bm.
Proof. unfold _terminate_process. by destruct (process bm). Qed.

Lemma terminate_no_reads bm : zk_reads (_terminate_process bm).2 = [].
Proof.
  unfold _terminate_process.
  destruct (process bm) as [[[] []]|]; reflexivity.
Qed.

Lemma wait_no_reads bm : zk_reads (_wait_for_zk_absence bm) = [].
Proof.
  unfold _wait_for_zk_absence.
  by destruct (wait_for_broker_id_absence_raises _).
Qed.

Lemma is_clean_election_terminate bm :
  _is_clean_election (_terminate_process bm).1 = _is_clean_election bm.
Proof.
  unfold _is_clean_election, get_property.
  by destruct (terminate_keeps_properties bm) as (-> & _).
Qed.

Lemma stop_unfold bm :
  stop_kafka_process bm =
  let bm1 := (_terminate_process bm).1 in
  (match (_have_leadership bm1).1 with
   | Ok b => Ok (negb b)
   | Raise e => Raise e
   end, bm1,
   (_terminate_process bm).2 ++ _wait_for_zk_absence bm1 ++
   (_have_leadership bm1).2).
Proof.
  unfold stop_kafka_process.
  destruct (_terminate_process bm) as [bm1 tr1]. simpl.
  by destruct (_have_leadership bm1) as [r tr3].
Qed.

Lemma zk_reads_app tr1 tr2 : zk_reads (tr1 ++ tr2) = zk_reads tr1 ++ zk_reads tr2.
Proof. apply filter_app. Qed.

(** When [_have_leadership] answers [Ok false] without touching the
    store, [stop_kafka_process] answers [Ok true] without touching it. *)
Lemma stop_when_scan_skipped bm :
  _have_leadership (_terminate_process bm).1 = (Ok false, []) ->
  (stop_kafka_process bm).1.1 = Ok true /\
  zk_reads (stop_kafka_process bm).2 = [].
Proof.
  intros H. rewrite stop_unfold. simpl. rewrite H. simpl. split; [done|].
  rewrite !zk_reads_app, terminate_no_reads, wait_no_reads. done.
Qed.

(** C1 (as amended): the gate is clean exactly when the property is set
    to something other than the string true, so in particular when it
    is the string false; when it is unset or the string true the scan
    is skipped, no partition state is read and [stop_kafka_process]
    returns true whatever the store holds. *)
Theorem clean_election_gate (bm : BrokerManager) :
  (_is_clean_election bm = true <->
     exists v, get_property bm gate_key = Some v /\ v <> "true") /\
  (get_property bm gate_key = Some "false" -> _is_clean_election bm = true) /\
  (get_property bm gate_key = None \/ get_property bm gate_key = Some "true" ->
     _is_clean_election bm = false /\
     (stop_kafka_process bm).1.1 = Ok true /\
     zk_reads (stop_kafka_process bm).2 = []).
Proof.
  split; [apply is_clean_election_iff|]. split.
  - intros H. apply is_clean_election_iff. exists "false". by split.
  - intros H.
    assert (Hc : _is_clean_election bm = false).
    { destruct (_is_clean_election bm) eqn:E; [|done].
      apply is_clean_election_iff in E as (v & Hv & Hne).
      destruct H as [H|H]; rewrite H in Hv; [discriminate|].
      by injection Hv as <-. }
    split; [done|]. apply stop_when_scan_skipped.
    unfold _have_leadership. by rewrite is_clean_election_terminate, Hc.
Qed.

Lemma clean_election_gate_witness :
  let bm := broker_with (Some "true") (PyInt 5) leading_tree in
  _is_clean_election bm = false /\
  (stop_kafka_process bm).1.1 = Ok true /\
  zk_reads (stop_kafka_process bm).2 = [].
Proof.
  intros bm.
  apply (proj2 (proj2 (clean_election_gate bm))).
  right. vm_compute. reflexivity.
Defined.

(** C1 as stated fails: a value that is neither the string false nor
    the string true is taken as clean, the scan runs and
    [stop_kafka_process] returns false for a broker that still leads. *)
Lemma clean_election_gate_counterexample :
  let bm := broker_with (Some "yes") (PyInt 5) leading_tree in
  get_property bm gate_key = Some "yes" /\
  _is_clean_election bm = true /\
  (stop_kafka_process bm).1.1 = Ok false /\
  zk_reads (stop_kafka_process bm).2 =
    [ZkGetChildren "/brokers/topics";
     ZkGetChildren "/brokers/topics/t/partitions";
     ZkGet "/brokers/topics/t/partitions/0/state"].
Proof. vm_compute. repeat split; reflexivity. Qed.

(** The half of the broker-id guard that works: an id whose [str] is
    empty ends the call before the store is read. *)
Lemma empty_broker_id_skips_scan bm :
  py_str (get_broker_id (id_manager bm)) = "" ->
  (stop_kafka_process bm).1.1 = Ok true /\
  zk_reads (stop_kafka_process bm).2 = [].
Proof.
  intros Hid. apply stop_when_scan_skipped.
  unfold _have_leadership.
  destruct (terminate_keeps_properties bm) as (_ & -> & _).
  rewrite Hid. simpl. by destruct (negb _).
Qed.

(** [str] of [None] is never empty, so the guard lets [None] through. *)
Lemma none_broker_id_is_truthy : str_truthy (py_str PyNone) = true.
Proof. reflexivity. Qed.

(** C10 (the code at the failing input): with the gate active and the
    id manager answering [None], [_have_leadership] compares against the
    string None: the partition state is read, and a state whose leader
    is null even makes [stop_kafka_process] return false. *)
Theorem none_broker_id_scans_store :
  let bm := broker_with (Some "false") PyNone leading_tree in
  let bm' := broker_with (Some "false") PyNone
               [("t", [("0", Some (mkState PyNone []))])] in
  _is_clean_election bm = true /\
  (stop_kafka_process bm).1.1 = Ok true /\
  zk_reads (stop_kafka_process bm).2 =
    [ZkGetChildren "/brokers/topics";
     ZkGetChildren "/brokers/topics/t/partitions";
     ZkGet "/brokers/topics/t/partitions/0/state"] /\
  (stop_kafka_process bm').1.1 = Ok false.
Proof. vm_compute. repeat split; reflexivity. Qed.

End BrokerSpec.

(** ** zookeeper.py: submitting a reassignment *)

Module ZookeeperSpec.
Import Zookeeper ZookeeperSamples.

Section Int.

Variable int_of_str : string -> option Z.

Lemma submit_existing j store :
  is_Some (store !! reassign_path) ->
  submit j store = (Ok false, store, [LogWaitingForSlot]).
Proof. intros [old Hold]. unfold submit, create. by rewrite Hold. Qed.

Lemma submit_absent j store :
  store !! reassign_path = None ->
  node_exists "/admin" store = true ->
  submit j store =
    (Ok true, <[reassign_path := Doc j]> store, [LogReallocating j]).
Proof.
  intros Hnone Hparent. unfold submit, create. rewrite Hnone.
  change (parent reassign_path) with "/admin". by rewrite Hparent.
Qed.

Lemma submit_orphan j store :
  store !! reassign_path = None ->
  node_exists "/admin" store = false ->
  submit j store = (Raise NoNodeError, store, []).
Proof.
  intros Hnone Hparent. unfold submit, create. rewrite Hnone.
  change (parent reassign_path) with "/admin". by rewrite Hparent.
Qed.

(** *** [int] on the plan's numbers *)

Lemma py_int_converts o z : py_int int_of_str o = Ok z <-> converts int_of_str o z.
Proof.
  destruct o as [|z'|s]; simpl.
  - split; [discriminate|done].
  - split; [by intros [= ->]|by intros ->].
  - destruct (int_of_str s) as [z'|]; split; try discriminate.
    + by intros [= ->].
    + by intros [= ->].
Qed.

Lemma py_ints_converts l :
  forall zs, py_ints int_of_str l = Ok zs <-> Forall2 (converts int_of_str) l zs.
Proof.
  induction l as [|o l IH]; intros zs; simpl.
  - split.
    + intros [= <-]. constructor.
    + intros H. by inversion H.
  - destruct (py_int int_of_str o) as [z|e] eqn:Ho.
    + apply py_int_converts in Ho.
      destruct (py_ints int_of_str l) as [zs'|e] eqn:Hl.
      * split.
        -- intros [= <-]. constructor; [done|]. by apply IH.
        -- intros H. inversion H as [|? z2 ? zs2 Hz Hzs]; subst.
           apply IH in Hzs. injection Hzs as <-.
           apply py_int_converts in Ho, Hz. congruence.
      * split; [discriminate|]. intros H.
        inversion H as [|? z2 ? zs2 Hz Hzs]; subst.
        apply IH in Hzs. discriminate.
    + split; [discriminate|]. intros H.
      inversion H as [|? z2 ? zs2 Hz Hzs]; subst.
      apply py_int_converts in Hz. congruence.
Qed.

Lemma partition_entry_numbers topic partition replicas p rs :
  converts int_of_str partition p ->
  Forall2 (converts int_of_str) replicas rs ->
  partition_entry int_of_str topic partition replicas =
    Ok (JObj [("topic", JStr topic); ("partition", JInt p);
              ("replicas", JList (JInt <$> rs))]).
Proof.
  intros Hp%py_int_converts Hrs%py_ints_converts.
  unfold partition_entry. by rewrite Hp, Hrs.
Qed.

Lemma partition_entry_refused topic partition replicas e :
  partition_entry int_of_str topic partition replicas = Raise e ->
  forall n, ~ numbers_of int_of_str (topic, partition, replicas) n.
Proof.
  unfold partition_entry. intros Hraise [p rs] [Hp Hrs]. simpl in *.
  apply py_int_converts in Hp. apply py_ints_converts in Hrs.
  rewrite Hp, Hrs in Hraise. discriminate.
Qed.

Lemma partition_entries_numbers ts :
  forall ns,
    Forall2 (numbers_of int_of_str) ts ns ->
    partition_entries int_of_str ts =
      Ok (zip_with
            (fun (t : Triple) (n : Z * list Z) =>
               JObj [("topic", JStr t.1.1); ("partition", JInt n.1);
                     ("replicas", JList (JInt <$> n.2))]) ts ns).
Proof.
  induction ts as [|[[topic partition] replicas] ts IH]; intros ns Hns.
  - by inversion Hns.
  - inversion Hns as [|? [p rs] ? ns' [Hp Hrs] Hrest]; subst. simpl in *.
    by rewrite (partition_entry_numbers _ _ _ _ _ Hp Hrs), (IH _ Hrest).
Qed.

Lemma partition_entries_refused ts e :
  partition_entries int_of_str ts = Raise e ->
  forall ns, ~ Forall2 (numbers_of int_of_str) ts ns.
Proof.
  intros Hraise ns Hns.
  by rewrite (partition_entries_numbers _ _ Hns) in Hraise.
Qed.

Lemma partition_entries_accepts ts entries :
  partition_entries int_of_str ts = Ok entries ->
  exists ns, Forall2 (numbers_of int_of_str) ts ns.
Proof.
  revert entries.
  induction ts as [|[[topic partition] replicas] ts IH]; intros entries; simpl.
  - intros _. exists []. constructor.
  - unfold partition_entry.
    destruct (py_int _ partition) as [p|] eqn:Hp; [|discriminate].
    destruct (py_ints _ replicas) as [rs|] eqn:Hrs; [|discriminate].
    destruct (partition_entries _ ts) as [rest|]; [|discriminate].
    intros _. destruct (IH rest eq_refl) as [ns Hns].
    exists ((p, rs) :: ns). constructor; [|done]. split; simpl.
    + by apply py_int_converts.
    + by apply py_ints_converts.
Qed.

(** The single entry point is the list entry point on one triple. *)
Lemma reallocate_partition_is_singleton topic partition replicas store :
  reallocate_partition int_of_str topic partition replicas store =
  reallocate_partitions int_of_str [(topic, partition, replicas)] store.
Proof.
  unfold reallocate_partition, reallocate_partitions. simpl.
  by destruct (partition_entry _ topic partition replicas).
Qed.

(** C2 (amended): for a call whose partition and replicas convert with
    [int], [reallocate_partition] on a store that already holds
    [/admin/reassign_partitions] returns false and leaves the store as
    it was; on a store without the node but with its parent [/admin] it
    returns true and the store is the old one plus that node, holding
    the plan: version 1 and one entry with the topic, the integer
    partition and the integer replicas. Without [/admin] the create is
    refused with [NoNodeError], which is not caught, and the store
    stays as it was. *)
Theorem reallocate_partition_singleton
    (topic : string) (partition : pyobj) (replicas : list pyobj)
    (p : Z) (rs : list Z) (store : Store) :
  converts int_of_str partition p ->
  Forall2 (converts int_of_str) replicas rs ->
  let plan :=
    JObj [("version", JStr "1");
          ("partitions",
           JList [JObj [("topic", JStr topic); ("partition", JInt p);
                        ("replicas", JList (JInt <$> rs))]])] in
  (is_Some (store !! reassign_path) ->
     reallocate_partition int_of_str topic partition replicas store =
       (Ok false, store, [LogWaitingForSlot])) /\
  (store !! reassign_path = None -> node_exists "/admin" store = true ->
     reallocate_partition int_of_str topic partition replicas store =
       (Ok true, <[reassign_path := Doc plan]> store, [LogReallocating plan]) /\
     <[reassign_path := Doc plan]> store !! reassign_path = Some (Doc plan) /\
     forall path, path <> reassign_path ->
       <[reassign_path := Doc plan]> store !! path = store !! path) /\
  (store !! reassign_path = None -> node_exists "/admin" store = false ->
     reallocate_partition int_of_str topic partition replicas store =
       (Raise NoNodeError, store, [])).
Proof.
  intros Hp Hrs plan. unfold reallocate_partition.
  rewrite (partition_entry_numbers _ _ _ _ _ Hp Hrs).
  split; [|split].
  - apply submit_existing.
  - intros Hnone Hparent. split; [by apply submit_absent|]. split.
    + apply lookup_insert_eq.
    + intros path Hne. by apply lookup_insert_ne.
  - apply submit_orphan.
Qed.

(** C3: both accepted forms, the single triple (the code's
    [reallocate_partition]) and the list, hand the store the wire
    document: version 1 and one entry per triple, in order, each with
    the triple's topic, its partition as an integer and its replicas as
    integers, whatever mix of [int] and [str] came in. On a free slot
    that document is what the node holds and the answer is true; on a
    taken slot the answer is false and nothing is written. An input
    with a number that [int] refuses is not accepted: the call raises
    and nothing is written. *)
Theorem submit_reassignment_wire_json
    (input : ReassignmentInput) (store : Store) :
  let triples := match input with Single t => [t] | Many ts => ts end in
  (forall ns : list (Z * list Z),
     Forall2 (numbers_of int_of_str) triples ns ->
     let doc :=
       JObj [("version", JStr "1");
             ("partitions",
              JList (zip_with
                       (fun (t : Triple) (n : Z * list Z) =>
                          JObj [("topic", JStr t.1.1); ("partition", JInt n.1);
                                ("replicas", JList (JInt <$> n.2))])
                       triples ns))] in
     (store !! reassign_path = None -> node_exists "/admin" store = true ->
        submit_reassignment int_of_str input store =
          (Ok true, <[reassign_path := Doc doc]> store, [LogReallocating doc])) /\
     (is_Some (store !! reassign_path) ->
        submit_reassignment int_of_str input store =
          (Ok false, store, [LogWaitingForSlot]))) /\
  ((forall ns, ~ Forall2 (numbers_of int_of_str) triples ns) ->
     exists e, submit_reassignment int_of_str input store = (Raise e, store, [])).
Proof.
  intros triples.
  assert (Hlist :
    submit_reassignment int_of_str input store =
    reallocate_partitions int_of_str triples store).
  { subst triples. destruct input as [[[topic partition] replicas]|ts]; simpl.
    - apply reallocate_partition_is_singleton.
    - done. }
  rewrite Hlist. unfold reallocate_partitions. split.
  - intros ns Hns. rewrite (partition_entries_numbers _ _ Hns).
    split.
    + intros Hnone Hparent. by apply submit_absent.
    + apply submit_existing.
  - intros Hnone.
    destruct (partition_entries int_of_str triples) as [entries|e] eqn:He.
    + destruct (partition_entries_accepts _ _ He) as [ns Hns].
      by destruct (Hnone ns).
    + by exists e.
Qed.

End Int.

Lemma reallocate_partition_singleton_witness :
  reallocate_partition sample_int_of_str "t" (PyStr "3") [PyInt 1; PyStr "2"]
    (<[reassign_path := Doc sample_doc]> {["/admin" := NoData]}) =
    (Ok false, <[reassign_path := Doc sample_doc]> {["/admin" := NoData]},
     [LogWaitingForSlot]) /\
  reallocate_partition sample_int_of_str "t" (PyStr "3") [PyInt 1; PyStr "2"]
    {["/admin" := NoData]} =
    (Ok true,
     <[reassign_path :=
         Doc (JObj [("version", JStr "1");
                    ("partitions",
                     JList [JObj [("topic", JStr "t"); ("partition", JInt 3);
                                  ("replicas", JList [JInt 1; JInt 2])]])])]>
       {["/admin" := NoData]},
     [LogReallocating
        (JObj [("version", JStr "1");
               ("partitions",
                JList [JObj [("topic", JStr "t"); ("partition", JInt 3);
                             ("replicas", JList [JInt 1; JInt 2])]])])]).
Proof.
  assert (Hp : converts sample_int_of_str (PyStr "3") 3) by reflexivity.
  assert (Hrs : Forall2 (converts sample_int_of_str)
                  [PyInt 1; PyStr "2"] [1; 2]).
  { repeat constructor. }
  pose proof (reallocate_partition_singleton sample_int_of_str
                "t" (PyStr "3") [PyInt 1; PyStr "2"] 3 [1; 2]) as H.
  split.
  - apply (H (<[reassign_path := Doc sample_doc]> {["/admin" := NoData]})
             Hp Hrs).
    rewrite lookup_insert_eq. by eexists.
  - apply (H {["/admin" := NoData]} Hp Hrs); reflexivity.
Defined.

(** C2 (the claim as stated, at a store that holds what the supervisor
    itself creates and no [/admin] yet): the node is absent, and the
    call neither creates it nor returns true; it raises
    [NoNodeError]. *)
Lemma reallocate_partition_singleton_counterexample :
  let store : Store := {["/bubuku" := NoData; "/bubuku/changes" := NoData]} in
  store !! reassign_path = None /\
  reallocate_partition sample_int_of_str "t" (PyInt 3) [PyInt 1; PyInt 2] store =
    (Raise NoNodeError, store, []).
Proof. split; vm_compute; reflexivity. Qed.

Lemma submit_reassignment_wire_json_witness :
  submit_reassignment sample_int_of_str
    (Single ("t", PyStr "3", [PyInt 1; PyStr "2"])) {["/admin" := NoData]} =
    (Ok true,
     <[reassign_path :=
         Doc (JObj [("version", JStr "1");
                    ("partitions",
                     JList [JObj [("topic", JStr "t"); ("partition", JInt 3);
                                  ("replicas", JList [JInt 1; JInt 2])]])])]>
       {["/admin" := NoData]},
     [LogReallocating
        (JObj [("version", JStr "1");
               ("partitions",
                JList [JObj [("topic", JStr "t"); ("partition", JInt 3);
                             ("replicas", JList [JInt 1; JInt 2])]])])]) /\
  submit_reassignment sample_int_of_str (Many sample_plan)
    {["/admin" := NoData]} =
    (Ok true,
     <[reassign_path :=
         Doc (JObj [("version", JStr "1");
                    ("partitions",
                     JList [JObj [("topic", JStr "t"); ("partition", JInt 3);
                                  ("replicas", JList [JInt 1; JInt 2])];
                            JObj [("topic", JStr "u"); ("partition", JInt 0);
                                  ("replicas", JList [JInt 1])]])])]>
       {["/admin" := NoData]},
     [LogReallocating
        (JObj [("version", JStr "1");
               ("partitions",
                JList [JObj [("topic", JStr "t"); ("partition", JInt 3);
                             ("replicas", JList [JInt 1; JInt 2])];
                       JObj [("topic", JStr "u"); ("partition", JInt 0);
                             ("replicas", JList [JInt 1])]])])]).
Proof.
  split.
  - apply (proj1 (submit_reassignment_wire_json sample_int_of_str
                    (Single ("t", PyStr "3", [PyInt 1; PyStr "2"]))
                    {["/admin" := NoData]}) [(3, [1; 2])]).
    + repeat constructor.
    + reflexivity.
    + reflexivity.
  - apply (proj1 (submit_reassignment_wire_json sample_int_of_str
                    (Many sample_plan) {["/admin" := NoData]})
             [(3, [1; 2]); (0, [1])]).
    + repeat constructor.
    + reflexivity.
    + reflexivity.
Defined.

End ZookeeperSpec.

(** ** swap_partitions.py: candidates and the best swap *)

Module SwapPartitionsSpec.
Import Zookeeper SwapPartitions SwapPartitionsSamples.

(** *** The sort *)

Lemma insert_by_size_desc_perm tp l : insert_by_size_desc tp l ≡ₚ tp :: l.
Proof.
  induction l as [|x l IH]; simpl; [done|].
  destruct (size x <=? size tp); [done|].
  rewrite IH. apply Permutation_swap.
Qed.

Lemma sort_by_size_desc_perm l : sort_by_size_desc l ≡ₚ l.
Proof.
  induction l as [|x l IH]; simpl; [done|].
  unfold sort_by_size_desc in *. simpl.
  by rewrite insert_by_size_desc_perm, IH.
Qed.

Lemma elem_of_sort_by_size_desc tp l : tp ∈ sort_by_size_desc l <-> tp ∈ l.
Proof. by rewrite sort_by_size_desc_perm. Qed.

Lemma insert_by_size_desc_descending tp l :
  descending l -> descending (insert_by_size_desc tp l).
Proof.
  induction l as [|x l IH]; simpl; [by split|].
  intros [Hx Hl]. destruct (size x <=? size tp) eqn:E; simpl.
  - apply Z.leb_le in E. split; [|by split].
    constructor; [done|].
    eapply Forall_impl; [exact Hx|]. simpl. intros. lia.
  - apply Z.leb_gt in E. split; [|by apply IH].
    rewrite insert_by_size_desc_perm. constructor; [lia|done].
Qed.

Lemma sort_by_size_desc_descending l : descending (sort_by_size_desc l).
Proof.
  induction l as [|x l IH]; simpl; [done|].
  by apply insert_by_size_desc_descending.
Qed.

(** *** The selection loop *)

Section Loop.

Variables g s : Z.

(** Either the loop never improved on [sm] and kept [m], or it ends on
    a candidate strictly below [sm] that no candidate beats. *)
Lemma best_loop_spec cands :
  forall sm m,
    (best_loop g s cands sm m = m /\
     forall c, c ∈ cands -> sm <= new_gap g s c) \/
    (exists f,
       best_loop g s cands sm m = Some f /\ f ∈ cands /\
       new_gap g s f < sm /\
       forall c, c ∈ cands -> new_gap g s f <= new_gap g s c).
Proof.
  induction cands as [|tp cands IH]; intros sm m; simpl.
  - left. split; [done|]. intros c Hc. by apply not_elem_of_nil in Hc.
  - destruct (new_gap g s tp <? sm) eqn:E.
    + apply Z.ltb_lt in E. right.
      destruct (IH (new_gap g s tp) (Some tp)) as [[Hr Hmin]|(f & Hr & Hin & Hlt & Hmin)].
      * exists tp. split; [done|]. split; [by left|]. split; [done|].
        intros c [-> | Hc]%elem_of_cons; [lia|by apply Hmin].
      * exists f. split; [done|]. split; [by right|]. split; [lia|].
        intros c [-> | Hc]%elem_of_cons; [lia|by apply Hmin].
    + apply Z.ltb_ge in E.
      destruct (IH sm m) as [[Hr Hmin]|(f & Hr & Hin & Hlt & Hmin)].
      * left. split; [done|].
        intros c [-> | Hc]%elem_of_cons; [lia|by apply Hmin].
      * right. exists f. split; [done|]. split; [by right|]. split; [done|].
        intros c [-> | Hc]%elem_of_cons; [lia|by apply Hmin].
Qed.

Lemma find_best_spec cands :
  (__find_best_swap_candidate cands g s = None /\
   forall c, c ∈ cands -> g <= new_gap g s c) \/
  (exists f,
     __find_best_swap_candidate cands g s = Some f /\ f ∈ cands /\
     new_gap g s f < g /\
     forall c, c ∈ cands -> new_gap g s f <= new_gap g s c).
Proof.
  unfold __find_best_swap_candidate.
  destruct (best_loop_spec (sort_by_size_desc cands) g None)
    as [[Hr Hmin]|(f & Hr & Hin & Hlt & Hmin)].
  - left. split; [done|]. intros c Hc.
    by apply Hmin, elem_of_sort_by_size_desc.
  - right. exists f. split; [done|].
    split; [by apply elem_of_sort_by_size_desc|]. split; [done|].
    intros c Hc. by apply Hmin, elem_of_sort_by_size_desc.
Qed.

End Loop.

Lemma new_gap_nonneg g s tp : 0 <= new_gap g s tp.
Proof. unfold new_gap. lia. Qed.

(** *** The candidate dictionary *)

Lemma entry_in_empty b tp : ~ entry_in ∅ b tp.
Proof. intros (l & Hl & _). by rewrite lookup_empty in Hl. Qed.

Lemma entry_in_append k v d b tp :
  entry_in (append_candidate k v d) b tp <->
  entry_in d b tp \/ (b = k /\ tp = v).
Proof.
  unfold entry_in, append_candidate. destruct (decide (k = b)) as [->|Hne].
  - rewrite lookup_insert_eq. split.
    + intros (l & [= <-] & Hin). apply elem_of_app in Hin as [Hin|Hin].
      * left. destruct (d !! b) as [l0|]; simpl in Hin.
        -- by exists l0.
        -- by apply not_elem_of_nil in Hin.
      * right. by apply list_elem_of_singleton in Hin.
    + intros [(l & Hl & Hin)|[_ ->]]; eexists; (split; [done|]).
      * rewrite Hl. simpl. apply elem_of_app. by left.
      * apply elem_of_app. right. by apply list_elem_of_singleton.
  - rewrite lookup_insert_ne by done. split; [by left|].
    intros [H|[-> _]]; [done|congruence].
Qed.

Lemma entry_in_candidate_step fat slim topics_stats d item b tp :
  entry_in (candidate_step fat slim topics_stats d item) b tp <->
  entry_in d b tp \/ selected fat slim topics_stats item b tp.
Proof.
  destruct item as [[t p] rs]. unfold candidate_step, selected. simpl.
  destruct (known_size topics_stats t p) as [sz|] eqn:Hsz.
  2:{ split; [by left|]. intros [H|(H & _)]; [done|discriminate]. }
  destruct (py_in fat rs && py_in slim rs) eqn:Hboth.
  { split; [by left|]. intros [H|(_ & _ & H & _)]; [done|discriminate]. }
  destruct (py_in slim rs) eqn:Hs, (py_in fat rs) eqn:Hf;
    try discriminate; rewrite ?entry_in_append; split.
  - intros [H|[-> ->]]; [by left|]. right. repeat split; auto.
  - intros [H|(Hk & -> & _ & [-> | ->] & Hb)]; [by left| |congruence].
    right. split; [done|]. f_equal. simpl in Hk. congruence.
  - intros [H|[-> ->]]; [by left|]. right. repeat split; auto.
  - intros [H|(Hk & -> & _ & [-> | ->] & Hb)]; [by left|congruence|].
    right. split; [done|]. f_equal. simpl in Hk. congruence.
  - by left.
  - intros [H|(_ & _ & _ & [-> | ->] & Hb)]; [done|congruence|congruence].
Qed.

Lemma entry_in_foldl fat slim topics_stats items :
  forall d b tp,
    entry_in (foldl (candidate_step fat slim topics_stats) d items) b tp <->
    entry_in d b tp \/
    exists item, item ∈ items /\ selected fat slim topics_stats item b tp.
Proof.
  induction items as [|item items IH]; intros d b tp; simpl.
  - split; [by left|]. intros [H|(item & Hin & _)]; [done|].
    by apply not_elem_of_nil in Hin.
  - rewrite IH, entry_in_candidate_step. split.
    + intros [[H|H]|(it & Hin & H)]; [by left| |].
      * right. exists item. split; [by left|done].
      * right. exists it. split; [by right|done].
    + intros [H|(it & [-> | Hin]%elem_of_cons & H)].
      * by left; left.
      * by left; right.
      * right. by exists it.
Qed.

(** A list in the dictionary is never empty: a broker without
    candidates has no key at all. *)
Lemma candidate_lists_nonempty fat slim topics_stats items :
  forall d b l,
    (forall b l, d !! b = Some l -> l <> []) ->
    foldl (candidate_step fat slim topics_stats) d items !! b = Some l ->
    l <> [].
Proof.
  assert (Happ : forall k v (d : gmap pyobj (list TpData)),
            (forall b l, d !! b = Some l -> l <> []) ->
            forall b l, append_candidate k v d !! b = Some l -> l <> []).
  { intros k v d Hd b l. unfold append_candidate.
    destruct (decide (k = b)) as [->|Hne].
    - rewrite lookup_insert_eq. intros [= <-].
      intros [_ ?]%app_eq_nil. discriminate.
    - rewrite lookup_insert_ne by done. apply Hd. }
  induction items as [|item items IH]; intros d b l Hd; simpl; [apply Hd|].
  apply IH. clear b l IH. destruct item as [[t p] rs].
  unfold candidate_step.
  destruct (known_size topics_stats t p); [|done].
  destruct (py_in fat rs && py_in slim rs); [done|]. simpl.
  destruct (py_in slim rs), (py_in fat rs); repeat apply Happ; exact Hd.
Qed.

Lemma is_candidate_iff zk fat slim topics_stats tp :
  is_candidate (__find_all_swap_candidates zk fat slim topics_stats) tp <->
  exists item b,
    item ∈ load_partition_assignment zk /\
    selected fat slim topics_stats item b tp.
Proof.
  unfold is_candidate, __find_all_swap_candidates. split.
  - intros (b & l & Hl & Hin).
    assert (He : entry_in
              (foldl (candidate_step fat slim topics_stats) ∅
                 (load_partition_assignment zk)) b tp) by by exists l.
    apply entry_in_foldl in He as [He|(item & Hitem & Hsel)].
    + by apply entry_in_empty in He.
    + by exists item, b.
  - intros (item & b & Hitem & Hsel).
    assert (He : entry_in
              (foldl (candidate_step fat slim topics_stats) ∅
                 (load_partition_assignment zk)) b tp).
    { apply entry_in_foldl. right. by exists item. }
    destruct He as (l & Hl & Hin). by exists b, l.
Qed.

Lemma selected_exactly_one fat slim topics_stats item tp :
  (exists b, selected fat slim topics_stats item b tp) <->
  known_size topics_stats item.1.1 item.1.2 = Some (size tp) /\
  tp = mkTpData item.1.1 item.1.2 (size tp) item.2 /\
  xorb (py_in fat item.2) (py_in slim item.2) = true.
Proof.
  unfold selected. split.
  - intros (b & Hk & Htp & Hboth & Hb & Hin). split; [done|]. split; [done|].
    destruct Hb as [-> | ->]; rewrite Hin in *;
      [destruct (py_in fat item.2)|destruct (py_in slim item.2)];
      simpl in *; congruence.
  - intros (Hk & Htp & Hx).
    destruct (py_in fat item.2) eqn:Hf, (py_in slim item.2) eqn:Hs;
      try discriminate.
    + exists fat. rewrite Hf. repeat split; auto.
    + exists slim. rewrite Hs. repeat split; auto.
Qed.

(** C6: a partition of the loaded assignment is put among the
    candidates exactly when its size is known in the merged stats and
    exactly one of the fat and the slim broker is among its replicas;
    nothing else is a candidate, each candidate is filed under the
    broker that holds it, and none has both brokers as replicas. *)
Theorem swap_candidates_exactly_one
    (zk : Zk) (fat slim : pyobj) (topics_stats : gmap string (gmap Z Z)) :
  let d := __find_all_swap_candidates zk fat slim topics_stats in
  (forall t p rs,
     (t, p, rs) ∈ load_partition_assignment zk ->
     ((exists sz, is_candidate d (mkTpData t p sz rs)) <->
      is_Some (known_size topics_stats t p) /\
      xorb (py_in fat rs) (py_in slim rs) = true)) /\
  (forall tp,
     is_candidate d tp ->
     (topic tp, partition tp, replicas tp) ∈ load_partition_assignment zk /\
     known_size topics_stats (topic tp) (partition tp) = Some (size tp) /\
     ~ (fat ∈ replicas tp /\ slim ∈ replicas tp)) /\
  (forall b l tp,
     d !! b = Some l -> tp ∈ l ->
     (b = slim \/ b = fat) /\ b ∈ replicas tp).
Proof.
  intros d. split; [|split].
  - intros t p rs Hitem. split.
    + intros (sz & Hc). apply is_candidate_iff in Hc as (item & b & Hin & Hsel).
      assert (He : exists b, selected fat slim topics_stats item b
                                (mkTpData t p sz rs)) by by exists b.
      apply selected_exactly_one in He as (Hk & Htp & Hx). simpl in *.
      injection Htp as -> -> ->. split; [by eexists|done].
    + intros ([sz Hk] & Hx). exists sz. apply is_candidate_iff.
      assert (He : exists b, selected fat slim topics_stats (t, p, rs) b
                                (mkTpData t p sz rs)).
      { apply selected_exactly_one. by repeat split. }
      destruct He as (b & Hsel). by exists (t, p, rs), b.
  - intros tp (item & b & Hin & Hsel)%is_candidate_iff.
    assert (He : exists b, selected fat slim topics_stats item b tp)
      by by exists b.
    apply selected_exactly_one in He as (Hk & Htp & Hx).
    destruct item as [[t p] rs]. simpl in *. rewrite Htp. simpl.
    split; [done|]. split; [done|].
    intros [Hf%PyFacts.py_in_spec Hs%PyFacts.py_in_spec].
    rewrite Hf, Hs in Hx. discriminate.
  - intros b l tp Hl Hin.
    assert (He : entry_in d b tp) by by exists l.
    apply entry_in_foldl in He as [He|(item & Hitem & Hsel)].
    + by apply entry_in_empty in He.
    + destruct Hsel as (_ & Htp & _ & Hb & Hpy). split; [done|].
      rewrite Htp. simpl. by apply PyFacts.py_in_spec.
Qed.

(** *** run *)

Section Run.

Variable int_of_str : string -> option Z.

(** No slim candidate means no key for the slim broker, and the lookup
    that feeds [min] raises before anything is logged. *)
Lemma run_without_slim_candidates self current_actions zk :
  should_be_cancelled self current_actions = false ->
  plan_truthy (to_move self) = None ->
  (forall tp, ~ entry_in (candidates_of self zk) (slim_broker_id self) tp) ->
  run int_of_str self current_actions zk = (Raise KeyError, self, zk, []).
Proof.
  intros Hc Hp Hnone. unfold run. rewrite Hc, Hp.
  fold (candidates_of self zk).
  destruct (candidates_of self zk !! slim_broker_id self) as [l|] eqn:Hl;
    [|done].
  exfalso. destruct l as [|tp l].
  - eapply candidate_lists_nonempty; [|exact Hl|done].
    intros b l. by rewrite lookup_empty.
  - apply (Hnone tp). exists (tp :: l). split; [done|by left].
Qed.

(** The message about the slim broker sits behind a truth test on a
    four-field tuple: no run ever logs it. *)
Lemma run_never_logs_no_slim self current_actions zk slim :
  LogNoPartitionsOnSlim slim ∉ (run int_of_str self current_actions zk).2.
Proof.
  assert (Hswap : forall plan zk0,
            LogNoPartitionsOnSlim slim ∉ (__perform_swap int_of_str plan zk0).2).
  { intros plan zk0. unfold __perform_swap.
    destruct (reallocate_partitions _ _ _) as [[r st] lg]. simpl.
    intros [?|(x & ? & _)%list_elem_of_fmap]%elem_of_cons; discriminate. }
  unfold run.
  destruct (should_be_cancelled self current_actions).
  { simpl. intros ?%list_elem_of_singleton. discriminate. }
  destruct (plan_truthy (to_move self)) as [plan|].
  { specialize (Hswap plan zk).
    by destruct (__perform_swap int_of_str plan zk) as [[r zk'] lg]. }
  destruct (_ !! slim_broker_id self) as [sl|]; [|apply not_elem_of_nil].
  destruct (min_by_size sl) as [sm|]; [|apply not_elem_of_nil].
  destruct (_ !! fat_broker_id self) as [fl|]; simpl.
  2:{ intros ?%list_elem_of_singleton. discriminate. }
  destruct (__find_best_swap_candidate fl _ _) as [m|]; simpl.
  2:{ intros [?|[?|?%not_elem_of_nil]%elem_of_cons]%elem_of_cons;
        [discriminate|discriminate|done]. }
  match goal with |- context [__perform_swap _ ?pl ?z] =>
    specialize (Hswap pl z);
    destruct (__perform_swap int_of_str pl z) as [[r zk'] lg] end.
  simpl in Hswap. destruct r as [b|e]; simpl.
  - intros [?|[?|Hin]%elem_of_app]%elem_of_cons; [discriminate|done|].
    apply list_elem_of_singleton in Hin. by destruct b.
  - intros [?|?]%elem_of_cons; [discriminate|done].
Qed.

Lemma run_cancels_without_improvement self current_actions zk
    slim_l fat_l smallest :
  should_be_cancelled self current_actions = false ->
  plan_truthy (to_move self) = None ->
  candidates_of self zk !! slim_broker_id self = Some slim_l ->
  min_by_size slim_l = Ok smallest ->
  candidates_of self zk !! fat_broker_id self = Some fat_l ->
  __find_best_swap_candidate fat_l (gap self) (size smallest) = None ->
  run int_of_str self current_actions zk =
    (Ok false, self, zk,
     [LogSlimPartition (slim_broker_id self) smallest;
      LogNoCandidateFromFat (fat_broker_id self)]).
Proof.
  intros Hc Hp Hs Hm Hf Hb. unfold run. rewrite Hc, Hp.
  fold (candidates_of self zk). by rewrite Hs, Hm, Hf, Hb.
Qed.

End Run.

(** No fat candidate means no key for the fat broker either: the run
    has logged the slim partition and raises at the second lookup,
    before the selection is called. *)
Lemma run_without_fat_candidates
    int_of_str self current_actions zk slim_l smallest :
  should_be_cancelled self current_actions = false ->
  plan_truthy (to_move self) = None ->
  candidates_of self zk !! slim_broker_id self = Some slim_l ->
  min_by_size slim_l = Ok smallest ->
  (forall tp, ~ entry_in (candidates_of self zk) (fat_broker_id self) tp) ->
  run int_of_str self current_actions zk =
    (Raise KeyError, self, zk,
     [LogSlimPartition (slim_broker_id self) smallest]).
Proof.
  intros Hc Hp Hs Hm Hnone. unfold run. rewrite Hc, Hp.
  fold (candidates_of self zk). rewrite Hs, Hm.
  destruct (candidates_of self zk !! fat_broker_id self) as [l|] eqn:Hl;
    [|done].
  exfalso. destruct l as [|tp l].
  - eapply candidate_lists_nonempty; [|exact Hl|done].
    intros b l. by rewrite lookup_empty.
  - apply (Hnone tp). exists (tp :: l). split; [done|by left].
Qed.

(** Whatever the candidates, the gap and the slim size, a returned
    candidate is one of the candidates, brings the gap strictly below
    the current one and is beaten by no other candidate; a candidate is
    returned whenever one is strictly below the gap; when none is, the
    selection returns nothing and a run that called it on the list of
    the fat broker returns false (done) without touching the store or
    its plan. *)
Theorem best_swap_candidate
    (candidates : list TpData) (g s : Z) :
  (forall f,
     __find_best_swap_candidate candidates g s = Some f ->
     f ∈ candidates /\
     Z.abs (g - 2 * Z.abs (size f - s)) < g /\
     forall c, c ∈ candidates ->
       Z.abs (g - 2 * Z.abs (size f - s)) <= Z.abs (g - 2 * Z.abs (size c - s))) /\
  ((exists c, c ∈ candidates /\ Z.abs (g - 2 * Z.abs (size c - s)) < g) ->
     is_Some (__find_best_swap_candidate candidates g s)) /\
  ((forall c, c ∈ candidates -> ~ Z.abs (g - 2 * Z.abs (size c - s)) < g) ->
     __find_best_swap_candidate candidates g s = None /\
     forall int_of_str self current_actions zk slim_l smallest,
       should_be_cancelled self current_actions = false ->
       plan_truthy (to_move self) = None ->
       candidates_of self zk !! slim_broker_id self = Some slim_l ->
       min_by_size slim_l = Ok smallest ->
       candidates_of self zk !! fat_broker_id self = Some candidates ->
       gap self = g -> size smallest = s ->
       run int_of_str self current_actions zk =
         (Ok false, self, zk,
          [LogSlimPartition (slim_broker_id self) smallest;
           LogNoCandidateFromFat (fat_broker_id self)])).
Proof.
  fold (new_gap g s).
  destruct (find_best_spec g s candidates)
    as [[Hr Hmin]|(f & Hr & Hin & Hlt & Hmin)].
  - split; [|split].
    + intros f Hf. congruence.
    + intros (c & Hc & Hlt). specialize (Hmin c Hc). unfold new_gap in Hmin. lia.
    + intros _. split; [done|].
      intros int_of_str self acts zk slim_l smallest Hc Hp Hs Hm Hf <- <-.
      by eapply run_cancels_without_improvement.
  - split; [|split].
    + intros f' Hf'. rewrite Hr in Hf'. injection Hf' as <-.
      split; [done|]. split; [exact Hlt|]. intros c Hc. by apply Hmin.
    + intros _. rewrite Hr. by eexists.
    + intros Hno. exfalso. by apply (Hno f Hin).
Qed.

(** *** Sample runs *)

Lemma best_swap_candidate_witness :
  U0 ∈ [U2; U0; U1] /\
  Z.abs (100 - 2 * Z.abs (size U0 - 10)) < 100 /\
  forall c, c ∈ [U2; U0; U1] ->
    Z.abs (100 - 2 * Z.abs (size U0 - 10))
    <= Z.abs (100 - 2 * Z.abs (size c - 10)).
Proof.
  apply (proj1 (best_swap_candidate [U2; U0; U1] 100 10) U0).
  vm_compute. reflexivity.
Defined.

(** C4 (the code at the failing input): the slim broker has a
    candidate, the fat broker has none, so no candidate brings the gap
    down; the run does not cancel: after logging the slim partition the
    lookup of the fat broker's list raises [KeyError], and the
    selection is never called. *)
Theorem run_raises_without_fat_candidates :
  candidates_of change_slim_only zk_slim_only !! fat1 = None /\
  candidates_of change_slim_only zk_slim_only !! slim2 =
    Some [mkTpData "T" 0 10 [slim2]] /\
  run no_int_of_str change_slim_only [] zk_slim_only =
    (Raise KeyError, change_slim_only, zk_slim_only,
     [LogSlimPartition slim2 (mkTpData "T" 0 10 [slim2])]).
Proof. vm_compute. repeat split; reflexivity. Qed.

(** C5 (the code at the failing input): the slim broker has no
    candidate, and [run] does not return: the lookup of the slim
    broker's list raises [KeyError] before anything is logged. *)
Theorem run_raises_without_slim_candidates :
  candidates_of change_fat_only zk_fat_only !! slim2 = None /\
  (run no_int_of_str change_fat_only [] zk_fat_only).1.1.1 = Raise KeyError /\
  (run no_int_of_str change_fat_only [] zk_fat_only).2 = [].
Proof. vm_compute. repeat split; reflexivity. Qed.

Lemma swap_candidates_exactly_one_witness :
  (exists sz,
     is_candidate
       (__find_all_swap_candidates zk_both fat1 slim2 (merge_stats stats_both))
       (mkTpData "t" 0 sz [fat1; PyInt 3])) <->
  is_Some (known_size (merge_stats stats_both) "t" 0) /\
  xorb (py_in fat1 [fat1; PyInt 3]) (py_in slim2 [fat1; PyInt 3]) = true.
Proof.
  apply (proj1 (swap_candidates_exactly_one zk_both fat1 slim2
                  (merge_stats stats_both)) "t" 0 [fat1; PyInt 3]).
  simpl. left.
Defined.

(** Scenario: gap 100, smallest slim partition of size 10, fat
    candidates of sizes 60, 55 and 40 give new gaps 0, 10 and 40. *)
Example best_swap_picks_U0 :
  __find_best_swap_candidate [U0; U1; U2] 100 10 = Some U0 /\
  new_gap 100 10 <$> [U0; U1; U2] = [0; 10; 40].
Proof. split; reflexivity. Qed.

(** Scenario: every fat candidate as large as the slim one, no swap. *)
Example no_beneficial_swap :
  __find_best_swap_candidate
    [mkTpData "V" 0 50 [fat1]; mkTpData "V" 1 50 [fat1]] 100 50 = None.
Proof. reflexivity. Qed.

(** The same through [run]: the change is done, nothing is planned and
    the store is not written. *)
Example run_cancels_without_beneficial_swap :
  run no_int_of_str (mkSwap fat1 slim2 100 stats_even None (fun _ => false))
    [] zk_even =
  (Ok false, mkSwap fat1 slim2 100 stats_even None (fun _ => false), zk_even,
   [LogSlimPartition slim2 (mkTpData "T" 0 50 [slim2]);
    LogNoCandidateFromFat fat1]).
Proof.
  eapply run_cancels_without_improvement; vm_compute; reflexivity.
Qed.

(** The whole first call of [run] on the scenario with sizes 60, 55
    and 40: T/0 goes to the fat broker, U/0 to the slim one, the plan
    is kept and submitted. *)
Example run_schedules_swap :
  let res := run no_int_of_str
               (mkSwap fat1 slim2 100 stats_swap None (fun _ => false))
               [] zk_swap in
  res.1.1.1 = Ok false /\
  to_move res.1.1.2 = Some [("T", 0, [fat1]); ("U", 0, [slim2])] /\
  nodes res.1.2 !! reassign_path =
    Some (Doc (wire [JObj [("topic", JStr "T"); ("partition", JInt 0);
                           ("replicas", JList [JInt 1])];
                     JObj [("topic", JStr "U"); ("partition", JInt 0);
                           ("replicas", JList [JInt 2])]])).
Proof. vm_compute. repeat split; reflexivity. Qed.

Example candidates_of_zk_both :
  __find_all_swap_candidates zk_both fat1 slim2 (merge_stats stats_both) !! fat1
    = Some [mkTpData "t" 0 10 [fat1; PyInt 3]] /\
  __find_all_swap_candidates zk_both fat1 slim2 (merge_stats stats_both) !! slim2
    = Some [mkTpData "t" 1 20 [slim2; PyInt 3]].
Proof. vm_compute. split; reflexivity. Qed.

End SwapPartitionsSpec.

(** ** controller.py: checks and the make-step cycle *)

Module ControllerSpec.
Import Controller ControllerSamples.

(** *** Check cadence *)

Lemma check_if_time_cases self clock ticks :
  (due (__last_check_timestamp_s self) (check_interval_s self) (clock ticks) /\
   check_if_time self clock ticks =
     (check self,
      mkCheck (check_interval_s self) (clock (S ticks)) (check self),
      S (S ticks),
      [TimeRead (clock ticks); TimeRead (clock (S ticks));
       SetTimestamp (clock (S ticks));
       CallCheck (mkCheck (check_interval_s self) (clock (S ticks))
                    (check self))])) \/
  (~ due (__last_check_timestamp_s self) (check_interval_s self) (clock ticks) /\
   check_if_time self clock ticks = (Ok None, self, S ticks, [TimeRead (clock ticks)])).
Proof.
  unfold check_if_time, time_till_check, due.
  destruct (_ <=? 0)%float eqn:E.
  - by left.
  - right. by split.
Qed.








(** *** The make-step cycle *)

Lemma bind_run {A B} (m : M A) (f : A -> M B) (w : World) :
  (m ≫= f) w =
  match m w with
  | (Ok a, w1, tr1) => let '(r, w2, tr2) := f a w1 in (r, w2, tr1 ++ tr2)
  | (Raise e, w1, tr1) => (Raise e, w1, tr1)
  end.
Proof. reflexivity. Qed.

Section Hoare.

(** Events allowed and a property of the world that is kept. *)
Variable P : event -> Prop.
Variable Inv : World -> Prop.

Lemma keeps_ret {A} (a : A) : keeps P Inv (mret a).
Proof. intros w Hw. by split. Qed.

Lemma keeps_raise {A} e : keeps P Inv (@raise A e).
Proof. intros w Hw. by split. Qed.

Lemma keeps_emit e : P e -> keeps P Inv (emit e).
Proof. intros He w Hw. split; [by repeat constructor|done]. Qed.

Lemma keeps_modify g : (forall w, Inv w -> Inv (g w)) -> keeps P Inv (modify g).
Proof. intros Hg w Hw. split; [constructor|by apply Hg]. Qed.

Lemma keeps_bind {A B} (m : M A) (f : A -> M B) :
  keeps P Inv m -> (forall a, keeps P Inv (f a)) -> keeps P Inv (m ≫= f).
Proof.
  intros Hm Hf w Hw. rewrite bind_run.
  destruct (Hm w Hw) as [Htr Hinv].
  destruct (m w) as [[[a|e] w1] tr1]; simpl in *; [|by split].
  destruct (Hf a w1 Hinv) as [Htr2 Hinv2].
  destruct (f a w1) as [[r w2] tr2]. simpl in *.
  split; [by apply Forall_app|done].
Qed.

Lemma keeps_get_world {B} (k : World -> M B) :
  (forall w, Inv w -> Forall P (k w w).2 /\ Inv (k w w).1.2) ->
  keeps P Inv (get_world ≫= k).
Proof.
  intros Hk w Hw. rewrite bind_run. simpl.
  destruct (Hk w Hw) as [Htr Hinv].
  by destruct (k w w) as [[r w2] tr2].
Qed.

Lemma keeps_with_lock {A} data (m : M A) :
  P (TakeLock data) -> P ReleaseLock -> keeps P Inv m -> keeps P Inv (with_lock data m).
Proof.
  intros Ht Hr Hm w Hw. unfold with_lock.
  destruct (Hm w Hw) as [Htr Hinv].
  destruct (m w) as [[r w1] tr]. simpl in *. split; [|done].
  constructor; [done|]. apply Forall_app. split; [done|by repeat constructor].
Qed.

Lemma keeps_for_each {A} (body : A -> M unit) l :
  (forall x, keeps P Inv (body x)) -> keeps P Inv (for_each body l).
Proof.
  intros Hb. induction l as [|x l IH]; simpl.
  - apply keeps_ret.
  - apply keeps_bind; [apply Hb|by intros _].
Qed.

Lemma keeps_get_world_any {B} (k : World -> M B) :
  (forall w0, keeps P Inv (k w0)) -> keeps P Inv (get_world ≫= k).
Proof. intros Hk. apply keeps_get_world. intros w Hw. by apply Hk. Qed.

(** The invariants used below only look at the running flag. *)
Hypothesis Inv_running :
  forall w w', running w' = running w -> Inv w -> Inv w'.

Lemma keeps_set_changes f : keeps P Inv (modify (fun w => set_changes w (f w))).
Proof. apply keeps_modify. intros w. by apply Inv_running. Qed.

Lemma keeps_set_registry f : keeps P Inv (modify (fun w => set_registry w (f w))).
Proof. apply keeps_modify. intros w. by apply Inv_running. Qed.

Lemma keeps_add_change_to_queue change : keeps P Inv (_add_change_to_queue change).
Proof.
  destruct change as [c|]; simpl; [apply keeps_set_changes|apply keeps_ret].
Qed.

Lemma keeps_probe todo :
  (forall t, P (TimeRead t)) -> (forall t, P (SetTimestamp t)) ->
  (forall c, P (CallCheck c)) ->
  forall done, keeps P Inv (probe done todo).
Proof.
  intros Ht Hs Hc. induction todo as [|c todo IH]; intros done; simpl.
  - apply keeps_ret.
  - apply keeps_get_world_any. intros w0.
    destruct (check_if_time_cases c (clock w0) (ticks w0)) as [[_ ->]|[_ ->]].
    + apply keeps_bind.
      * intros w Hw. simpl. split; [by repeat constructor|].
        by apply (Inv_running w).
      * intros _. destruct (check c) as [change|e]; [|apply keeps_raise].
        apply keeps_bind; [apply keeps_add_change_to_queue|]. intros _. apply IH.
    + apply keeps_bind.
      * intros w Hw. simpl. split; [by repeat constructor|].
        by apply (Inv_running w).
      * intros _.
        apply keeps_bind; [apply keeps_add_change_to_queue|]. intros _. apply IH.
Qed.

Lemma keeps_register_change name ip :
  P (RegisterChange name ip) -> keeps P Inv (register_change name ip).
Proof.
  intros Hp. apply keeps_get_world_any. intros w0.
  destruct (dict_get name (registry w0)); [apply keeps_raise|].
  apply keeps_bind; [apply keeps_set_registry|]. intros _. by apply keeps_emit.
Qed.

Lemma keeps_unregister_change name :
  P (UnregisterChange name) -> keeps P Inv (unregister_change name).
Proof.
  intros Hp. unfold unregister_change.
  apply keeps_bind; [|intros _; by apply keeps_emit].
  apply keeps_modify. intros w Hw. by apply (Inv_running w).
Qed.

Lemma keeps_register_loop provider_id items :
  (forall n p, P (RegisterChange n p)) -> (forall c peers, P (CallCanRun c peers)) ->
  forall running_changes, keeps P Inv (register_loop provider_id items running_changes).
Proof.
  intros Hr Hc. induction items as [|[name [|first queue]] items IH];
    intros rc; simpl.
  - apply keeps_ret.
  - apply keeps_raise.
  - apply keeps_bind; [by apply keeps_emit|]. intros _.
    destruct (can_run first _); [|apply IH].
    destruct (dict_get name rc); [apply IH|].
    apply keeps_bind; [by apply keeps_register_change|]. intros _. apply IH.
Qed.

Lemma keeps_register_running_changes provider_id :
  (forall d, P (TakeLock d)) -> P ReleaseLock -> P GetRunningChanges ->
  (forall n p, P (RegisterChange n p)) -> (forall c peers, P (CallCanRun c peers)) ->
  keeps P Inv (_register_running_changes provider_id).
Proof.
  intros Ht Hrel Hg Hr Hc. apply keeps_get_world_any. intros w0.
  destruct (changes w0); [apply keeps_ret|].
  apply keeps_with_lock; [done|done|].
  apply keeps_bind.
  - apply keeps_get_world_any. intros w1.
    apply keeps_bind; [by apply keeps_emit|]. intros _. apply keeps_ret.
  - intros rc. by apply keeps_register_loop.
Qed.

Lemma keeps_remove_head name :
  (forall c, P (CallOnRemove c)) -> keeps P Inv (remove_head name).
Proof.
  intros Hp. apply keeps_get_world_any. intros w0.
  destruct (dict_get name (changes w0)) as [[|removed queue]|];
    [apply keeps_raise| |apply keeps_raise].
  apply keeps_bind; [|intros _; by apply keeps_emit].
  apply keeps_modify. intros w. by apply Inv_running.
Qed.

Lemma keeps_release_changes_lock changes_to_remove :
  (forall d, P (TakeLock d)) -> P ReleaseLock ->
  (forall c, P (CallOnRemove c)) -> (forall n, P (UnregisterChange n)) ->
  keeps P Inv (_release_changes_lock changes_to_remove).
Proof.
  intros Ht Hrel Ho Hu. destruct changes_to_remove as [|x l]; simpl.
  - apply keeps_ret.
  - apply keeps_bind.
    + apply keeps_bind; [by apply keeps_remove_head|]. intros _.
      apply keeps_for_each. intros y. by apply keeps_remove_head.
    + intros _. apply keeps_with_lock; [done|done|].
      apply keeps_bind; [by apply keeps_unregister_change|]. intros _.
      apply keeps_for_each. intros y. by apply keeps_unregister_change.
Qed.

End Hoare.

(** *** No changes, no lock *)

(** C7: a make-step that starts with an empty change map never takes
    the global lock, whatever the checks do during the step. *)
Theorem no_changes_no_lock (provider_id : string) (w : World) :
  changes w = [] ->
  forall lock_data, TakeLock lock_data ∉ (make_step provider_id w).2.
Proof.
  intros Hempty lock_data Hin.
  assert (Hstep : Forall not_a_lock (make_step provider_id w).2).
  { unfold make_step. rewrite bind_run.
    unfold _register_running_changes at 1. rewrite bind_run. simpl.
    rewrite Hempty. simpl. rewrite bind_run.
    unfold _run_changes at 1. rewrite bind_run. simpl.
    rewrite Hempty. simpl. rewrite bind_run. simpl.
    rewrite bind_run. simpl.
    destruct (running w); [|constructor].
    pose proof (keeps_probe not_a_lock (fun _ => True) (fun _ _ _ _ => I)
                  (checks w) (fun _ => eq_refl) (fun _ => eq_refl)
                  (fun _ => eq_refl) [] w I) as [Hp _].
    by destruct (probe [] (checks w) w) as [[r w'] tr]. }
  rewrite Forall_forall in Hstep. by specialize (Hstep _ Hin).
Qed.

Lemma no_changes_no_lock_witness :
  TakeLock (Some "1.1.1.1") ∉ (make_step "1.1.1.1" idle_world).2.
Proof. apply (no_changes_no_lock "1.1.1.1" idle_world). reflexivity. Defined.

(** *** Stopping *)

Lemma stopped_running w w' : running w' = running w -> stopped w -> stopped w'.
Proof. unfold stopped. congruence. Qed.

(** One turn of the loop of [_run_changes]. *)
Lemma run_loop_cons provider_id b name queue items running_changes acc w :
  run_loop provider_id b ((name, queue) :: items) running_changes acc w =
  if bool_decide (dict_get name running_changes = Some provider_id) then
    match queue with
    | [] => (Raise IndexError, w, [])
    | change :: _ =>
        let peers := _exclude_self provider_id (get_name change) running_changes in
        if b || can_run_at_exit change then
          let res :=
            run_loop provider_id b items running_changes
              (match run change peers with
               | Ok true => acc
               | _ => acc ++ [get_name change]
               end) w in
          (res.1, CallRun change peers :: res.2)
        else
          let res :=
            run_loop provider_id b items running_changes
              (acc ++ [get_name change]) w in
          (res.1, ForcedToStop change :: res.2)
    end
  else run_loop provider_id b items running_changes acc w.
Proof.
  simpl. case_bool_decide; [|done]. destruct queue as [|change queue]; [done|].
  destruct (b || can_run_at_exit change); rewrite bind_run; simpl.
  - by destruct (run change _) as [[|]|];
      destruct (run_loop _ _ _ _ _ _) as [[r w'] tr].
  - by destruct (run_loop _ _ _ _ _ _) as [[r w'] tr].
Qed.

Lemma run_loop_world provider_id b running_changes items :
  forall acc w, (run_loop provider_id b items running_changes acc w).1.2 = w.
Proof.
  induction items as [|[name queue] items IH]; intros acc w; [done|].
  rewrite run_loop_cons. case_bool_decide; [|apply IH].
  destruct queue as [|change queue]; [done|]. simpl.
  destruct (b || can_run_at_exit change); simpl; apply IH.
Qed.

Lemma run_loop_runs_at_exit provider_id running_changes items :
  forall acc w,
    Forall runs_at_exit_only
      (run_loop provider_id false items running_changes acc w).2.
Proof.
  induction items as [|[name queue] items IH]; intros acc w; [constructor|].
  rewrite run_loop_cons. case_bool_decide; [|apply IH].
  destruct queue as [|change queue]; [constructor|]. simpl.
  destruct (can_run_at_exit change) eqn:Hexit; simpl.
  - constructor; [|apply IH]. by intros c peers [= <- _].
  - constructor; [|apply IH]. intros c peers ?. discriminate.
Qed.

Lemma run_loop_keeps_marked provider_id b running_changes items :
  forall acc w removed x,
    (run_loop provider_id b items running_changes acc w).1.1 = Ok removed ->
    x ∈ acc -> x ∈ removed.
Proof.
  induction items as [|[name queue] items IH]; intros acc w removed x.
  { simpl. by intros [= <-]. }
  rewrite run_loop_cons. case_bool_decide; [|apply IH].
  destruct queue as [|change queue]; [discriminate|]. simpl.
  destruct (b || can_run_at_exit change); simpl.
  - intros Hr Hx. eapply IH; [exact Hr|].
    destruct (run change _) as [[|]|]; [done| |];
      apply elem_of_app; by left.
  - intros Hr Hx. eapply IH; [exact Hr|]. apply elem_of_app. by left.
Qed.

Lemma run_loop_forced provider_id running_changes items :
  forall acc w removed name change queue,
    (run_loop provider_id false items running_changes acc w).1.1 = Ok removed ->
    (name, change :: queue) ∈ items ->
    dict_get name running_changes = Some provider_id ->
    can_run_at_exit change = false ->
    get_name change ∈ removed /\
    ForcedToStop change ∈
      (run_loop provider_id false items running_changes acc w).2.
Proof.
  induction items as [|[name0 queue0] items IH];
    intros acc w removed name change queue.
  { intros _ Hin. by apply not_elem_of_nil in Hin. }
  rewrite run_loop_cons.
  intros Hr [[= <- <-]|Hin]%elem_of_cons Hown Hexit.
  - rewrite bool_decide_eq_true_2 in * by done. simpl in *.
    rewrite Hexit in *. simpl in *. split; [|by left].
    eapply run_loop_keeps_marked; [exact Hr|].
    apply elem_of_app. right. by left.
  - case_bool_decide as Hown0.
    2:{ by eapply IH. }
    destruct queue0 as [|change0 queue0]; [discriminate|]. simpl in *.
    destruct (can_run_at_exit change0); simpl in *.
    + destruct (IH _ _ _ _ _ _ Hr Hin Hown Hexit) as [H1 H2].
      split; [done|by right].
    + destruct (IH _ _ _ _ _ _ Hr Hin Hown Hexit) as [H1 H2].
      split; [done|by right].
Qed.

Lemma run_loop_at_exit provider_id running_changes items :
  forall acc w removed name change queue,
    (run_loop provider_id false items running_changes acc w).1.1 = Ok removed ->
    (name, change :: queue) ∈ items ->
    dict_get name running_changes = Some provider_id ->
    can_run_at_exit change = true ->
    CallRun change (_exclude_self provider_id (get_name change) running_changes)
      ∈ (run_loop provider_id false items running_changes acc w).2 /\
    (run change (_exclude_self provider_id (get_name change) running_changes)
       <> Ok true -> get_name change ∈ removed).
Proof.
  induction items as [|[name0 queue0] items IH];
    intros acc w removed name change queue.
  { intros _ Hin. by apply not_elem_of_nil in Hin. }
  rewrite run_loop_cons.
  intros Hr [[= <- <-]|Hin]%elem_of_cons Hown Hexit.
  - rewrite bool_decide_eq_true_2 in * by done. simpl in *.
    rewrite Hexit in *. simpl in *. split; [by left|].
    intros Hdone. eapply run_loop_keeps_marked; [exact Hr|].
    destruct (run change _) as [[|]|]; [done| |];
      apply elem_of_app; right; by left.
  - case_bool_decide as Hown0.
    2:{ by eapply IH. }
    destruct queue0 as [|change0 queue0]; [discriminate|]. simpl in *.
    destruct (can_run_at_exit change0); simpl in *.
    + destruct (IH _ _ _ _ _ _ Hr Hin Hown Hexit) as [H1 H2].
      split; [by right|done].
    + destruct (IH _ _ _ _ _ _ Hr Hin Hown Hexit) as [H1 H2].
      split; [by right|done].
Qed.

Lemma run_loop_returns provider_id b running_changes items :
  forall acc w,
    (forall name queue, (name, queue) ∈ items -> queue <> []) ->
    is_ok (run_loop provider_id b items running_changes acc w).1.1 = true.
Proof.
  induction items as [|[name queue] items IH]; intros acc w Hall; [done|].
  assert (Hrest : forall n q, (n, q) ∈ items -> q <> []).
  { intros n q Hin. apply (Hall n q). by right. }
  rewrite run_loop_cons. case_bool_decide; [|by apply IH].
  destruct queue as [|change queue].
  { exfalso. by apply (Hall name []); [left|]. }
  simpl. destruct (b || can_run_at_exit change); simpl; by apply IH.
Qed.

Lemma run_changes_unfold running_changes provider_id w :
  _run_changes running_changes provider_id w =
  run_loop provider_id (running w) (changes w) running_changes [] w.
Proof.
  unfold _run_changes. rewrite bind_run. simpl.
  by destruct (run_loop _ _ _ _ _ _) as [[r w'] tr].
Qed.

Lemma keeps_run_changes_stopped running_changes provider_id :
  keeps runs_at_exit_only stopped (_run_changes running_changes provider_id).
Proof.
  intros w Hw. rewrite run_changes_unfold. rewrite Hw.
  split; [apply run_loop_runs_at_exit|]. by rewrite run_loop_world.
Qed.

Lemma not_a_run_at_exit e :
  (forall c peers, e <> CallRun c peers) -> runs_at_exit_only e.
Proof. intros He c peers ->. by destruct (He c peers). Qed.

Lemma keeps_make_step_stopped provider_id :
  keeps runs_at_exit_only stopped (make_step provider_id).
Proof.
  unfold make_step. apply keeps_bind.
  { apply keeps_register_running_changes; [apply stopped_running|..];
      intros; by apply not_a_run_at_exit. }
  intros running_changes. apply keeps_bind.
  { apply keeps_run_changes_stopped. }
  intros changes_to_remove. apply keeps_bind.
  { apply keeps_release_changes_lock; [apply stopped_running|..];
      intros; by apply not_a_run_at_exit. }
  intros _. apply keeps_get_world. intros w Hw. rewrite Hw. by split.
Qed.

(** The whole step on that controller: the change that cannot run at
    exit is dropped unrun, the final change runs and completes, both are
    unregistered under the lock and no check is probed. *)
Example make_step_while_stopping :
  make_step "1.1.1.1" stopping_world =
  (Ok tt,
   mkWorld [sample_check] [] false [] clock3 0,
   [TakeLock (Some "1.1.1.1"); GetRunningChanges;
    CallCanRun restart_change ["stop"]; CallCanRun final_change ["restart"];
    ReleaseLock;
    ForcedToStop restart_change; CallRun final_change ["restart"];
    CallOnRemove restart_change; CallOnRemove final_change;
    TakeLock None; UnregisterChange "restart"; UnregisterChange "stop";
    ReleaseLock]).
Proof. reflexivity. Qed.

(** A step of an idle, running controller: the check fires, its change
    is queued, the lock is never taken. *)
Example make_step_idle :
  (make_step "1.1.1.1" idle_world).2 =
    [TimeRead (clock3 0); TimeRead (clock3 1); SetTimestamp (clock3 1);
     CallCheck (mkCheck 5%float (clock3 1) (check sample_check))] /\
  changes (make_step "1.1.1.1" idle_world).1.2 =
    [("restart", [mkChange "restart" (fun _ => true) (fun _ => Ok false) false])].
Proof. split; reflexivity. Qed.

End ControllerSpec.

(** ** broker.py: leadership scan, election wait and start *)

Module BrokerStartSpec.
Import Broker BrokerStart BrokerStartSamples.

Lemma str_in_spec s l : str_in s l = true <-> s ∈ l.
Proof.
  unfold str_in. rewrite existsb_exists. split.
  - intros (y & Hy & ->%String.eqb_eq). by apply list_elem_of_In.
  - intros Hs. exists s. split; [by apply list_elem_of_In|apply String.eqb_refl].
Qed.

Lemma holdsb_spec id state : holdsb id state = true <-> holds_partition id state.
Proof.
  unfold holdsb, holds_partition. rewrite orb_true_iff, String.eqb_eq.
  rewrite existsb_exists. split; (intros [H|(x & Hx & Hid)]; [by left|right]).
  - exists x. split; [by apply list_elem_of_In|by apply String.eqb_eq].
  - exists x. split; [by apply list_elem_of_In|by apply String.eqb_eq].
Qed.

Lemma transferredb_spec active state :
  transferredb active state = true <-> transferred active state.
Proof.
  unfold transferredb, transferred.
  rewrite andb_true_iff, str_in_spec, forallb_forall. split.
  - intros [Hl Hi]. split; [done|]. intros x Hx.
    by apply str_in_spec, Hi, list_elem_of_In.
  - intros [Hl Hi]. split; [done|]. intros x Hx.
    by apply str_in_spec, Hi, list_elem_of_In.
Qed.

(** The scan with every state node present: it answers at the first
    partition the broker still holds. *)
Lemma scan_partitions_present id topic parts :
  Forall is_Some parts.*2 ->
  (scan_partitions id topic parts).1 =
  if existsb (fun n => from_option (holdsb id) false n) parts.*2
  then Ok (Some true) else Ok None.
Proof.
  induction parts as [|[partition [state|]] parts IH]; simpl; [done| |].
  - intros [_ Hall]%Forall_cons. unfold holdsb at 1.
    destruct (String.eqb (py_str (leader state)) id); [done|].
    destruct (existsb _ (isr state)); [done|]. simpl.
    specialize (IH Hall).
    by destruct (scan_partitions id topic parts) as [r tr].
  - intros [[x Hx] _]%Forall_cons. discriminate.
Qed.

Lemma scan_topics_present id tree :
  all_states_present tree ->
  (scan_topics id tree).1 =
  if existsb (fun n => from_option (holdsb id) false n) (states tree)
  then Ok (Some true) else Ok None.
Proof.
  unfold all_states_present, states.
  induction tree as [|[topic parts] tree IH]; simpl; [done|].
  rewrite Forall_app. intros [Hparts Htree].
  pose proof (scan_partitions_present id topic parts Hparts) as Hp.
  rewrite existsb_app.
  destruct (scan_partitions id topic parts) as [r tr]. simpl in Hp. subst r.
  destruct (existsb _ parts.*2); [done|]. simpl.
  specialize (IH Htree).
  by destruct (scan_topics id tree) as [r' tr'].
Qed.

Lemma existsb_holds id (l : list (option PartitionState)) :
  existsb (fun n => from_option (holdsb id) false n) l = true <->
  exists state, Some state ∈ l /\ holds_partition id state.
Proof.
  rewrite existsb_exists. split.
  - intros ([state|] & Hin & Hh); [|discriminate].
    exists state. split; [by apply list_elem_of_In|by apply holdsb_spec].
  - intros (state & Hin & Hh). exists (Some state).
    split; [by apply list_elem_of_In|by apply holdsb_spec].
Qed.

(** With the election clean, a non-empty id and every state node in
    place, [stop_kafka_process] says false exactly when some partition
    still has the broker as leader or in its ISR, and true otherwise;
    either way the process handle is gone afterwards. *)
Theorem stop_reports_leadership (bm : BrokerManager) :
  _is_clean_election bm = true ->
  py_str (get_broker_id (id_manager bm)) <> "" ->
  all_states_present (exhibitor bm) ->
  let id := py_str (get_broker_id (id_manager bm)) in
  let still_held :=
    exists state, Some state ∈ states (exhibitor bm) /\ holds_partition id state in
  ((stop_kafka_process bm).1.1 = Ok false <-> still_held) /\
  ((stop_kafka_process bm).1.1 = Ok true <-> ~ still_held) /\
  process (stop_kafka_process bm).1.2 = None.
Proof.
  intros Hclean Hid Hall id still_held.
  rewrite BrokerSpec.stop_unfold. simpl.
  destruct (BrokerSpec.terminate_keeps_properties bm) as (Hprops & Hidm & Hex).
  assert (Hnone : process (_terminate_process bm).1 = None).
  { unfold _terminate_process. by destruct (process bm) eqn:E. }
  unfold _have_leadership.
  rewrite BrokerSpec.is_clean_election_terminate, Hclean, Hidm, Hex. simpl.
  fold id. destruct (str_truthy id) eqn:Ht.
  2:{ apply PyFacts.str_truthy_false in Ht. done. }
  simpl. pose proof (scan_topics_present id _ Hall) as Hscan.
  pose proof (existsb_holds id (states (exhibitor bm))) as Hex'.
  destruct (scan_topics id (exhibitor bm)) as [r tr]. simpl in *. subst r.
  fold still_held in Hex'.
  destruct (existsb _ _); simpl.
  - split; [|split; [|done]].
    + split; [intros _; by apply Hex'|done].
    + split; [discriminate|]. intros Hn. destruct Hn. by apply Hex'.
  - split; [|split; [|done]].
    + split; [discriminate|]. intros H%Hex'. discriminate.
    + split; [|done]. intros _ H%Hex'. discriminate.
Qed.

Lemma stop_reports_leadership_witness :
  (stop_kafka_process
     (BrokerSamples.broker_with (Some "false") (PyInt 5)
        BrokerSamples.leading_tree)).1.1 = Ok false.
Proof.
  apply (proj1 (stop_reports_leadership
                  (BrokerSamples.broker_with (Some "false") (PyInt 5)
                     BrokerSamples.leading_tree)
                  eq_refl ltac:(discriminate)
                  ltac:(repeat constructor; by eexists))).
  exists (mkState (PyInt 5) [PyInt 5; PyInt 6]). split.
  - by left.
  - by left.
Defined.

Lemma election_partitions_present active topic parts :
  Forall is_Some parts.*2 ->
  (election_partitions active topic parts).1 =
  if forallb (fun n => from_option (transferredb active) true n) parts.*2
  then Ok None else Ok (Some false).
Proof.
  induction parts as [|[partition [state|]] parts IH]; simpl; [done| |].
  - intros [_ Hall]%Forall_cons. unfold transferredb at 1.
    destruct (str_in (py_str (leader state)) active); [|done]. simpl.
    assert (Hneg : existsb (fun x => negb (str_in (py_str x) active)) (isr state)
                   = negb (forallb (fun x => str_in (py_str x) active) (isr state))).
    { induction (isr state) as [|x l IHl]; simpl; [done|].
      rewrite IHl. by destruct (str_in (py_str x) active). }
    rewrite Hneg. destruct (forallb _ (isr state)); [|done]. simpl.
    specialize (IH Hall).
    by destruct (election_partitions active topic parts) as [r tr].
  - intros [[x Hx] _]%Forall_cons. discriminate.
Qed.

Lemma election_topics_present active tree :
  all_states_present tree ->
  (election_topics active tree).1 =
  if forallb (fun n => from_option (transferredb active) true n) (states tree)
  then Ok None else Ok (Some false).
Proof.
  unfold all_states_present, states.
  induction tree as [|[topic parts] tree IH]; simpl; [done|].
  rewrite Forall_app. intros [Hparts Htree].
  pose proof (election_partitions_present active topic parts Hparts) as Hp.
  rewrite forallb_app.
  destruct (election_partitions active topic parts) as [r tr]. simpl in Hp.
  subst r. destruct (forallb _ parts.*2); [|done]. simpl.
  specialize (IH Htree).
  by destruct (election_topics active tree) as [r' tr'].
Qed.

Lemma forallb_transferred active (l : list (option PartitionState)) :
  forallb (fun n => from_option (transferredb active) true n) l = true <->
  forall state, Some state ∈ l -> transferred active state.
Proof.
  rewrite forallb_forall. split.
  - intros H state Hin. apply transferredb_spec.
    by apply (H (Some state)), list_elem_of_In.
  - intros H [state|] Hin; [|done]. simpl.
    by apply transferredb_spec, H, list_elem_of_In.
Qed.

(** The answer of the wait, by the election setting. *)
Lemma election_wait_cases (bm : BrokerManager) (env : Env) :
  (_is_clean_election bm = false ->
     _wait_for_clean_leader_election bm env = (Ok true, [])) /\
  (_is_clean_election bm = true ->
   all_states_present (exhibitor bm) ->
   let settled :=
     forall state, Some state ∈ states (exhibitor bm) ->
                   transferred (broker_ids env) state in
   ((_wait_for_clean_leader_election bm env).1 = Ok true <-> settled) /\
   ((_wait_for_clean_leader_election bm env).1 = Ok false <-> ~ settled)).
Proof.
  split.
  - unfold _wait_for_clean_leader_election. by intros ->.
  - intros Hc Hall settled. unfold _wait_for_clean_leader_election.
    rewrite Hc. simpl.
    pose proof (election_topics_present (broker_ids env) _ Hall) as Hscan.
    pose proof (forallb_transferred (broker_ids env) (states (exhibitor bm)))
      as Hall'.
    fold settled in Hall'.
    destruct (election_topics (broker_ids env) (exhibitor bm)) as [r tr].
    simpl in *. subst r. destruct (forallb _ _); simpl.
    + split; split; try done.
      * intros _. by apply Hall'.
      * intros Hn. destruct Hn. by apply Hall'.
    + split; split; try done.
      * intros H%Hall'. discriminate.
      * intros _ H%Hall'. discriminate.
Qed.

(** [_wait_for_clean_leader_election]: when unclean election is allowed
    it says true without a read; with the election clean and every
    state node in place it says true exactly when every leader and
    every ISR member of every partition is among the children of
    [/brokers/ids], and false otherwise. *)
Theorem election_wait_characterised (bm : BrokerManager) (env : Env) :
  (_is_clean_election bm = false ->
     _wait_for_clean_leader_election bm env = (Ok true, [])) /\
  (_is_clean_election bm = true ->
   all_states_present (exhibitor bm) ->
   let settled :=
     forall state, Some state ∈ states (exhibitor bm) ->
                   transferred (broker_ids env) state in
   ((_wait_for_clean_leader_election bm env).1 = Ok true <-> settled) /\
   ((_wait_for_clean_leader_election bm env).1 = Ok false <-> ~ settled)).
Proof. exact (election_wait_cases bm env). Qed.

(** *** start_kafka_process *)

Lemma configured_gate bm address :
  _is_clean_election (configured bm address) = _is_clean_election bm.
Proof.
  unfold _is_clean_election, get_property, configured. simpl.
  rewrite lookup_insert_ne by done.
  destruct (get_broker_id (id_manager bm));
    by rewrite ?lookup_delete_ne, ?lookup_insert_ne by done.
Qed.

Lemma start_unfold self env address :
  process (manager self) = None ->
  start_kafka_process self env address =
  let bm2 := configured (manager self) address in
  let tr2 :=
    (match get_broker_id (id_manager (manager self)) with
     | PyNone => [DeleteProperty "broker.id"]
     | id => [SetProperty "broker.id" (py_str id)]
     end) ++ [SetProperty "zookeeper.connect" address; Dump] in
  let wait := _wait_for_clean_leader_election bm2 env in
  match wait.1 with
  | Raise e => (Raise e, mkStarter bm2 (wait_timeout self), tr2 ++ wait.2)
  | Ok false => (Ok false, mkStarter bm2 (wait_timeout self), tr2 ++ wait.2)
  | Ok true =>
      if wait_for_broker_id_presence env (wait_timeout self) then
        (Ok true,
         mkStarter (set_process bm2 (Some (spawned env))) (wait_timeout self),
         tr2 ++ wait.2 ++
         [OpenProcess; WaitForBrokerIdPresence (wait_timeout self)])
      else
        (Ok true,
         mkStarter (set_process bm2 (Some (spawned env))) (wait_timeout self + 60),
         tr2 ++ wait.2 ++
         [OpenProcess; WaitForBrokerIdPresence (wait_timeout self);
          LogStartTimeout (wait_timeout self + 60)])
  end.
Proof.
  intros Hnone. unfold start_kafka_process, configured. rewrite Hnone.
  destruct (get_broker_id (id_manager (manager self))); simpl;
    by destruct (_wait_for_clean_leader_election _ env) as [[[|]|] tr].
Qed.

Lemma election_never_spawns bm env :
  OpenProcess ∉ (_wait_for_clean_leader_election bm env).2.
Proof.
  assert (Hp : forall active topic parts,
            OpenProcess ∉ (election_partitions active topic parts).2).
  { intros active topic parts.
    induction parts as [|[partition [state|]] parts IH]; simpl.
    - apply not_elem_of_nil.
    - destruct (negb _).
      { simpl. intros [?|[?|?%not_elem_of_nil]%elem_of_cons]%elem_of_cons;
          [discriminate|discriminate|done]. }
      destruct (existsb _ _).
      { simpl. intros [?|[?|?%not_elem_of_nil]%elem_of_cons]%elem_of_cons;
          [discriminate|discriminate|done]. }
      destruct (election_partitions active topic parts) as [r tr]. simpl in *.
      intros [?|?]%elem_of_cons; [discriminate|done].
    - simpl. intros [?|?%not_elem_of_nil]%elem_of_cons; [discriminate|done]. }
  assert (Ht : forall active tree, OpenProcess ∉ (election_topics active tree).2).
  { intros active tree. induction tree as [|[topic parts] tree IH]; simpl.
    - apply not_elem_of_nil.
    - specialize (Hp active topic parts).
      destruct (election_partitions active topic parts) as [r tr]. simpl in *.
      destruct r as [[b|]|e]; simpl.
      + intros [?|?]%elem_of_cons; [discriminate|done].
      + destruct (election_topics active tree) as [r' tr']. simpl in *.
        intros [?|[?|?]%elem_of_app]%elem_of_cons; [discriminate|done|done].
      + intros [?|?]%elem_of_cons; [discriminate|done]. }
  unfold _wait_for_clean_leader_election. destruct (negb _); simpl.
  - apply not_elem_of_nil.
  - specialize (Ht (broker_ids env) (exhibitor bm)).
    destruct (election_topics _ _) as [r tr]. simpl in *.
    intros [?|[?|?]%elem_of_cons]%elem_of_cons; [discriminate|discriminate|done].
Qed.

Ltac no_spawn Hnever :=
  let Hin := fresh "Hin" in
  intros Hin; apply elem_of_app in Hin as [Hin|Hin]; [|by apply Hnever];
  apply elem_of_app in Hin as [Hin|Hin];
  [destruct (get_broker_id _); apply list_elem_of_singleton in Hin; discriminate
  |apply elem_of_cons in Hin as [?|Hin]; [discriminate|];
   apply list_elem_of_singleton in Hin; discriminate].

(** The cases of one call of [start_kafka_process]. *)
Lemma start_outcome_cases (self : Starter) (env : Env) (address : string) :
  let r := (start_kafka_process self env address).1.1 in
  let self' := (start_kafka_process self env address).1.2 in
  let tr := (start_kafka_process self env address).2 in
  (r = Ok true -> is_Some (process (manager self'))) /\
  (r = Ok false ->
     process (manager self') = None /\ (OpenProcess ∉ tr) /\
     wait_timeout self' = wait_timeout self) /\
  (OpenProcess ∈ tr -> process (manager self) = None /\ r = Ok true) /\
  (wait_timeout self' = wait_timeout self \/
   (wait_timeout self' = wait_timeout self + 60 /\ OpenProcess ∈ tr /\
    wait_for_broker_id_presence env (wait_timeout self) = false)) /\
  (process (manager self) = None ->
     get_zk_connect_string (manager self') = Some address /\
     get_property (manager self') "broker.id" =
       match get_broker_id (id_manager (manager self)) with
       | PyNone => None
       | id => Some (py_str id)
       end).
Proof.
  intros r self' tr. subst r self' tr.
  destruct (process (manager self)) as [p|] eqn:Hproc.
  { unfold start_kafka_process. rewrite Hproc. simpl.
    split; [intros _; rewrite Hproc; by eexists|].
    split; [discriminate|].
    split; [by intros ?%not_elem_of_nil|]. split; [by left|discriminate]. }
  rewrite (start_unfold _ _ _ Hproc). simpl.
  pose proof (election_never_spawns (configured (manager self) address) env)
    as Hnever.
  assert (Hprops :
    get_zk_connect_string (configured (manager self) address) = Some address /\
    get_property (configured (manager self) address) "broker.id" =
      match get_broker_id (id_manager (manager self)) with
      | PyNone => None
      | id => Some (py_str id)
      end).
  { unfold get_zk_connect_string, get_property, configured. simpl.
    rewrite lookup_insert_eq. split; [done|].
    rewrite lookup_insert_ne by done.
    destruct (get_broker_id (id_manager (manager self)));
      by rewrite ?lookup_delete_eq, ?lookup_insert_eq. }
  destruct (_wait_for_clean_leader_election _ env) as [[[|]|e] tr3]; simpl in *.
  - destruct (wait_for_broker_id_presence env (wait_timeout self)) eqn:Hw;
      simpl.
    + split; [by eexists|]. split; [discriminate|].
      split; [done|]. split; [by left|done].
    + split; [by eexists|]. split; [discriminate|].
      split; [done|]. split; [|done]. right. split; [done|]. split; [|done].
      apply elem_of_app. right. apply elem_of_app. right. by left.
  - split; [discriminate|]. split.
    { intros _. split; [by rewrite Hproc|]. split; [|done].
      no_spawn Hnever. }
    split; [|split; [by left|done]].
    intros Hin. exfalso. revert Hin. no_spawn Hnever.
  - split; [discriminate|]. split; [discriminate|].
    split; [|split; [by left|done]].
    intros Hin. exfalso. revert Hin. no_spawn Hnever.
Qed.

(** What a call of [start_kafka_process] can and cannot do: a true
    answer leaves a process handle, a false answer leaves none and has
    spawned nothing; a process is spawned only when none was held and
    the answer is true; the start timeout never shrinks, and grows (by
    60) only after a spawn whose broker id did not show up in time; and
    a call that found no handle has written the connect string and the
    broker id (or removed it when there is none) into the properties. *)
Theorem start_outcome (self : Starter) (env : Env) (address : string) :
  let r := (start_kafka_process self env address).1.1 in
  let self' := (start_kafka_process self env address).1.2 in
  let tr := (start_kafka_process self env address).2 in
  (r = Ok true -> is_Some (process (manager self'))) /\
  (r = Ok false ->
     process (manager self') = None /\ (OpenProcess ∉ tr) /\
     wait_timeout self' = wait_timeout self) /\
  (OpenProcess ∈ tr -> process (manager self) = None /\ r = Ok true) /\
  (wait_timeout self' = wait_timeout self \/
   (wait_timeout self' = wait_timeout self + 60 /\ OpenProcess ∈ tr /\
    wait_for_broker_id_presence env (wait_timeout self) = false)) /\
  (process (manager self) = None ->
     get_zk_connect_string (manager self') = Some address /\
     get_property (manager self') "broker.id" =
       match get_broker_id (id_manager (manager self)) with
       | PyNone => None
       | id => Some (py_str id)
       end).
Proof. exact (start_outcome_cases self env address). Qed.

(** Starting twice is starting once: after a call that answered true,
    the next call answers true at once, touching nothing. *)
Theorem start_is_idempotent
    (self : Starter) (env env' : Env) (address address' : string) :
  (start_kafka_process self env address).1.1 = Ok true ->
  start_kafka_process (start_kafka_process self env address).1.2 env' address' =
    (Ok true, (start_kafka_process self env address).1.2, []).
Proof.
  intros Hok.
  destruct (proj1 (start_outcome_cases self env address) Hok) as [p Hp].
  unfold start_kafka_process at 1. by rewrite Hp.
Qed.

(** With the election clean and every state node in place, a call that
    holds no process spawns one, and answers true, exactly when every
    leader and ISR member is an active broker; otherwise it answers
    false and spawns nothing. *)
Theorem start_waits_for_election
    (self : Starter) (env : Env) (address : string) :
  process (manager self) = None ->
  _is_clean_election (manager self) = true ->
  all_states_present (exhibitor (manager self)) ->
  let settled :=
    forall state, Some state ∈ states (exhibitor (manager self)) ->
                  transferred (broker_ids env) state in
  let r := (start_kafka_process self env address).1.1 in
  let tr := (start_kafka_process self env address).2 in
  (r = Ok true <-> settled) /\ (r = Ok false <-> ~ settled) /\
  (OpenProcess ∈ tr <-> settled).
Proof.
  intros Hproc Hclean Hall settled r tr.
  pose proof (start_outcome_cases self env address) as (H1 & H2 & H3 & _).
  fold r tr in H1, H2, H3.
  destruct (election_wait_cases
              (configured (manager self) address) env) as [_ Hchar].
  rewrite configured_gate in Hchar. specialize (Hchar Hclean Hall).
  simpl in Hchar. fold settled in Hchar. destruct Hchar as [Ht Hf].
  assert (Hr : r = match (_wait_for_clean_leader_election
                            (configured (manager self) address) env).1 with
                   | Ok b => Ok b
                   | Raise e => Raise e
                   end).
  { subst r. rewrite (start_unfold _ _ _ Hproc). simpl.
    destruct (_wait_for_clean_leader_election _ env) as [[[|]|e] tr3];
      simpl; [|done|done].
    by destruct (wait_for_broker_id_presence env (wait_timeout self)). }
  assert (Hspawn : r = Ok true -> OpenProcess ∈ tr).
  { subst r tr. rewrite (start_unfold _ _ _ Hproc). simpl.
    destruct (_wait_for_clean_leader_election _ env) as [[[|]|e] tr3];
      simpl; [|discriminate|discriminate].
    intros _.
    destruct (wait_for_broker_id_presence env (wait_timeout self)); simpl;
      (apply elem_of_app; right; apply elem_of_app; right; by left). }
  destruct (_wait_for_clean_leader_election _ env) as [[[|]|e] tr3];
    simpl in *.
  - assert (Hs : settled) by by apply Ht.
    split; [done|]. split; [split; [by rewrite Hr|done]|].
    split; [done|]. intros _. by apply Hspawn.
  - assert (Hs : ~ settled) by by apply Hf.
    split; [split; [by rewrite Hr|done]|]. split; [done|].
    split; [|done]. intros Hin. destruct (H3 Hin) as [_ Hrt]. congruence.
  - exfalso. assert (Hs : ~ settled).
    { intros Hs. apply Ht in Hs. discriminate. }
    apply Hf in Hs. discriminate.
Qed.

Lemma election_wait_characterised_witness :
  (_wait_for_clean_leader_election (manager waiting_starter) three_brokers).1
    = Ok false.
Proof.
  apply (proj2 (election_wait_characterised
                  (manager waiting_starter) three_brokers) eq_refl
           ltac:(repeat constructor; by eexists)).
  intros Hall.
  destruct (Hall (mkState (PyInt 9) [PyInt 1; PyInt 9])) as [Hl _].
  - by left.
  - vm_compute in Hl. by repeat (apply elem_of_cons in Hl as [?|Hl]);
      try apply not_elem_of_nil in Hl.
Defined.

Lemma start_outcome_witness :
  is_Some (process (manager
    (start_kafka_process settled_starter three_brokers "zk:2181/kafka").1.2)).
Proof.
  apply (proj1 (start_outcome settled_starter three_brokers "zk:2181/kafka")).
  reflexivity.
Defined.

Lemma start_is_idempotent_witness :
  start_kafka_process
    (start_kafka_process settled_starter three_brokers "zk:2181/kafka").1.2
    three_brokers "other:2181" =
  (Ok true,
   (start_kafka_process settled_starter three_brokers "zk:2181/kafka").1.2, []).
Proof.
  apply (start_is_idempotent settled_starter three_brokers three_brokers).
  reflexivity.
Defined.

Lemma start_waits_for_election_witness :
  (start_kafka_process waiting_starter three_brokers "zk:2181/kafka").1.1
    = Ok false.
Proof.
  apply (proj1 (proj2 (start_waits_for_election waiting_starter three_brokers
                         "zk:2181/kafka" eq_refl eq_refl
                         ltac:(repeat constructor; by eexists)))).
  intros Hall.
  destruct (Hall (mkState (PyInt 9) [PyInt 1; PyInt 9])) as [Hl _].
  - by left.
  - vm_compute in Hl. by repeat (apply elem_of_cons in Hl as [?|Hl]);
      try apply not_elem_of_nil in Hl.
Defined.

(** A start that times out: the process is kept, the timeout goes from
    300 to 360 seconds and the answer is still true. *)
Example start_extends_timeout :
  let res := start_kafka_process settled_starter three_brokers "zk:2181/kafka" in
  res.1.1 = Ok true /\ wait_timeout res.1.2 = 360 /\
  res.2 =
    [SetProperty "broker.id" "2";
     SetProperty "zookeeper.connect" "zk:2181/kafka"; Dump;
     ZkGetChildren "/brokers/ids"; ZkGetChildren "/brokers/topics";
     ZkGetChildren "/brokers/topics/t/partitions";
     ZkGet "/brokers/topics/t/partitions/0/state";
     OpenProcess; WaitForBrokerIdPresence 300; LogStartTimeout 360].
Proof. vm_compute. repeat split; reflexivity. Qed.

End BrokerStartSpec.

(** ** zookeeper.py: disk stats and the reassignment slot *)

Module ZkNodesSpec.
Import Zookeeper ZkNodes.

(** *** Paths *)

Lemma drop_last_component_shorter path :
  forall prefix,
    drop_last_component path = Some prefix ->
    (String.length prefix < String.length path)%nat.
Proof.
  induction path as [|c rest IH]; intros prefix; simpl; [discriminate|].
  destruct (drop_last_component rest) as [q|].
  - intros [= <-]. simpl. specialize (IH q eq_refl). lia.
  - destruct (Ascii.eqb c "/"); [|discriminate]. intros [= <-]. simpl. lia.
Qed.

Lemma parent_shorter path :
  parent path = "/" \/ (String.length (parent path) < String.length path)%nat.
Proof.
  unfold parent.
  destruct (drop_last_component path) as [[|c prefix]|] eqn:E; [by left| |by left].
  right. by apply drop_last_component_shorter.
Qed.

Lemma iter_parent_shorter path n :
  Nat.iter (S n) parent path = "/" \/
  (String.length (Nat.iter (S n) parent path) < String.length path)%nat.
Proof.
  induction n as [|n IH]; [apply parent_shorter|].
  change (Nat.iter (S (S n)) parent path)
    with (parent (Nat.iter (S n) parent path)).
  destruct IH as [-> | IH]; [by left|].
  destruct (parent_shorter (Nat.iter (S n) parent path)) as [-> | H];
    [by left|right; lia].
Qed.

Lemma above_ne a path :
  (1 < String.length path)%nat -> above a path -> a <> path.
Proof.
  intros Hlen [n ->] Heq.
  destruct (iter_parent_shorter path n) as [H|H]; rewrite Heq in H.
  - rewrite H in Hlen. simpl in Hlen. lia.
  - lia.
Qed.

Lemma size_stats_path_long broker_id :
  (1 < String.length (size_stats_path broker_id))%nat.
Proof. unfold size_stats_path. simpl. lia. Qed.

(** *** The parents made on the way *)

Lemma node_exists_false path (store : Store) :
  node_exists path store = false -> store !! path = None.
Proof. unfold node_exists. by destruct (store !! path). Qed.

Lemma ensure_path_old fuel :
  forall path (store : Store) k d,
    store !! k = Some d -> ensure_path fuel path store !! k = Some d.
Proof.
  induction fuel as [|n IH]; intros path store k d Hk; simpl; [done|].
  destruct (node_exists path store) eqn:E; [done|].
  apply node_exists_false in E.
  rewrite lookup_insert_ne by congruence. by apply IH.
Qed.

Lemma ensure_path_new fuel :
  forall path (store : Store) k d,
    ensure_path fuel path store !! k = Some d -> store !! k = None ->
    d = NoData /\ exists i : nat, k = Nat.iter i parent path.
Proof.
  induction fuel as [|n IH]; intros path store k d; simpl; [congruence|].
  destruct (node_exists path store) eqn:E; [congruence|].
  destruct (decide (path = k)) as [->|Hne].
  - rewrite lookup_insert_eq. intros [= <-] _. split; [done|]. by exists 0%nat.
  - rewrite lookup_insert_ne by done. intros Hk Hnone.
    destruct (IH _ _ _ _ Hk Hnone) as [-> [i ->]]. split; [done|].
    exists (S i). by rewrite Nat.iter_succ_r.
Qed.

Lemma ensure_path_exists n path (store : Store) :
  node_exists path (ensure_path (S n) path store) = true.
Proof.
  simpl. destruct (node_exists path store) eqn:E; [done|].
  unfold node_exists. by rewrite lookup_insert_eq.
Qed.

Lemma iter_parent_root n :
  forall path,
    (String.length path <= n)%nat -> Nat.iter (S n) parent path = "/".
Proof.
  induction n as [|n IH]; intros path Hlen.
  - destruct path; [reflexivity|simpl in Hlen; lia].
  - rewrite Nat.iter_succ_r.
    destruct (parent_shorter path) as [-> | Hshort].
    + clear. induction n as [|n IH]; [reflexivity|].
      change (Nat.iter (S (S n)) parent "/")
        with (parent (Nat.iter (S n) parent "/")).
      by rewrite IH.
    + apply IH. lia.
Qed.

Lemma node_exists_insert k d p (store : Store) :
  node_exists p store = true -> node_exists p (<[k := d]> store) = true.
Proof.
  unfold node_exists. destruct (decide (k = p)) as [->|Hne].
  - by rewrite lookup_insert_eq.
  - by rewrite lookup_insert_ne.
Qed.

Lemma is_tree_insert k d (store : Store) :
  is_tree store -> node_exists (parent k) store = true ->
  is_tree (<[k := d]> store).
Proof.
  intros Htree Hparent p d'. destruct (decide (k = p)) as [->|Hne].
  - intros _. by apply node_exists_insert.
  - rewrite lookup_insert_ne by done. intros Hp.
    apply node_exists_insert. by eapply Htree.
Qed.

(** With fuel for the whole climb, the nodes made on the way leave a
    tree a tree. *)
Lemma ensure_path_tree fuel :
  forall path (store : Store),
    is_tree store -> Nat.iter fuel parent path = "/" ->
    is_tree (ensure_path fuel path store) /\
    node_exists path (ensure_path fuel path store) = true.
Proof.
  induction fuel as [|n IH]; intros path store Htree Hroot.
  - simpl in *. subst path. split; [done|].
    unfold node_exists. by destruct (store !! "/").
  - simpl. destruct (node_exists path store) eqn:E; [by split|].
    rewrite Nat.iter_succ_r in Hroot.
    destruct (IH _ _ Htree Hroot) as [Htree' Hup]. split.
    + by apply is_tree_insert.
    + unfold node_exists. by rewrite lookup_insert_eq.
Qed.

(** What one publication does to the store: the node is written over
    a base that keeps every old node and adds, when the way down was
    missing, only empty nodes above the stats node. *)
Lemma update_disk_stats_base broker_id (store : Store) :
  exists base : Store,
    (forall value,
       update_disk_stats broker_id value store =
         (Ok tt, <[size_stats_path broker_id := Doc value]> base)) /\
    (is_Some (store !! size_stats_path broker_id) -> base = store) /\
    (forall k d, store !! k = Some d -> base !! k = Some d) /\
    (forall k d, base !! k = Some d -> store !! k = None ->
                 d = NoData /\ above k (size_stats_path broker_id)) /\
    (store !! size_stats_path broker_id = None ->
     node_exists (parent (size_stats_path broker_id)) base = true) /\
    (is_tree store -> is_tree base).
Proof.
  set (path := size_stats_path broker_id).
  destruct (store !! path) as [old|] eqn:Hpath.
  { exists store. split; [|split; [done|split; [done|split; [|split]]]].
    - intros value. unfold update_disk_stats, create_makepath, create, set.
      fold path. by rewrite Hpath, Hpath.
    - intros k d Hk Hnone. congruence.
    - discriminate.
    - done. }
  destruct (node_exists (parent path) store) eqn:Hparent.
  { exists store. split; [|split; [by intros [? ?]|split; [done|split; [|split]]]].
    - intros value. unfold update_disk_stats, create_makepath, create.
      fold path. by rewrite Hpath, Hparent.
    - intros k d Hk Hnone. congruence.
    - done.
    - done. }
  set (base := ensure_path (String.length path) (parent path) store).
  assert (Hlen : exists n, String.length path = S n).
  { pose proof (size_stats_path_long broker_id) as H. fold path in H.
    destruct (String.length path) as [|n]; [lia|by exists n]. }
  assert (Hnew : forall k d, base !! k = Some d -> store !! k = None ->
                             d = NoData /\ above k path).
  { intros k d Hk Hnone.
    destruct (ensure_path_new _ _ _ _ _ Hk Hnone) as [-> [i ->]].
    split; [done|]. exists i. by rewrite Nat.iter_succ_r. }
  assert (Hfree : base !! path = None).
  { destruct (base !! path) as [d|] eqn:E; [|done].
    destruct (Hnew _ _ E Hpath) as [_ Habove].
    by destruct (above_ne _ _ (size_stats_path_long broker_id) Habove). }
  assert (Hup : node_exists (parent path) base = true).
  { subst base. destruct Hlen as [n ->]. apply ensure_path_exists. }
  exists base. split; [|split; [by intros [? ?]|split; [|split; [|split]]]].
  - intros value. unfold update_disk_stats, create_makepath, create.
    fold path. rewrite Hpath, Hparent. fold base. by rewrite Hfree, Hup.
  - intros k d Hk. by apply ensure_path_old.
  - exact Hnew.
  - done.
  - intros Htree. subst base. apply ensure_path_tree; [done|].
    destruct Hlen as [n Hn]. rewrite Hn.
    destruct (parent_shorter path) as [-> | Hshort].
    + clear. induction n as [|n IH]; [reflexivity|].
      change (Nat.iter (S (S n)) parent "/")
        with (parent (Nat.iter (S n) parent "/")).
      by rewrite IH.
    + apply iter_parent_root. lia.
Qed.

(** Publishing disk stats always succeeds and leaves the node holding
    exactly the published data, whether or not the node was there;
    publishing again replaces the value. Every node that existed keeps
    its data, in particular the stats another broker has published; a
    node that appears besides the stats node is an empty parent on the
    way down to it, after a first publication the parent of the stats
    node is there, and a store that is a tree stays one. *)
Theorem update_disk_stats_publishes
    (broker_id : string) (value value' : json) (store : Store) :
  let path := size_stats_path broker_id in
  let store' := (update_disk_stats broker_id value store).2 in
  (update_disk_stats broker_id value store).1 = Ok tt /\
  store' !! path = Some (Doc value) /\
  (update_disk_stats broker_id value' store').2 =
    (update_disk_stats broker_id value' store).2 /\
  (forall p d, p <> path -> store !! p = Some d -> store' !! p = Some d) /\
  (forall p d, p <> path -> store !! p = None -> store' !! p = Some d ->
               d = NoData /\ above p path) /\
  (store !! path = None -> node_exists (parent path) store' = true) /\
  (is_tree store -> is_tree store').
Proof.
  intros path store'. subst store'.
  destruct (update_disk_stats_base broker_id store)
    as (base & Heq & Hsame & Hold & Hnew & Hup & Hbase).
  fold path in Heq, Hsame, Hnew, Hup.
  rewrite !Heq. cbn [fst snd].
  split; [done|]. split; [apply lookup_insert_eq|].
  split; [|split; [|split; [|split]]].
  - destruct (update_disk_stats_base broker_id (<[path := Doc value]> base))
      as (base2 & Heq2 & Hsame2 & _).
    fold path in Heq2, Hsame2. rewrite Heq2. cbn [snd].
    rewrite Hsame2 by (rewrite lookup_insert_eq; by eexists).
    apply insert_insert_eq.
  - intros p d Hne Hp. rewrite lookup_insert_ne by done. by apply Hold.
  - intros p d Hne Hnone. rewrite lookup_insert_ne by done.
    intros Hp. by apply Hnew.
  - intros Hnone. by apply node_exists_insert, Hup.
  - intros Htree. apply is_tree_insert; [by apply Hbase|].
    destruct (store !! path) as [old|] eqn:Hpath.
    + rewrite Hsame by by eexists. by eapply Htree.
    + by apply Hup.
Qed.

Section Int.

Variable int_of_str : string -> option Z.

(** The reassignment slot holds one job at a time: [is_rebalancing]
    tells whether the node is there; once a submission has answered
    true it is, and every later submission whose numbers convert
    answers false and leaves the stored plan and the rest of the store
    as they are. *)
Theorem reassignment_slot_is_exclusive
    (topic : string) (partition : pyobj) (replicas : list pyobj)
    (store store' : Store) (lg : list log) :
  reallocate_partition int_of_str topic partition replicas store
    = (Ok true, store', lg) ->
  is_rebalancing store = false /\
  is_rebalancing store' = true /\
  (forall topic2 partition2 replicas2 entry,
     partition_entry int_of_str topic2 partition2 replicas2 = Ok entry ->
     reallocate_partition int_of_str topic2 partition2 replicas2 store'
       = (Ok false, store', [LogWaitingForSlot])).
Proof.
  unfold reallocate_partition.
  destruct (partition_entry _ topic partition replicas) as [entry|];
    [|discriminate].
  intros Hsub.
  assert (Habs : store !! reassign_path = None).
  { destruct (store !! reassign_path) eqn:E; [|done].
    rewrite ZookeeperSpec.submit_existing in Hsub by by eexists.
    discriminate. }
  destruct (node_exists "/admin" store) eqn:Hparent.
  2:{ rewrite (ZookeeperSpec.submit_orphan _ _ Habs Hparent) in Hsub.
      discriminate. }
  rewrite (ZookeeperSpec.submit_absent _ _ Habs Hparent) in Hsub.
  injection Hsub as <- <-.
  assert (Hnow : is_Some (<[reassign_path := Doc (wire [entry])]> store
                            !! reassign_path)).
  { rewrite lookup_insert_eq. by eexists. }
  unfold is_rebalancing, get. rewrite Habs, lookup_insert_eq.
  split; [done|]. split; [done|].
  intros topic2 partition2 replicas2 entry2 ->.
  by apply ZookeeperSpec.submit_existing.
Qed.

End Int.

Lemma update_disk_stats_publishes_witness :
  node_exists "/bubuku/size_stats" (update_disk_stats "1" (JInt 7) ∅).2 = true /\
  (NoData = NoData /\ above "/bubuku" "/bubuku/size_stats/1").
Proof.
  pose proof (update_disk_stats_publishes "1" (JInt 7) (JInt 7) ∅)
    as (_ & _ & _ & _ & Hnew & Hup & _).
  split.
  - apply Hup. reflexivity.
  - apply (Hnew "/bubuku" NoData); [discriminate|reflexivity|].
    vm_compute. reflexivity.
Defined.

Lemma reassignment_slot_is_exclusive_witness :
  is_rebalancing {["/admin" := NoData]} = false /\
  is_rebalancing
    (<[reassign_path := Doc ZookeeperSamples.sample_doc]>
       {["/admin" := NoData]}) = true.
Proof.
  assert (Hrun :
    reallocate_partition ZookeeperSamples.sample_int_of_str
      "t" (PyStr "3") [PyInt 1; PyStr "2"] {["/admin" := NoData]} =
    (Ok true,
     <[reassign_path := Doc ZookeeperSamples.sample_doc]>
       {["/admin" := NoData]},
     [LogReallocating ZookeeperSamples.sample_doc])).
  { vm_compute. reflexivity. }
  destruct (reassignment_slot_is_exclusive _ _ _ _ _ _ _ Hrun) as (H1 & H2 & _).
  by split.
Defined.

End ZkNodesSpec.

(** ** controller.py: the whole make-step *)

Module ControllerInvSpec.
Import Controller ControllerInv ControllerSamples ControllerSpec.

(** *** Dictionaries *)

Lemma dict_get_elem_of {V} (k : string) (v : V) (d : dict V) :
  dict_get k d = Some v -> (k, v) ∈ d.
Proof.
  induction d as [|[k' v'] d IH]; simpl; [done|].
  destruct (String.eqb k' k) eqn:E.
  - apply String.eqb_eq in E as ->. intros [= ->]. by left.
  - intros H. right. by apply IH.
Qed.

Lemma dict_get_None {V} (k : string) (d : dict V) :
  dict_get k d = None <-> k ∉ d.*1.
Proof.
  induction d as [|[k' v'] d IH]; simpl.
  - split; [intros _; apply not_elem_of_nil|done].
  - destruct (String.eqb k' k) eqn:E.
    + apply String.eqb_eq in E as ->. split; [done|].
      intros H. destruct H. by left.
    + apply String.eqb_neq in E. rewrite IH. split.
      * intros H [->|Hin]%elem_of_cons; done.
      * intros H Hin. apply H. by right.
Qed.

Lemma dict_get_NoDup {V} (k : string) (v : V) (d : dict V) :
  NoDup d.*1 -> (k, v) ∈ d -> dict_get k d = Some v.
Proof.
  induction d as [|[k' v'] d IH]; simpl.
  - intros _ H. by apply not_elem_of_nil in H.
  - intros [Hk Hd]%NoDup_cons [[= -> ->]|Hin]%elem_of_cons.
    + by rewrite String.eqb_refl.
    + destruct (String.eqb k' k) eqn:E; [|by apply IH].
      apply String.eqb_eq in E as ->. destruct Hk.
      apply list_elem_of_fmap. by exists (k, v).
Qed.

Lemma dict_get_set {V} (k k' : string) (v : V) (d : dict V) :
  dict_get k' (dict_set k v d) = if String.eqb k k' then Some v else dict_get k' d.
Proof.
  induction d as [|[k0 v0] d IH]; simpl.
  - by destruct (String.eqb k k').
  - destruct (String.eqb k0 k) eqn:E; simpl.
    + apply String.eqb_eq in E as ->. by destruct (String.eqb k k').
    + destruct (String.eqb k0 k') eqn:E'; [|done].
      apply String.eqb_eq in E' as ->.
      by rewrite String.eqb_sym, E.
Qed.

Lemma dict_set_keys {V} (k : string) (v : V) (d : dict V) :
  (dict_set k v d).*1 = if bool_decide (k ∈ d.*1) then d.*1 else d.*1 ++ [k].
Proof.
  induction d as [|[k0 v0] d IH]; [done|].
  cbn [dict_set]. destruct (String.eqb k0 k) eqn:E.
  - apply String.eqb_eq in E as ->. rewrite !fmap_cons. simpl.
    rewrite bool_decide_eq_true_2; [done|by left].
  - apply String.eqb_neq in E. rewrite !fmap_cons, IH. simpl.
    case_bool_decide as Hin.
    + rewrite bool_decide_eq_true_2; [done|by right].
    + rewrite bool_decide_eq_false_2; [done|].
      intros [->|?]%elem_of_cons; done.
Qed.

Lemma dict_set_absent {V} (k : string) (v : V) (d : dict V) :
  dict_get k d = None -> dict_set k v d = d ++ [(k, v)].
Proof.
  induction d as [|[k0 v0] d IH]; simpl; [done|].
  destruct (String.eqb k0 k); [done|]. intros H. by rewrite IH.
Qed.

Lemma dict_get_del {V} (k k' : string) (d : dict V) :
  k <> k' -> dict_get k' (dict_del k d) = dict_get k' d.
Proof.
  intros Hne. induction d as [|[k0 v0] d IH]; simpl; [done|].
  destruct (String.eqb k0 k) eqn:E; simpl.
  - apply String.eqb_eq in E as ->.
    by rewrite (proj2 (String.eqb_neq k k')).
  - by rewrite IH.
Qed.

Lemma dict_del_keys_sublist {V} (k : string) (d : dict V) :
  sublist (dict_del k d) d.
Proof.
  induction d as [|[k0 v0] d IH]; simpl; [done|].
  destruct (String.eqb k0 k).
  - by apply sublist_cons.
  - by apply sublist_skip.
Qed.

Lemma dict_get_del_NoDup {V} (k : string) (d : dict V) :
  NoDup d.*1 -> dict_get k (dict_del k d) = None.
Proof.
  induction d as [|[k0 v0] d IH]; simpl; [done|].
  intros [Hk Hd]%NoDup_cons. destruct (String.eqb k0 k) eqn:E; simpl.
  - apply String.eqb_eq in E as ->. by apply dict_get_None.
  - rewrite E. by apply IH.
Qed.

(** *** _exclude_self *)

(** The peers a change is shown: every running name but its own entry.
    Its own name is listed only when another provider holds it, and
    every other running name is listed whoever holds it. *)
Lemma exclude_self_spec
    (provider_id name : string) (running_actions : dict string) (k : string) :
  k ∈ _exclude_self provider_id name running_actions <->
  exists owner,
    (k, owner) ∈ running_actions /\ (k <> name \/ owner <> provider_id).
Proof.
  unfold _exclude_self. rewrite list_elem_of_fmap. split.
  - intros ([k' owner] & -> & Hin). simpl.
    apply list_elem_of_In, filter_In in Hin as [Hin Hb].
    exists owner. split; [by apply list_elem_of_In|].
    apply orb_true_iff in Hb as [Hb|Hb]; apply negb_true_iff in Hb;
      apply String.eqb_neq in Hb; auto.
  - intros (owner & Hin & Hne). exists (k, owner). split; [done|].
    apply list_elem_of_In, filter_In. split; [by apply list_elem_of_In|].
    apply orb_true_iff.
    destruct Hne as [Hne|Hne]; [left|right]; apply negb_true_iff;
      by apply String.eqb_neq.
Qed.

(** *** Queues *)

Lemma Forall_dict_set {V} (P : string * V -> Prop) k v (d : dict V) :
  Forall P d -> P (k, v) -> (forall v', P (k, v') -> P (k, v)) ->
  Forall P (dict_set k v d).
Proof.
  intros Hd Hkv _. induction d as [|[k0 v0] d IH]; simpl.
  - by repeat constructor.
  - apply Forall_cons in Hd as [H0 Hd].
    destruct (String.eqb k0 k) eqn:E.
    + apply String.eqb_eq in E as ->. by constructor.
    + constructor; [done|by apply IH].
Qed.

Lemma well_formed_lookup changes name queue :
  well_formed changes -> dict_get name changes = Some queue ->
  queue <> [] /\ Forall (fun c => get_name c = name) queue.
Proof.
  intros [_ Hall] Hget%dict_get_elem_of.
  rewrite Forall_forall in Hall. by apply (Hall (name, queue)).
Qed.

Lemma well_formed_set changes name queue :
  well_formed changes -> queue <> [] ->
  Forall (fun c => get_name c = name) queue ->
  well_formed (dict_set name queue changes).
Proof.
  intros [Hnd Hall] Hne Hq. split.
  - rewrite dict_set_keys. case_bool_decide as Hin; [done|].
    apply NoDup_app. split; [done|]. split; [|apply NoDup_singleton].
    intros x Hx ->%list_elem_of_singleton. done.
  - by apply Forall_dict_set.
Qed.

Lemma well_formed_del changes name :
  well_formed changes -> well_formed (dict_del name changes).
Proof.
  intros [Hnd Hall]. pose proof (dict_del_keys_sublist name changes) as Hsub.
  split.
  - eapply sublist_NoDup; [exact Hnd|]. by apply fmap_sublist.
  - rewrite Forall_forall in *. intros item Hin. apply Hall.
    by eapply elem_of_sublist.
Qed.

(** What [_add_change_to_queue] does to the change map. *)
Lemma add_change_to_queue_spec (change : Change) (w : World) :
  let w' := (_add_change_to_queue (Some change) w).1.2 in
  dict_get (get_name change) (changes w') =
    Some (default [] (dict_get (get_name change) (changes w)) ++ [change]) /\
  (forall name,
     name <> get_name change ->
     dict_get name (changes w') = dict_get name (changes w)) /\
  (well_formed (changes w) -> well_formed (changes w')) /\
  registry w' = registry w /\ running w' = running w /\
  _add_change_to_queue None w = (Ok tt, w, []).
Proof.
  simpl. split; [|split; [|split]].
  - by rewrite dict_get_set, String.eqb_refl.
  - intros name Hne. rewrite dict_get_set.
    by rewrite (proj2 (String.eqb_neq _ _)).
  - intros Hwf. apply well_formed_set; [done| |].
    + by intros [? ?]%app_eq_nil.
    + apply Forall_app. split; [|by repeat constructor].
      destruct (dict_get (get_name change) (changes w)) as [q|] eqn:E; [|done].
      by apply (well_formed_lookup _ _ _ Hwf E).
  - done.
Qed.

(** Queues are first in, first out: a change handed to
    [_add_change_to_queue] goes to the back of the queue of its name,
    which is created when missing; the other queues, the registry and
    the running flag stay as they are, the map stays well formed, and
    handing over nothing changes nothing. *)
Theorem add_change_is_fifo (change : Change) (w : World) :
  let w' := (_add_change_to_queue (Some change) w).1.2 in
  dict_get (get_name change) (changes w') =
    Some (default [] (dict_get (get_name change) (changes w)) ++ [change]) /\
  (forall name,
     name <> get_name change ->
     dict_get name (changes w') = dict_get name (changes w)) /\
  (well_formed (changes w) -> well_formed (changes w')) /\
  registry w' = registry w /\ running w' = running w /\
  _add_change_to_queue None w = (Ok tt, w, []).
Proof. exact (add_change_to_queue_spec change w). Qed.

(** *** _run_changes calls only owned heads *)

Lemma run_loop_calls provider_id b running_changes items :
  forall acc w c peers,
    CallRun c peers ∈ (run_loop provider_id b items running_changes acc w).2 ->
    exists name queue,
      (name, c :: queue) ∈ items /\
      dict_get name running_changes = Some provider_id /\
      peers = _exclude_self provider_id (get_name c) running_changes /\
      (b = true \/ can_run_at_exit c = true).
Proof.
  induction items as [|[name queue] items IH]; intros acc w c peers.
  { simpl. by intros ?%not_elem_of_nil. }
  assert (Hrest : forall acc',
    CallRun c peers ∈ (run_loop provider_id b items running_changes acc' w).2 ->
    exists name0 queue0,
      (name0, c :: queue0) ∈ (name, queue) :: items /\
      dict_get name0 running_changes = Some provider_id /\
      peers = _exclude_self provider_id (get_name c) running_changes /\
      (b = true \/ can_run_at_exit c = true)).
  { intros acc' Hin. destruct (IH _ _ _ _ Hin) as (n & q & H1 & H2).
    exists n, q. split; [by right|done]. }
  rewrite run_loop_cons. case_bool_decide as Hown; [|apply Hrest].
  destruct queue as [|change queue]; [by intros ?%not_elem_of_nil|]. simpl.
  destruct (b || can_run_at_exit change) eqn:Hrun; simpl.
  - intros [[= -> ->]|Hin]%elem_of_cons; [|by eapply Hrest].
    exists name, queue. split; [by left|]. split; [done|]. split; [done|].
    apply orb_true_iff in Hrun. destruct Hrun; auto.
  - intros [?|Hin]%elem_of_cons; [discriminate|by eapply Hrest].
Qed.

(** [run] is called only on the first change of a queue whose name the
    registry view gives to this provider, with the other running names
    as its argument, and, once the controller is stopping, only when
    the change can run at exit; the world is left as it was. *)
Theorem run_changes_runs_owned_heads
    (running_changes : dict string) (provider_id : string) (w : World)
    (c : Change) (peers : list string) :
  CallRun c peers ∈ (_run_changes running_changes provider_id w).2 ->
  (exists name queue,
     (name, c :: queue) ∈ changes w /\
     dict_get name running_changes = Some provider_id) /\
  peers = _exclude_self provider_id (get_name c) running_changes /\
  (running w = true \/ can_run_at_exit c = true) /\
  (_run_changes running_changes provider_id w).1.2 = w.
Proof.
  rewrite run_changes_unfold. intros Hin.
  destruct (run_loop_calls _ _ _ _ _ _ _ _ Hin) as (n & q & H1 & H2 & H3 & H4).
  split; [by exists n, q|]. split; [done|]. split; [done|].
  apply run_loop_world.
Qed.

Lemma run_loop_removed provider_id b running_changes items :
  forall acc w removed,
    (run_loop provider_id b items running_changes acc w).1.1 = Ok removed ->
    exists l, removed = acc ++ l /\
              sublist l (owned_heads provider_id running_changes items).
Proof.
  induction items as [|[name queue] items IH]; intros acc w removed.
  { simpl. intros [= <-]. exists []. by rewrite app_nil_r. }
  rewrite run_loop_cons. simpl. case_bool_decide as Hown.
  2:{ intros Hr. destruct (IH _ _ _ Hr) as (l & -> & Hl). exists l.
      split; [done|]. by destruct queue. }
  destruct queue as [|change queue]; [discriminate|]. simpl.
  assert (Hkeep : forall acc',
    (acc' = acc \/ acc' = acc ++ [get_name change]) ->
    (run_loop provider_id b items running_changes acc' w).1.1 = Ok removed ->
    exists l, removed = acc ++ l /\
      sublist l (get_name change ::
                 owned_heads provider_id running_changes items)).
  { intros acc' Hacc Hr. destruct (IH _ _ _ Hr) as (l & -> & Hl).
    destruct Hacc as [-> | ->].
    - exists l. split; [done|]. by apply sublist_cons.
    - exists (get_name change :: l). split; [by rewrite <- app_assoc|].
      by apply sublist_skip. }
  destruct (b || can_run_at_exit change); simpl.
  - apply Hkeep. destruct (run change _) as [[|]|]; auto.
  - apply Hkeep. auto.
Qed.

(** *** The lock *)

Lemma lock_discipline_app held tr1 tr2 :
  lock_discipline held (tr1 ++ tr2) =
  lock_discipline held tr1 ≫= fun held' => lock_discipline held' tr2.
Proof.
  revert held. induction tr1 as [|e tr1 IH]; intros held; [done|].
  destruct e, held; simpl; try done; apply IH.
Qed.

Lemma lock_discipline_free tr :
  Forall (fun e => lock_free e = true) tr -> lock_discipline false tr = Some false.
Proof.
  induction 1 as [|e tr He _ IH]; [done|]. by destruct e.
Qed.

Lemma lock_discipline_held tr :
  Forall (fun e => under_lock e = true) tr -> lock_discipline true tr = Some true.
Proof.
  induction 1 as [|e tr He _ IH]; [done|]. by destruct e.
Qed.

Lemma anything_running w w' : running w' = running w -> anything w -> anything w'.
Proof. done. Qed.

Lemma disciplined_free {A} (m : M A) :
  keeps (fun e => lock_free e = true) anything m -> disciplined m.
Proof. intros Hm w. apply lock_discipline_free. by apply (Hm w). Qed.

Lemma disciplined_with_lock {A} data (m : M A) :
  keeps (fun e => under_lock e = true) anything m ->
  disciplined (with_lock data m).
Proof.
  intros Hm w. unfold with_lock. destruct (Hm w I) as [Htr _].
  destruct (m w) as [[r w'] tr]. simpl in *.
  rewrite lock_discipline_app, (lock_discipline_held _ Htr). done.
Qed.

Lemma disciplined_bind {A B} (m : M A) (f : A -> M B) :
  disciplined m -> (forall a, disciplined (f a)) -> disciplined (m ≫= f).
Proof.
  intros Hm Hf w. rewrite bind_run. specialize (Hm w).
  destruct (m w) as [[[a|e] w1] tr1]; simpl in *; [|done].
  specialize (Hf a w1). destruct (f a w1) as [[r w2] tr2]. simpl in *.
  by rewrite lock_discipline_app, Hm.
Qed.

Lemma disciplined_get_world {B} (k : World -> M B) :
  (forall w0, disciplined (k w0)) -> disciplined (get_world ≫= k).
Proof.
  intros Hk w. rewrite bind_run. simpl. specialize (Hk w w).
  by destruct (k w w) as [[r w2] tr2].
Qed.

Lemma disciplined_ret {A} (a : A) : disciplined (mret a).
Proof. done. Qed.

Lemma run_loop_lock_free provider_id b running_changes items :
  forall acc w,
    Forall (fun e => lock_free e = true)
      (run_loop provider_id b items running_changes acc w).2.
Proof.
  induction items as [|[name queue] items IH]; intros acc w; [constructor|].
  rewrite run_loop_cons. case_bool_decide; [|apply IH].
  destruct queue as [|change queue]; [constructor|]. simpl.
  destruct (b || can_run_at_exit change); simpl; (constructor; [done|apply IH]).
Qed.

(** Whatever the state and whatever raises on the way, a make-step
    uses the global lock properly: it takes it only when free and
    always gives it back; the registry is read and written, and
    [can_run] asked, only while it is held; changes run, are removed
    and checks are probed only while it is free. *)
Theorem make_step_lock_discipline (provider_id : string) (w : World) :
  lock_discipline false (make_step provider_id w).2 = Some false.
Proof.
  revert w. change (disciplined (make_step provider_id)).
  unfold make_step. apply disciplined_bind.
  { unfold _register_running_changes. apply disciplined_get_world. intros w0.
    destruct (changes w0); [apply disciplined_ret|].
    apply disciplined_with_lock. apply keeps_bind.
    - apply keeps_get_world_any. intros w1.
      apply keeps_bind; [by apply keeps_emit|]. intros _. apply keeps_ret.
    - intros rc. by apply keeps_register_loop; [apply anything_running|..]. }
  intros running_changes. apply disciplined_bind.
  { intros w. rewrite run_changes_unfold. apply lock_discipline_free.
    apply run_loop_lock_free. }
  intros changes_to_remove. apply disciplined_bind.
  { destruct changes_to_remove as [|x l]; [apply disciplined_ret|].
    unfold _release_changes_lock. apply disciplined_bind.
    - apply disciplined_free.
      apply (keeps_for_each _ _ remove_head (x :: l)). intros y.
      by apply keeps_remove_head; [apply anything_running|].
    - intros _. apply disciplined_with_lock.
      apply (keeps_for_each _ _ unregister_change (x :: l)). intros y.
      by apply keeps_unregister_change; [apply anything_running|]. }
  intros _. apply disciplined_get_world. intros w0.
  destruct (running w0); [|apply disciplined_ret].
  apply disciplined_free. by apply keeps_probe; [apply anything_running|..].
Qed.

(** *** Registration *)

Lemma dict_get_app {V} (k : string) (d1 d2 : dict V) :
  dict_get k (d1 ++ d2) =
  match dict_get k d1 with Some v => Some v | None => dict_get k d2 end.
Proof.
  induction d1 as [|[k0 v0] d1 IH]; simpl; [done|].
  by destruct (String.eqb k0 k).
Qed.

(** One turn of the loop of [_register_running_changes]. *)
Lemma register_loop_cons provider_id name first queue items rc w :
  register_loop provider_id ((name, first :: queue) :: items) rc w =
  let peers := _exclude_self provider_id name rc in
  if can_run first peers then
    match dict_get name rc with
    | None =>
        match dict_get name (registry w) with
        | Some _ => (Raise NodeExistsError, w, [CallCanRun first peers])
        | None =>
            let res :=
              register_loop provider_id items (dict_set name provider_id rc)
                (set_registry w (registry w ++ [(name, provider_id)])) in
            (res.1,
             CallCanRun first peers :: RegisterChange name provider_id :: res.2)
        end
    | Some _ =>
        let res := register_loop provider_id items rc w in
        (res.1, CallCanRun first peers :: res.2)
    end
  else
    let res := register_loop provider_id items rc w in
    (res.1, CallCanRun first peers :: res.2).
Proof.
  simpl. rewrite bind_run. simpl.
  destruct (can_run first _).
  - destruct (dict_get name rc).
    + by destruct (register_loop _ _ _ _) as [[r w'] tr].
    + rewrite bind_run. unfold register_change at 1. rewrite bind_run. simpl.
      destruct (dict_get name (registry w)); [done|].
      rewrite bind_run. simpl.
      by destruct (register_loop _ _ _ _) as [[r w'] tr].
  - by destruct (register_loop _ _ _ _) as [[r w'] tr].
Qed.

(** What the loop does to the world when it starts from a view that
    agrees with the registry. *)
Lemma register_loop_spec provider_id items :
  forall w,
    let res := register_loop provider_id items (registry w) w in
    exists added,
      res.1.2 = set_registry w (registry w ++ added) /\
      Forall (fun e => e.2 = provider_id) added /\
      (forall n, n ∈ added.*1 ->
         dict_get n (registry w) = None /\
         exists c q peers, (n, c :: q) ∈ items /\ can_run c peers = true) /\
      (NoDup (registry w).*1 -> NoDup (registry w ++ added).*1) /\
      (forall rc', res.1.1 = Ok rc' -> rc' = registry w ++ added) /\
      ((forall n q, (n, q) ∈ items -> q <> []) -> is_ok res.1.1 = true).
Proof.
  induction items as [|[name [|first queue]] items IH]; intros w.
  - exists []. simpl. rewrite app_nil_r. destruct w. split; [done|].
    split; [done|]. split; [by intros n ?%not_elem_of_nil|].
    split; [done|]. split; [by intros rc' [= <-]|done].
  - exists []. simpl. rewrite app_nil_r. destruct w. split; [done|].
    split; [done|]. split; [by intros n ?%not_elem_of_nil|].
    split; [done|]. split; [discriminate|].
    intros Hall. exfalso. by apply (Hall name []); [left|].
  - assert (Hskip :
      let res := register_loop provider_id items (registry w) w in
      forall e,
      exists added,
        res.1.2 = set_registry w (registry w ++ added) /\
        Forall (fun e => e.2 = provider_id) added /\
        (forall n, n ∈ added.*1 ->
           dict_get n (registry w) = None /\
           exists c q peers,
             (n, c :: q) ∈ (name, first :: queue) :: items /\
             can_run c peers = true) /\
        (NoDup (registry w).*1 -> NoDup (registry w ++ added).*1) /\
        (forall rc', (res.1, e :: res.2).1.1 = Ok rc' -> rc' = registry w ++ added) /\
        ((forall n q, (n, q) ∈ (name, first :: queue) :: items -> q <> []) ->
         is_ok (res.1, e :: res.2).1.1 = true)).
    { intros res e. destruct (IH w) as (added & H1 & H2 & H3 & H4 & H5 & H6).
      exists added. split; [done|]. split; [done|]. split.
      - intros n Hn. destruct (H3 n Hn) as (Hg & c & q & peers & Hin & Hc).
        split; [done|]. exists c, q, peers. split; [by right|done].
      - split; [done|]. split; [done|]. intros Hall. apply H6.
        intros n q Hin. apply (Hall n q). by right. }
    rewrite register_loop_cons. cbv zeta.
    destruct (can_run first (_exclude_self provider_id name (registry w)))
      eqn:Hcan; [|apply Hskip].
    destruct (dict_get name (registry w)) eqn:Hget; [apply Hskip|].
    destruct (IH (set_registry w (registry w ++ [(name, provider_id)])))
      as (added & H1 & H2 & H3 & H4 & H5 & H6).
    rewrite (dict_set_absent _ _ _ Hget). simpl in *.
    exists ((name, provider_id) :: added).
    split; [by rewrite H1, <- app_assoc|]. split; [by constructor|]. split.
    { intros n [->|Hn]%elem_of_cons.
      - split; [done|].
        exists first, queue, (_exclude_self provider_id name (registry w)).
        split; [by left|exact Hcan].
      - destruct (H3 n Hn) as (Hg & c & q & peers & Hin & Hc). split.
        + rewrite dict_get_app in Hg. by destruct (dict_get n (registry w)).
        + exists c, q, peers. split; [by right|done]. }
    split.
    { intros Hnd. rewrite (assoc_L app _ [_] added : registry w ++ (name, provider_id) :: added = (registry w ++ [(name, provider_id)]) ++ added).
      apply H4. rewrite fmap_app. apply NoDup_app. split; [done|].
      split; [|apply NoDup_singleton].
      intros x Hx ->%list_elem_of_singleton. by apply dict_get_None in Hget. }
    split.
    { intros rc' Hr. rewrite (H5 rc' Hr). by rewrite <- app_assoc. }
    intros Hall. apply H6. intros n q Hin. apply (Hall n q). by right.
Qed.

Lemma register_unfold provider_id w :
  _register_running_changes provider_id w =
  match changes w with
  | [] => (Ok [], w, [])
  | _ :: _ =>
      let res := register_loop provider_id (changes w) (registry w) w in
      (res.1,
       TakeLock (Some provider_id) :: (GetRunningChanges :: res.2) ++ [ReleaseLock])
  end.
Proof.
  unfold _register_running_changes, with_lock, get_running_changes.
  unfold mbind, M_bind, get_world, emit, mret, M_ret. simpl.
  destruct (changes w) as [|item items] eqn:E; [done|].
  by destruct (register_loop _ _ _ _) as [[r w'] tr].
Qed.

Lemma well_formed_nonempty changes n q :
  well_formed changes -> (n, q) ∈ changes -> q <> [].
Proof.
  intros [_ Hall] Hin. rewrite Forall_forall in Hall.
  by destruct (Hall _ Hin).
Qed.

(** What [_register_running_changes] does to the registry. *)
Lemma register_running_changes_spec (provider_id : string) (w : World) :
  let res := _register_running_changes provider_id w in
  exists added,
    res.1.2 = set_registry w (registry w ++ added) /\
    Forall (fun e => e.2 = provider_id) added /\
    (forall n, n ∈ added.*1 ->
       dict_get n (registry w) = None /\
       exists c q peers, (n, c :: q) ∈ changes w /\ can_run c peers = true) /\
    (forall n owner,
       dict_get n (registry w) = Some owner ->
       dict_get n (registry res.1.2) = Some owner) /\
    (NoDup (registry w).*1 -> NoDup (registry res.1.2).*1) /\
    (well_formed (changes w) ->
     exists rc, res.1.1 = Ok rc /\
                (changes w <> [] -> rc = registry res.1.2)).
Proof.
  intros res. subst res. rewrite register_unfold.
  destruct (changes w) as [|item items] eqn:E.
  { exists []. simpl. rewrite app_nil_r. destruct w. split; [done|].
    split; [done|]. split; [by intros n ?%not_elem_of_nil|].
    split; [done|]. split; [done|]. intros _. by exists []. }
  rewrite <- E.
  destruct (register_loop_spec provider_id (changes w) w)
    as (added & H1 & H2 & H3 & H4 & H5 & H6).
  exists added. simpl. rewrite H1. simpl. split; [done|]. split; [done|].
  split; [done|]. split.
  { intros n owner Hget. by rewrite dict_get_app, Hget. }
  split; [done|]. intros Hwf.
  assert (Hok : is_ok
            (register_loop provider_id (changes w) (registry w) w).1.1 = true).
  { apply H6. intros n q. by apply well_formed_nonempty. }
  destruct (register_loop provider_id (changes w) (registry w) w)
    as [[[rc|e] w'] tr]; [|done].
  exists rc. split; [done|]. intros _. by apply H5.
Qed.

(** Registration only ever adds to the registry, and only entries of
    this provider: each added name was free, is the name of a local
    queue and its first change agreed to run. Entries already there
    keep their owners, names stay unique, nothing else in the world
    changes, and on a well-formed change map the call returns. *)
Theorem registration_only_adds_own (provider_id : string) (w : World) :
  let res := _register_running_changes provider_id w in
  exists added,
    res.1.2 = set_registry w (registry w ++ added) /\
    Forall (fun e => e.2 = provider_id) added /\
    (forall n, n ∈ added.*1 ->
       dict_get n (registry w) = None /\
       exists c q peers, (n, c :: q) ∈ changes w /\ can_run c peers = true) /\
    (forall n owner,
       dict_get n (registry w) = Some owner ->
       dict_get n (registry res.1.2) = Some owner) /\
    (NoDup (registry w).*1 -> NoDup (registry res.1.2).*1) /\
    (well_formed (changes w) ->
     exists rc, res.1.1 = Ok rc /\
                (changes w <> [] -> rc = registry res.1.2)).
Proof. exact (register_running_changes_spec provider_id w). Qed.

(** *** Removal *)

Lemma remove_head_unfold name w :
  remove_head name w =
  match dict_get name (changes w) with
  | None => (Raise KeyError, w, [])
  | Some [] => (Raise IndexError, w, [])
  | Some (removed :: queue) =>
      (Ok tt,
       set_changes w
         (match queue with
          | [] => dict_del name (changes w)
          | _ :: _ => dict_set name queue (changes w)
          end),
       [CallOnRemove removed])
  end.
Proof.
  unfold remove_head. rewrite bind_run. simpl.
  destruct (dict_get name (changes w)) as [[|removed queue]|]; try done.
Qed.

Lemma unregister_unfold name w :
  unregister_change name w =
    (Ok tt, set_registry w (dict_del name (registry w)),
     [UnregisterChange name]).
Proof. reflexivity. Qed.

Lemma for_each_cons {A} (body : A -> M unit) x l w :
  for_each body (x :: l) w =
  match body x w with
  | (Ok _, w1, tr1) =>
      let res := for_each body l w1 in (res.1, tr1 ++ res.2)
  | (Raise e, w1, tr1) => (Raise e, w1, tr1)
  end.
Proof.
  simpl. rewrite bind_run. destruct (body x w) as [[[u|e] w1] tr1]; [|done].
  by destruct (for_each body l w1) as [[r w2] tr2].
Qed.

Lemma remove_heads_spec names :
  forall w,
    well_formed (changes w) -> NoDup names ->
    (forall n, n ∈ names -> is_Some (dict_get n (changes w))) ->
    let res := for_each remove_head names w in
    res.1.1 = Ok tt /\
    exists changes',
      res.1.2 = set_changes w changes' /\
      well_formed changes' /\
      (forall n, n ∉ names -> dict_get n changes' = dict_get n (changes w)) /\
      (forall n, n ∈ names -> dict_get n changes' = popped (changes w) n).
Proof.
  induction names as [|name names IH]; intros w Hwf Hnd Hin.
  { simpl. split; [done|]. exists (changes w). destruct w. split; [done|].
    split; [done|]. split; [done|]. by intros n ?%not_elem_of_nil. }
  apply NoDup_cons in Hnd as [Hname Hnd].
  rewrite for_each_cons, remove_head_unfold.
  destruct (Hin name) as [queue Hq]; [by left|]. rewrite Hq.
  destruct (well_formed_lookup _ _ _ Hwf Hq) as [Hne Hnames].
  destruct queue as [|removed queue]; [done|].
  set (changes1 := match queue with
                   | [] => dict_del name (changes w)
                   | _ :: _ => dict_set name queue (changes w)
                   end).
  assert (Hwf1 : well_formed changes1).
  { subst changes1. destruct queue as [|c q].
    - by apply well_formed_del.
    - apply well_formed_set; [done|done|]. by apply Forall_cons in Hnames as [_ ?]. }
  assert (Hother : forall n, n <> name ->
            dict_get n changes1 = dict_get n (changes w)).
  { intros n Hn. subst changes1. destruct queue as [|c q].
    - by apply dict_get_del.
    - rewrite dict_get_set. by rewrite (proj2 (String.eqb_neq name n)). }
  assert (Hself : dict_get name changes1 = popped (changes w) name).
  { unfold popped. rewrite Hq. subst changes1. destruct queue as [|c q].
    - apply dict_get_del_NoDup. by destruct Hwf.
    - by rewrite dict_get_set, String.eqb_refl. }
  destruct (IH (set_changes w changes1)) as (Hok & changes' & Hw & Hwf' & Ho & Hp).
  { done. }
  { done. }
  { intros n Hn. simpl. rewrite Hother; [apply Hin; by right|].
    intros ->. done. }
  simpl in *. split; [done|]. exists changes'. split; [by rewrite Hw|].
  split; [done|]. split.
  - intros n Hn. rewrite Ho, Hother; [done| |].
    + intros ->. apply Hn. by left.
    + intros H. apply Hn. by right.
  - intros n [->|Hn]%elem_of_cons.
    + by rewrite Ho.
    + rewrite (Hp n Hn). unfold popped. rewrite Hother; [done|].
      intros ->. done.
Qed.

Lemma unregister_all_spec names :
  forall w,
    NoDup names ->
    (forall n, n ∈ names -> is_Some (dict_get n (registry w))) ->
    let res := for_each unregister_change names w in
    res.1.1 = Ok tt /\
    exists registry',
      res.1.2 = set_registry w registry' /\
      sublist registry' (registry w) /\
      (forall n, n ∉ names -> dict_get n registry' = dict_get n (registry w)) /\
      (NoDup (registry w).*1 ->
       forall n, n ∈ names -> dict_get n registry' = None).
Proof.
  induction names as [|name names IH]; intros w Hnd Hin.
  { simpl. split; [done|]. exists (registry w). destruct w. split; [done|].
    split; [done|]. split; [done|]. by intros _ n ?%not_elem_of_nil. }
  apply NoDup_cons in Hnd as [Hname Hnd].
  rewrite for_each_cons, unregister_unfold.
  destruct (IH (set_registry w (dict_del name (registry w))))
    as (Hok & registry' & Hw & Hsub & Hother & Hgone).
  { done. }
  { intros n Hn. simpl. rewrite dict_get_del; [apply Hin; by right|].
    intros ->. done. }
  simpl in *. split; [done|]. exists registry'. split; [by rewrite Hw|].
  split; [etrans; [exact Hsub|apply dict_del_keys_sublist]|]. split.
  - intros n Hn. rewrite Hother, dict_get_del; [done| |].
    + intros ->. apply Hn. by left.
    + intros H. apply Hn. by right.
  - intros Hnodup n [->|Hn]%elem_of_cons.
    + rewrite Hother by done. by apply dict_get_del_NoDup.
    + apply Hgone; [|done]. eapply sublist_NoDup; [exact Hnodup|].
      apply fmap_sublist, dict_del_keys_sublist.
Qed.

(** *** Probing the checks *)

Lemma probe_cons seen c rest w :
  probe seen (c :: rest) w =
  let call := check_if_time c (clock w) (ticks w) in
  let w1 := set_checks (set_ticks w call.1.2) (seen ++ call.1.1.2 :: rest) in
  match call.1.1.1 with
  | Raise e => (Raise e, w1, call.2)
  | Ok change =>
      let w2 := (_add_change_to_queue change w1).1.2 in
      let res := probe (seen ++ [call.1.1.2]) rest w2 in
      (res.1, call.2 ++ res.2)
  end.
Proof.
  simpl. unfold mbind, M_bind, get_world. simpl.
  destruct (check_if_time c (clock w) (ticks w)) as [[[r c'] n] tr]. simpl.
  destruct r as [[change|]|e]; simpl; [| |by rewrite app_nil_r].
  - by destruct (probe _ rest _) as [[r w'] tr'].
  - by destruct (probe _ rest _) as [[r w'] tr'].
Qed.

Lemma check_if_time_outcome c clock ticks :
  (check_if_time c clock ticks).1.1.1 = check c \/
  (check_if_time c clock ticks).1.1.1 = Ok None.
Proof.
  destruct (check_if_time_cases c clock ticks) as [[_ ->]|[_ ->]]; auto.
Qed.

Lemma probe_spec todo :
  forall seen w,
    let res := probe seen todo w in
    registry res.1.2 = registry w /\ running res.1.2 = running w /\
    (well_formed (changes w) -> well_formed (changes res.1.2)) /\
    ((forall c, c ∈ todo -> is_ok (check c) = true) -> res.1.1 = Ok tt).
Proof.
  induction todo as [|c todo IH]; intros seen w; [done|].
  rewrite probe_cons. cbv zeta.
  pose proof (check_if_time_outcome c (clock w) (ticks w)) as Hout.
  destruct (check_if_time c (clock w) (ticks w)) as [[[r c'] n] tr].
  simpl in *. destruct r as [change|e]; simpl.
  - match goal with |- context [probe ?d todo ?w2] =>
      destruct (IH d w2) as (H1 & H2 & H3 & H4);
      assert (Hreg : registry w2 = registry w /\ running w2 = running w /\
                     (well_formed (changes w) -> well_formed (changes w2)))
    end.
    { destruct change as [ch|]; simpl; [|done]. split; [done|]. split; [done|].
      intros Hwf.
      apply (proj1 (proj2 (proj2 (add_change_to_queue_spec ch
               (set_checks (set_ticks w n) (seen ++ c' :: todo)))))).
      done. }
    destruct Hreg as (Hr1 & Hr2 & Hr3).
    split; [congruence|]. split; [congruence|]. split; [by auto|].
    intros Hall. apply H4. intros c0 Hc0. apply Hall. by right.
  - split; [done|]. split; [done|]. split; [done|].
    intros Hall. specialize (Hall c ltac:(by left)).
    destruct Hout as [Hout|Hout]; [|discriminate]. by rewrite <- Hout in Hall.
Qed.

(** *** The step as a whole *)

Lemma release_unfold removed w :
  _release_changes_lock removed w =
  match removed with
  | [] => (Ok tt, w, [])
  | _ :: _ =>
      let ra := for_each remove_head removed w in
      match ra.1.1 with
      | Raise e => (Raise e, ra.1.2, ra.2)
      | Ok _ =>
          let rb := for_each unregister_change removed ra.1.2 in
          (rb.1, ra.2 ++ TakeLock None :: rb.2 ++ [ReleaseLock])
      end
  end.
Proof.
  destruct removed as [|x l]; [done|].
  unfold _release_changes_lock. rewrite bind_run.
  destruct (for_each remove_head (x :: l) w) as [[[u|e] w1] tr1]; [|done].
  unfold with_lock. cbv beta iota delta [fst snd].
  by destruct (for_each unregister_change (x :: l) w1) as [[r w2] tr2].
Qed.

Lemma make_step_unfold provider_id w :
  make_step provider_id w =
  let r1 := _register_running_changes provider_id w in
  match r1.1.1 with
  | Raise e => (Raise e, r1.1.2, r1.2)
  | Ok rc =>
      let r2 := _run_changes rc provider_id r1.1.2 in
      match r2.1.1 with
      | Raise e => (Raise e, r2.1.2, r1.2 ++ r2.2)
      | Ok removed =>
          let r3 := _release_changes_lock removed r2.1.2 in
          match r3.1.1 with
          | Raise e => (Raise e, r3.1.2, r1.2 ++ r2.2 ++ r3.2)
          | Ok _ =>
              let r4 :=
                (if running r3.1.2 then probe [] (checks r3.1.2) else mret tt)
                  r3.1.2 in
              (r4.1, r1.2 ++ r2.2 ++ r3.2 ++ r4.2)
          end
      end
  end.
Proof.
  unfold make_step. rewrite bind_run.
  destruct (_register_running_changes provider_id w) as [[[rc|e] w1] tr1];
    [|done].
  rewrite bind_run. simpl.
  destruct (_run_changes rc provider_id w1) as [[[removed|e] w2] tr2];
    [|done].
  rewrite bind_run. simpl.
  destruct (_release_changes_lock removed w2) as [[[u|e] w3] tr3]; [|done].
  rewrite bind_run. simpl.
  by destruct ((if running w3 then probe [] (checks w3) else mret ()) w3)
    as [[r w4] tr4].
Qed.

Lemma owned_heads_well_formed provider_id rc items :
  Forall (fun item => item.2 <> [] /\
                      Forall (fun c => get_name c = item.1) item.2) items ->
  sublist (owned_heads provider_id rc items) items.*1 /\
  forall n, n ∈ owned_heads provider_id rc items ->
            dict_get n rc = Some provider_id.
Proof.
  induction 1 as [|[name queue] items [Hne Hq] _ [IH1 IH2]]; simpl.
  { split; [done|]. by intros n ?%not_elem_of_nil. }
  destruct queue as [|change queue]; [done|].
  apply Forall_cons in Hq as [Hname _]. simpl in Hname.
  case_bool_decide as Hown.
  - rewrite Hname. split; [by apply sublist_skip|].
    intros n [->|Hn]%elem_of_cons; [done|by apply IH2].
  - split; [by apply sublist_cons|done].
Qed.

Lemma probe_phase_spec w :
  let res := (if running w then probe [] (checks w) else mret ()) w in
  registry res.1.2 = registry w /\ running res.1.2 = running w /\
  (well_formed (changes w) -> well_formed (changes res.1.2)) /\
  ((forall c, c ∈ checks w -> is_ok (check c) = true) -> res.1.1 = Ok tt).
Proof.
  destruct (running w) eqn:Hrun.
  - pose proof (probe_spec (checks w) [] w) as H. cbv zeta in H.
    by rewrite Hrun in H.
  - simpl. split; [done|]. split; [exact Hrun|]. by split.
Qed.

(** A step on a well-formed change map, phase by phase. *)
Lemma make_step_spec provider_id w :
  well_formed (changes w) ->
  let res := make_step provider_id w in
  exists (added : dict string) (removed : list string) (registry' : dict string),
    Forall (fun e => e.2 = provider_id) added /\
    (forall n, n ∈ added.*1 -> dict_get n (registry w) = None) /\
    (forall n, n ∈ removed ->
       dict_get n (registry w ++ added) = Some provider_id) /\
    sublist registry' (registry w ++ added) /\
    (forall n, n ∉ removed ->
       dict_get n registry' = dict_get n (registry w ++ added)) /\
    registry res.1.2 = registry' /\
    running res.1.2 = running w /\
    well_formed (changes res.1.2) /\
    ((forall c, c ∈ checks w -> is_ok (check c) = true) -> res.1.1 = Ok tt) /\
    (NoDup (registry w).*1 -> NoDup registry'.*1).
Proof.
  intros Hwf res. subst res. rewrite make_step_unfold. cbv zeta.
  destruct (register_running_changes_spec provider_id w)
    as (added & Hw1 & Hown & Hfree & Hkeep & Hnd & Hret).
  destruct (Hret Hwf) as (rc & Hrc & Hsync). clear Hret.
  rewrite Hrc. rewrite Hw1 in *. simpl in Hsync, Hnd.
  set (w1 := set_registry w (registry w ++ added)) in *.
  rewrite run_changes_unfold.
  pose proof (run_loop_world provider_id (running w1) rc (changes w1) [] w1) as Hw2.
  pose proof (run_loop_returns provider_id (running w1) rc (changes w1) [] w1)
    as Hok2.
  pose proof (run_loop_removed provider_id (running w1) rc (changes w1) [] w1)
    as Hrem.
  destruct (run_loop provider_id (running w1) (changes w1) rc [] w1)
    as [[[removed|e] w2] tr2]; simpl in *.
  2:{ exfalso. assert (false = true); [|done]. apply Hok2.
      intros n q. by apply well_formed_nonempty. }
  subst w2. destruct (Hrem removed eq_refl) as (l & -> & Hsub). simpl.
  clear Hrem Hok2.
  destruct Hwf as [Hkeys Hall].
  destruct (owned_heads_well_formed provider_id rc (changes w) Hall)
    as [Hsubk Howned].
  assert (Hlnd : NoDup l).
  { eapply sublist_NoDup; [exact Hkeys|]. by etrans. }
  assert (Hlkeys : forall n, n ∈ l -> is_Some (dict_get n (changes w))).
  { intros n Hn. destruct (dict_get n (changes w)) eqn:E; [by eexists|].
    apply dict_get_None in E. destruct E.
    eapply elem_of_sublist; [|exact Hsubk]. by eapply elem_of_sublist. }
  assert (Hlown : forall n, n ∈ l ->
            dict_get n (registry w ++ added) = Some provider_id).
  { intros n Hn. assert (Hrcn : dict_get n rc = Some provider_id).
    { apply Howned. by eapply elem_of_sublist. }
    destruct (changes w) eqn:E.
    - simpl in Hsub. apply sublist_nil_r in Hsub. subst l.
      by apply not_elem_of_nil in Hn.
    - by rewrite <- Hsync. }
  exists added, l. rewrite release_unfold.
  destruct l as [|x l].
  { exists (registry w ++ added).
    destruct (probe_phase_spec w1) as (P1 & P2 & P3 & P4).
    split; [done|]. split; [by intros n Hn; apply Hfree|].
    split; [done|]. split; [done|]. split; [done|].
    split; [exact P1|]. split; [exact P2|]. split; [by apply P3|].
    split; [exact P4|done]. }
  destruct (remove_heads_spec (x :: l) w1)
    as (Hok3 & changes' & Hw3 & Hwf3 & _ & _); [done|done|done|].
  cbv zeta. rewrite Hok3, Hw3.
  destruct (unregister_all_spec (x :: l) (set_changes w1 changes'))
    as (Hok4 & registry' & Hw4 & Hsub4 & Hother4 & Hgone4);
    [done|intros n Hn; simpl; rewrite (Hlown n Hn); by eexists|].
  exists registry'. split; [done|]. split; [by intros n Hn; apply Hfree|].
  split; [done|]. split; [done|]. split; [done|].
  destruct (for_each unregister_change (x :: l) (set_changes w1 changes'))
    as [[r3 w3] tr3].
  cbn [fst snd] in Hok4, Hw4 |- *. subst r3 w3.
  destruct (probe_phase_spec (set_registry (set_changes w1 changes') registry'))
    as (P1 & P2 & P3 & P4).
  split; [exact P1|]. split; [exact P2|]. split; [by apply P3|].
  split; [exact P4|].
  intros Hnodup. eapply sublist_NoDup; [exact (Hnd Hnodup)|].
  by apply fmap_sublist.
Qed.

(** On a well-formed change map a make-step raises nothing of its own:
    no queue is found empty, no name is missing from the map, no node is
    registered twice. When no check raises,
    the step returns. *)
Theorem make_step_never_fails (provider_id : string) (w : World) :
  well_formed (changes w) ->
  (forall c, c ∈ checks w -> is_ok (check c) = true) ->
  (make_step provider_id w).1.1 = Ok tt.
Proof.
  intros Hwf Hchecks.
  destruct (make_step_spec provider_id w Hwf)
    as (added & removed & registry' & _ & _ & _ & _ & _ & _ & _ & _ & Hok & _).
  by apply Hok.
Qed.

(** The change map stays well formed: the empty map is, and a
    make-step and [stop] keep it so, whatever the checks answer or
    raise. *)
Theorem make_step_keeps_well_formed
    (provider_id : string) (w : World) (final : option Change) :
  well_formed [] /\
  (well_formed (changes w) ->
   well_formed (changes (make_step provider_id w).1.2) /\
   well_formed (changes (stop final w).1.2)).
Proof.
  split; [split; constructor|]. intros Hwf. split.
  - by destruct (make_step_spec provider_id w Hwf)
      as (added & removed & registry' & _ & _ & _ & _ & _ & _ & _ & Hwf' & _).
  - destruct final as [c|]; [|done]. simpl.
    by apply (proj1 (proj2 (proj2 (add_change_to_queue_spec c w)))).
Qed.

(** A make-step on a well-formed change map leaves the registrations of
    other supervisors alone, adds only entries of its own, and keeps
    every name registered at most once. *)
Theorem make_step_respects_registry (provider_id : string) (w : World) :
  well_formed (changes w) ->
  let registry' := registry (make_step provider_id w).1.2 in
  (forall n owner,
     owner <> provider_id ->
     dict_get n (registry w) = Some owner ->
     dict_get n registry' = Some owner) /\
  (forall n owner,
     (n, owner) ∈ registry' ->
     (n, owner) ∈ registry w \/ owner = provider_id) /\
  (NoDup (registry w).*1 -> NoDup registry'.*1).
Proof.
  intros Hwf registry'. subst registry'.
  destruct (make_step_spec provider_id w Hwf)
    as (added & removed & registry' & Hown & Hfree & Hrem & Hsub & Hother
        & -> & _ & _ & _ & Hnd).
  split; [|split; [|done]].
  - intros n owner Hne Hget.
    assert (Hget' : dict_get n (registry w ++ added) = Some owner)
      by by rewrite dict_get_app, Hget.
    rewrite Hother; [done|]. intros Hn. rewrite (Hrem n Hn) in Hget'.
    congruence.
  - intros n owner Hin.
    apply (elem_of_sublist _ _ _ Hin) in Hsub.
    apply elem_of_app in Hsub as [Hsub|Hsub]; [by left|]. right.
    rewrite Forall_forall in Hown. by apply (Hown (n, owner)).
Qed.

Lemma stopping_world_well_formed : well_formed (changes stopping_world).
Proof.
  split.
  - simpl. apply NoDup_cons. split; [|apply NoDup_singleton].
    intros ?%list_elem_of_singleton. discriminate.
  - by repeat constructor.
Qed.

Lemma make_step_never_fails_witness :
  (make_step "1.1.1.1" stopping_world).1.1 = Ok tt.
Proof.
  apply (make_step_never_fails "1.1.1.1" stopping_world
           stopping_world_well_formed).
  intros c ->%list_elem_of_singleton. reflexivity.
Defined.

Lemma make_step_keeps_well_formed_witness :
  well_formed (changes (make_step "1.1.1.1" stopping_world).1.2).
Proof.
  apply (proj2 (make_step_keeps_well_formed "1.1.1.1" stopping_world None)
           stopping_world_well_formed).
Defined.

Lemma make_step_respects_registry_witness :
  dict_get "rebalance" (registry (make_step "1.1.1.1" shared_world).1.2)
    = Some "3.3.3.3".
Proof.
  apply (proj1 (make_step_respects_registry "1.1.1.1" shared_world
                  stopping_world_well_formed)
           "rebalance" "3.3.3.3"); [discriminate|reflexivity].
Defined.

Lemma registration_only_adds_own_witness :
  exists added,
    (_register_running_changes "1.1.1.1" stopping_world).1.2 =
      set_registry stopping_world (registry stopping_world ++ added).
Proof.
  destruct (registration_only_adds_own "1.1.1.1" stopping_world)
    as (added & H & _).
  by exists added.
Defined.

Lemma add_change_is_fifo_witness :
  well_formed
    (changes (_add_change_to_queue (Some restart_change) stopping_world).1.2).
Proof.
  apply (proj1 (proj2 (proj2 (add_change_is_fifo restart_change stopping_world)))).
  apply stopping_world_well_formed.
Defined.

Lemma run_changes_runs_owned_heads_witness :
  [ "restart" ] =
    _exclude_self "1.1.1.1" (get_name final_change) (registry stopping_world).
Proof.
  apply (run_changes_runs_owned_heads (registry stopping_world) "1.1.1.1"
           stopping_world final_change ["restart"]).
  vm_compute. right. left.
Defined.

End ControllerInvSpec.

(** ** controller.py: what still runs once the controller is stopping *)

Module ControllerStopSpec.
Import Controller ControllerInv ControllerSamples.

(** On a well-formed change map the run phase of a make-step is
    reached: it sees every registration that was there before the
    step, it returns, and what it does is part of the step. *)
Lemma make_step_run_phase provider_id w :
  well_formed (changes w) -> changes w <> [] ->
  exists rc w1,
    (forall n owner,
       dict_get n (registry w) = Some owner -> dict_get n rc = Some owner) /\
    changes w1 = changes w /\ running w1 = running w /\
    is_ok (_run_changes rc provider_id w1).1.1 = true /\
    forall e, e ∈ (_run_changes rc provider_id w1).2 ->
              e ∈ (make_step provider_id w).2.
Proof.
  intros Hwf Hne.
  rewrite ControllerInvSpec.make_step_unfold. cbv zeta.
  destruct (ControllerInvSpec.register_running_changes_spec provider_id w)
    as (added & Hw1 & _ & _ & Hkeep & _ & Hret).
  destruct (Hret Hwf) as (rc & Hrc & Hsync). specialize (Hsync Hne).
  rewrite Hrc.
  set (w1 := (_register_running_changes provider_id w).1.2) in *.
  assert (Hch : changes w1 = changes w) by by rewrite Hw1.
  assert (Hrun : running w1 = running w) by by rewrite Hw1.
  assert (Hok : is_ok (_run_changes rc provider_id w1).1.1 = true).
  { rewrite ControllerSpec.run_changes_unfold.
    apply ControllerSpec.run_loop_returns. rewrite Hch.
    intros name queue Hin. by eapply ControllerInvSpec.well_formed_nonempty. }
  exists rc, w1. split; [by rewrite Hsync|]. split; [done|]. split; [done|].
  split; [done|]. intros e He.
  destruct ((_run_changes rc provider_id w1).1.1) as [removed|err];
    [|discriminate].
  destruct ((_release_changes_lock removed _).1.1); cbn [snd];
    rewrite !elem_of_app; auto.
Qed.

(** C9: while the controller is stopping, the head of a queue this
    supervisor owns is run exactly when it can run at exit. One that
    cannot is put on the removal list and reported as forced to stop,
    with no call to its [run]; one that can has its [run] called, with
    the other running names, and is put on the removal list only when
    that call says done or raises. [_run_changes] returns when no queue
    is empty. The same holds for the whole make-step on a well-formed
    change map, which leaves the flag down, and [stop] is what lowers
    it. *)
Theorem stopping_forces_removal
    (provider_id : string) (running_changes : dict string) (w : World) :
  running w = false ->
  let res := _run_changes running_changes provider_id w in
  (forall c peers, CallRun c peers ∈ res.2 -> can_run_at_exit c = true) /\
  (forall removed name change queue,
     res.1.1 = Ok removed ->
     (name, change :: queue) ∈ changes w ->
     dict_get name running_changes = Some provider_id ->
     can_run_at_exit change = false ->
     get_name change ∈ removed /\ ForcedToStop change ∈ res.2 /\
     forall peers, CallRun change peers ∉ res.2) /\
  (forall removed name change queue,
     res.1.1 = Ok removed ->
     (name, change :: queue) ∈ changes w ->
     dict_get name running_changes = Some provider_id ->
     can_run_at_exit change = true ->
     let peers :=
       _exclude_self provider_id (get_name change) running_changes in
     CallRun change peers ∈ res.2 /\
     (run change peers <> Ok true -> get_name change ∈ removed)) /\
  ((forall name queue, (name, queue) ∈ changes w -> queue <> []) ->
   is_ok res.1.1 = true) /\
  (forall c peers,
     CallRun c peers ∈ (make_step provider_id w).2 -> can_run_at_exit c = true) /\
  (well_formed (changes w) ->
   forall name change queue,
     (name, change :: queue) ∈ changes w ->
     dict_get name (registry w) = Some provider_id ->
     (can_run_at_exit change = true ->
      exists peers, CallRun change peers ∈ (make_step provider_id w).2) /\
     (can_run_at_exit change = false ->
      ForcedToStop change ∈ (make_step provider_id w).2 /\
      forall peers, CallRun change peers ∉ (make_step provider_id w).2)) /\
  running (make_step provider_id w).1.2 = false /\
  (forall change w0, running (stop change w0).1.2 = false).
Proof.
  intros Hstop res.
  assert (Hruns : forall c peers, CallRun c peers ∈ res.2 ->
                                  can_run_at_exit c = true).
  { intros c peers Hin.
    destruct (ControllerSpec.keeps_run_changes_stopped
                running_changes provider_id w Hstop) as [Htr _].
    rewrite Forall_forall in Htr. by apply (Htr _ Hin c peers). }
  assert (Hstep : forall c peers,
            CallRun c peers ∈ (make_step provider_id w).2 ->
            can_run_at_exit c = true).
  { intros c peers Hin.
    destruct (ControllerSpec.keeps_make_step_stopped provider_id w Hstop)
      as [Htr _].
    rewrite Forall_forall in Htr. by apply (Htr _ Hin c peers). }
  split; [done|]. split; [|split; [|split; [|split; [done|split; [|split]]]]].
  - intros removed name change queue Hr Hin Hown Hexit.
    subst res. rewrite ControllerSpec.run_changes_unfold, Hstop in *.
    destruct (ControllerSpec.run_loop_forced _ _ _ _ _ _ _ _ _
                Hr Hin Hown Hexit) as [H1 H2].
    split; [done|]. split; [done|].
    intros peers Hrun. apply Hruns in Hrun. congruence.
  - intros removed name change queue Hr Hin Hown Hexit peers.
    subst res peers. rewrite ControllerSpec.run_changes_unfold, Hstop in *.
    by apply (ControllerSpec.run_loop_at_exit _ _ _ _ _ _ _ _ _
                Hr Hin Hown Hexit).
  - intros Hall. subst res. rewrite ControllerSpec.run_changes_unfold.
    by apply ControllerSpec.run_loop_returns.
  - intros Hwf name change queue Hin Hown.
    assert (Hne : changes w <> []).
    { intros Heq. rewrite Heq in Hin. by apply not_elem_of_nil in Hin. }
    destruct (make_step_run_phase provider_id w Hwf Hne)
      as (rc & w1 & Hkeep & Hch & Hrun & Hok & Hpart).
    rewrite ControllerSpec.run_changes_unfold, Hch, Hrun, Hstop in Hok, Hpart.
    destruct ((run_loop provider_id false (changes w) rc [] w1).1.1)
      as [removed|err] eqn:Hr; [|discriminate].
    specialize (Hkeep _ _ Hown). split.
    + intros Hexit.
      destruct (ControllerSpec.run_loop_at_exit _ _ _ _ _ _ _ _ _
                  Hr Hin Hkeep Hexit) as [H1 _].
      eexists. apply Hpart, H1.
    + intros Hexit.
      destruct (ControllerSpec.run_loop_forced _ _ _ _ _ _ _ _ _
                  Hr Hin Hkeep Hexit) as [_ H2].
      split; [by apply Hpart|].
      intros peers Hcall. apply Hstep in Hcall. congruence.
  - by destruct (ControllerSpec.keeps_make_step_stopped provider_id w Hstop)
      as [_ Hinv].
  - intros [c|] w0; reflexivity.
Qed.

Lemma stopping_forces_removal_witness :
  (get_name restart_change ∈ ["restart"; "stop"] /\
   ForcedToStop restart_change ∈
     (_run_changes (registry stopping_world) "1.1.1.1" stopping_world).2 /\
   forall peers,
     CallRun restart_change peers ∉
       (_run_changes (registry stopping_world) "1.1.1.1" stopping_world).2) /\
  (CallRun final_change ["restart"] ∈
     (_run_changes (registry stopping_world) "1.1.1.1" stopping_world).2 /\
   (run final_change ["restart"] <> Ok true ->
    get_name final_change ∈ ["restart"; "stop"])).
Proof.
  pose proof (stopping_forces_removal "1.1.1.1"
                (registry stopping_world) stopping_world eq_refl)
    as (_ & Hforced & Hexit & _).
  split.
  - apply (Hforced ["restart"; "stop"] "restart" restart_change []).
    + reflexivity.
    + by left.
    + reflexivity.
    + reflexivity.
  - apply (Hexit ["restart"; "stop"] "stop" final_change []).
    + reflexivity.
    + right. by left.
    + reflexivity.
    + reflexivity.
Defined.

End ControllerStopSpec.

(** ** swap_partitions.py: the imbalance check and the plan *)

Module SwapMoreSpec.
Import Zookeeper SwapPartitions DiskImbalance SwapPartitionsSamples.

(** *** CheckBrokersDiskImbalance *)

Lemma max_free_from_spec l :
  forall best,
    max_free_from best l ∈ best :: l /\
    forall x, x ∈ best :: l -> free_kb x.2 <= free_kb (max_free_from best l).2.
Proof.
  induction l as [|y l IH]; intros best; simpl.
  - split; [by left|]. intros x ->%list_elem_of_singleton. lia.
  - destruct (free_kb best.2 <? free_kb y.2) eqn:E.
    + apply Z.ltb_lt in E. destruct (IH y) as [Hin Hmax]. split.
      * by right.
      * intros x [->|Hx]%elem_of_cons; [|by apply Hmax].
        specialize (Hmax y ltac:(by left)). lia.
    + apply Z.ltb_ge in E. destruct (IH best) as [Hin Hmax]. split.
      * apply elem_of_cons in Hin as [->|Hin]; [by left|by right; right].
      * intros x [->|[->|Hx]%elem_of_cons]%elem_of_cons.
        -- apply Hmax. by left.
        -- specialize (Hmax best ltac:(by left)). lia.
        -- apply Hmax. by right.
Qed.

Lemma min_free_from_spec l :
  forall best,
    min_free_from best l ∈ best :: l /\
    forall x, x ∈ best :: l -> free_kb (min_free_from best l).2 <= free_kb x.2.
Proof.
  induction l as [|y l IH]; intros best; simpl.
  - split; [by left|]. intros x ->%list_elem_of_singleton. lia.
  - destruct (free_kb y.2 <? free_kb best.2) eqn:E.
    + apply Z.ltb_lt in E. destruct (IH y) as [Hin Hmin]. split.
      * by right.
      * intros x [->|Hx]%elem_of_cons; [|by apply Hmin].
        specialize (Hmin y ltac:(by left)). lia.
    + apply Z.ltb_ge in E. destruct (IH best) as [Hin Hmin]. split.
      * apply elem_of_cons in Hin as [->|Hin]; [by left|by right; right].
      * intros x [->|[->|Hx]%elem_of_cons]%elem_of_cons.
        -- apply Hmin. by left.
        -- specialize (Hmin best ltac:(by left)). lia.
        -- apply Hmin. by right.
Qed.

Lemma stats_get_NoDup k v stats :
  NoDup stats.*1 -> (k, v) ∈ stats -> stats_get k stats = Some v.
Proof.
  induction stats as [|[k0 v0] stats IH]; simpl.
  - intros _ H. by apply not_elem_of_nil in H.
  - intros [Hk Hnd]%NoDup_cons [[= -> ->]|Hin]%elem_of_cons.
    + unfold py_eqb. by rewrite bool_decide_eq_true_2.
    + unfold py_eqb. case_bool_decide as E; [|by apply IH].
      subst k0. destruct Hk. apply list_elem_of_fmap. by exists (k, v).
Qed.

(** The imbalance check emits a swap only between the broker with the
    least free disk and the one with the most, and only when their
    difference reaches the threshold: the change carries that
    difference as its gap, the stats it was computed from and no
    plan. With no stats, or a difference below the threshold, it emits
    nothing; it never fails on a mapping. *)
Theorem imbalance_check_outcome
    (diff_threshold_kb : Z) (policy : list string -> bool)
    (stats : list (pyobj * BrokerStats)) :
  NoDup stats.*1 ->
  let r := (create_swap_partition_change diff_threshold_kb policy (Some stats)).1 in
  (forall change,
     r = Ok (Some change) ->
     exists fat_stats slim_stats,
       (fat_broker_id change, fat_stats) ∈ stats /\
       (slim_broker_id change, slim_stats) ∈ stats /\
       (forall x, x ∈ stats ->
          free_kb fat_stats <= free_kb x.2 <= free_kb slim_stats) /\
       gap change = free_kb slim_stats - free_kb fat_stats /\
       diff_threshold_kb <= gap change /\ 0 <= gap change /\
       size_stats change = stats /\ to_move change = None) /\
  (r = Ok None ->
     forall x y, x ∈ stats -> y ∈ stats ->
                 free_kb x.2 - free_kb y.2 < diff_threshold_kb) /\
  (exists outcome, r = Ok outcome).
Proof.
  intros Hnd r. subst r. unfold create_swap_partition_change.
  destruct stats as [|first rest].
  { simpl. split; [discriminate|]. split; [|by eexists].
    intros _ x y Hx. by apply not_elem_of_nil in Hx. }
  destruct (max_free_from_spec rest first) as [Hmax_in Hmax].
  destruct (min_free_from_spec rest first) as [Hmin_in Hmin].
  destruct (max_free_from first rest) as [slim slim_stats] eqn:Emax.
  destruct (min_free_from first rest) as [fat fat_stats] eqn:Emin.
  cbn [fst snd] in *.
  rewrite (stats_get_NoDup fat fat_stats _ Hnd Hmin_in).
  rewrite (stats_get_NoDup slim slim_stats _ Hnd Hmax_in).
  destruct (free_kb slim_stats - free_kb fat_stats <? diff_threshold_kb) eqn:E;
    cbn [fst snd].
  - apply Z.ltb_lt in E. split; [discriminate|]. split; [|by eexists].
    intros _ x y Hx Hy. specialize (Hmax x Hx). specialize (Hmin y Hy). lia.
  - apply Z.ltb_ge in E. split; [|split; [discriminate|by eexists]].
    intros change [= <-]. exists fat_stats, slim_stats. simpl.
    split; [done|]. split; [done|]. split.
    { intros x Hx. specialize (Hmax x Hx). specialize (Hmin x Hx). lia. }
    split; [done|]. split; [done|]. split; [|done].
    specialize (Hmax _ Hmin_in). simpl in Hmax. lia.
Qed.

Lemma imbalance_check_outcome_witness :
  exists outcome,
    (create_swap_partition_change 1000 (fun _ => false) (Some stats_swap)).1 =
      Ok outcome.
Proof.
  apply (proj2 (proj2 (imbalance_check_outcome 1000 (fun _ => false) stats_swap
                         ltac:(simpl; apply NoDup_cons; split;
                               [intros ?%list_elem_of_singleton; discriminate
                               |apply NoDup_singleton])))).
Defined.

(** *** The merged size stats *)

Lemma known_size_merge_broker acc bs t p :
  known_size (merge_broker acc bs) t p =
    match known_size (topics bs) t p with
    | Some sz => Some sz
    | None => known_size acc t p
    end.
Proof.
  unfold known_size, merge_broker. rewrite lookup_union_with.
  destruct (topics bs !! t) as [new|], (acc !! t) as [old|]; simpl; try done.
  - rewrite lookup_union. destruct (new !! p), (old !! p); done.
  - by destruct (new !! p).
Qed.

Lemma known_size_foldl_silent t p stats :
  forall acc,
    (forall x, x ∈ stats -> known_size (topics x.2) t p = None) ->
    known_size (foldl (fun acc (item : pyobj * BrokerStats) => merge_broker acc item.2)
                  acc stats) t p =
      known_size acc t p.
Proof.
  induction stats as [|x stats IH]; intros acc Hnone; simpl; [done|].
  rewrite IH by (intros y Hy; apply Hnone; by right).
  rewrite known_size_merge_broker, (Hnone x); [done|by left].
Qed.

Lemma known_size_foldl_is_Some t p stats :
  forall acc,
    is_Some (known_size
               (foldl (fun acc (item : pyobj * BrokerStats) => merge_broker acc item.2)
                  acc stats) t p) <->
    is_Some (known_size acc t p) \/
    exists x, x ∈ stats /\ is_Some (known_size (topics x.2) t p).
Proof.
  induction stats as [|x stats IH]; intros acc; simpl.
  - split; [by left|]. intros [H|(x & Hx & _)]; [done|].
    by apply not_elem_of_nil in Hx.
  - rewrite IH, known_size_merge_broker. split.
    + intros [H|(y & Hy & H)].
      * destruct (known_size (topics x.2) t p) eqn:E; [|by left].
        right. exists x. split; [by left|]. by rewrite E.
      * right. exists y. split; [by right|done].
    + intros [H|(y & [-> | Hy]%elem_of_cons & H)].
      * left. by destruct (known_size (topics x.2) t p).
      * left. destruct H as [sz ->]. by eexists.
      * right. by exists y.
Qed.

(** The merged stats know the size of a partition exactly when some
    broker reports it, and the size they hold is the one of the last
    broker, in the order of the stats, that reports it. *)
Theorem merge_stats_last_report_wins
    (stats : list (pyobj * BrokerStats)) (t : string) (p : Z) :
  (is_Some (known_size (merge_stats stats) t p) <->
   exists x, x ∈ stats /\ is_Some (known_size (topics x.2) t p)) /\
  (forall before x after sz,
     stats = before ++ x :: after ->
     known_size (topics x.2) t p = Some sz ->
     (forall y, y ∈ after -> known_size (topics y.2) t p = None) ->
     known_size (merge_stats stats) t p = Some sz).
Proof.
  unfold merge_stats. split.
  - rewrite known_size_foldl_is_Some. split.
    + intros [[sz H]|H]; [|done]. unfold known_size in H.
      by rewrite lookup_empty in H.
    + by right.
  - intros before x after sz -> Hx Hafter.
    rewrite foldl_app. simpl.
    rewrite known_size_foldl_silent by done.
    by rewrite known_size_merge_broker, Hx.
Qed.

Lemma merge_stats_last_report_wins_witness :
  known_size (merge_stats stats_both) "t" 2 = Some 30.
Proof.
  apply (proj2 (merge_stats_last_report_wins stats_both "t" 2)
           [(fat1, mkBrokerStats 500 900 {["t" := {[0 := 10; 2 := 30]}]})]
           (slim2, mkBrokerStats 600 800 {["t" := {[1 := 20; 2 := 30]}]})
           [] 30).
  - reflexivity.
  - vm_compute. reflexivity.
  - intros y Hy. by apply not_elem_of_nil in Hy.
Defined.

(** *** The choice among equally good candidates *)

Lemma descending_app_cons l1 f l2 :
  descending (l1 ++ f :: l2) -> forall c, c ∈ l2 -> size c <= size f.
Proof.
  induction l1 as [|x l1 IH]; simpl.
  - intros [Hf _] c Hc. by apply (proj1 (Forall_forall _ _) Hf).
  - intros [_ Hd]. by apply IH.
Qed.

(** The loop keeps the first candidate that reaches the smallest new
    gap: everything before it is strictly worse. *)
Lemma best_loop_first g s cands :
  forall sm m,
    (best_loop g s cands sm m = m /\
     forall c, c ∈ cands -> sm <= new_gap g s c) \/
    (exists f l1 l2,
       cands = l1 ++ f :: l2 /\
       best_loop g s cands sm m = Some f /\
       new_gap g s f < sm /\
       (forall c, c ∈ l1 -> new_gap g s f < new_gap g s c) /\
       (forall c, c ∈ l2 -> new_gap g s f <= new_gap g s c)).
Proof.
  induction cands as [|tp cands IH]; intros sm m; simpl.
  - left. split; [done|]. intros c Hc. by apply not_elem_of_nil in Hc.
  - destruct (new_gap g s tp <? sm) eqn:E.
    + apply Z.ltb_lt in E. right.
      destruct (IH (new_gap g s tp) (Some tp))
        as [[Hr Hmin]|(f & l1 & l2 & -> & Hr & Hlt & H1 & H2)].
      * exists tp, [], cands. split; [done|]. split; [done|]. split; [done|].
        split; [|done]. intros c Hc. by apply not_elem_of_nil in Hc.
      * exists f, (tp :: l1), l2. split; [done|]. split; [done|].
        split; [lia|]. split; [|done].
        intros c [-> | Hc]%elem_of_cons; [lia|by apply H1].
    + apply Z.ltb_ge in E.
      destruct (IH sm m) as [[Hr Hmin]|(f & l1 & l2 & -> & Hr & Hlt & H1 & H2)].
      * left. split; [done|].
        intros c [-> | Hc]%elem_of_cons; [lia|by apply Hmin].
      * right. exists f, (tp :: l1), l2. split; [done|]. split; [done|].
        split; [done|]. split; [|done].
        intros c [-> | Hc]%elem_of_cons; [lia|by apply H1].
Qed.

(** Among the candidates that close the gap equally well, the selection
    returns one of the largest: no candidate with the same new gap is
    bigger than the one returned. *)
Theorem best_swap_candidate_prefers_largest
    (candidates : list TpData) (g s : Z) (f : TpData) :
  __find_best_swap_candidate candidates g s = Some f ->
  forall c, c ∈ candidates ->
            new_gap g s c = new_gap g s f -> size c <= size f.
Proof.
  unfold __find_best_swap_candidate. intros Hf c Hc Heq.
  destruct (best_loop_first g s (sort_by_size_desc candidates) g None)
    as [[Hr _]|(f' & l1 & l2 & Hsplit & Hr & _ & H1 & _)]; [congruence|].
  rewrite Hr in Hf. injection Hf as ->.
  pose proof (SwapPartitionsSpec.sort_by_size_desc_descending candidates) as Hd.
  rewrite Hsplit in Hd.
  apply SwapPartitionsSpec.elem_of_sort_by_size_desc in Hc.
  rewrite Hsplit in Hc.
  apply elem_of_app in Hc as [Hc|[-> | Hc]%elem_of_cons].
  - specialize (H1 c Hc). lia.
  - lia.
  - by eapply descending_app_cons.
Qed.

Lemma best_swap_candidate_prefers_largest_witness :
  size (mkTpData "U" 0 20 [fat1]) <= size (mkTpData "U" 1 80 [fat1]).
Proof.
  apply (best_swap_candidate_prefers_largest
           [mkTpData "U" 0 20 [fat1]; mkTpData "U" 1 80 [fat1]] 100 50
           (mkTpData "U" 1 80 [fat1])).
  - vm_compute. reflexivity.
  - by left.
  - reflexivity.
Defined.

(** *** The smallest slim partition *)

Lemma min_by_size_from_spec l :
  forall best,
    min_by_size_from best l ∈ best :: l /\
    forall y, y ∈ best :: l -> size (min_by_size_from best l) <= size y.
Proof.
  induction l as [|x l IH]; intros best; simpl.
  - split; [by left|]. intros y ->%list_elem_of_singleton. lia.
  - destruct (size x <? size best) eqn:E.
    + apply Z.ltb_lt in E. destruct (IH x) as [Hin Hmin]. split.
      * by right.
      * intros y [-> | Hy]%elem_of_cons; [|by apply Hmin].
        specialize (Hmin x ltac:(by left)). lia.
    + apply Z.ltb_ge in E. destruct (IH best) as [Hin Hmin]. split.
      * apply elem_of_cons in Hin as [-> | Hin]; [by left|by right; right].
      * intros y [-> | [-> | Hy]%elem_of_cons]%elem_of_cons.
        -- apply Hmin. by left.
        -- specialize (Hmin best ltac:(by left)). lia.
        -- apply Hmin. by right.
Qed.

Lemma min_by_size_spec l x :
  min_by_size l = Ok x -> x ∈ l /\ forall y, y ∈ l -> size x <= size y.
Proof.
  destruct l as [|x0 l]; simpl; [discriminate|]. intros [= <-].
  apply min_by_size_from_spec.
Qed.

(** *** The exchange of replicas *)

Lemma swap_replica_length from to rs :
  length (swap_replica from to rs) = length rs.
Proof. unfold swap_replica. by rewrite length_fmap. Qed.

Lemma elem_of_swap_replica from to rs r :
  r ∈ swap_replica from to rs <->
  (r = to /\ from ∈ rs) \/ (r <> from /\ r ∈ rs).
Proof.
  unfold swap_replica, py_eqb. rewrite list_elem_of_fmap. split.
  - intros (x & -> & Hx). case_bool_decide as E.
    + subst x. by left.
    + by right.
  - intros [[-> Hin]|[Hne Hin]].
    + exists from. by rewrite bool_decide_eq_true_2.
    + exists r. by rewrite bool_decide_eq_false_2.
Qed.

Lemma swap_replica_NoDup from to rs :
  NoDup rs -> to ∉ rs -> NoDup (swap_replica from to rs).
Proof.
  induction rs as [|x rs IH]; [constructor|].
  intros [Hx Hnd]%NoDup_cons [Hne Hto]%not_elem_of_cons.
  change (swap_replica from to (x :: rs))
    with ((if py_eqb x from then to else x) :: swap_replica from to rs).
  apply NoDup_cons. split; [|by apply IH].
  rewrite elem_of_swap_replica. unfold py_eqb. case_bool_decide as E.
  - subst x. intros [[_ H]|[_ H]]; done.
  - intros [[-> _]|[_ H]]; done.
Qed.

Section Plan.

Variable int_of_str : string -> option Z.

(** A run changes nothing of the change but its plan, and it sets a
    plan only when none was pending and the change is not cancelled:
    the plan then moves a smallest candidate of the slim broker to the
    fat one and, the other way, a fat candidate that brings the gap
    strictly below the current one and that no fat candidate beats. *)
Theorem run_plans_smallest_slim_best_fat
    (self : SwapPartitionsChange) (current_actions : list string) (zk : Zk) :
  let self' := (run int_of_str self current_actions zk).1.1.2 in
  fat_broker_id self' = fat_broker_id self /\
  slim_broker_id self' = slim_broker_id self /\
  gap self' = gap self /\
  size_stats self' = size_stats self /\
  (to_move self' = to_move self \/
   (should_be_cancelled self current_actions = false /\
    plan_truthy (to_move self) = None /\
    exists slim_l fat_l s f,
      candidates_of self zk !! slim_broker_id self = Some slim_l /\
      candidates_of self zk !! fat_broker_id self = Some fat_l /\
      s ∈ slim_l /\ (forall y, y ∈ slim_l -> size s <= size y) /\
      f ∈ fat_l /\
      new_gap (gap self) (size s) f < gap self /\
      (forall c, c ∈ fat_l ->
         new_gap (gap self) (size s) f <= new_gap (gap self) (size s) c) /\
      to_move self' =
        Some (__create_swap_partitions_json s (slim_broker_id self)
                f (fat_broker_id self)))).
Proof.
  unfold run.
  destruct (should_be_cancelled self current_actions) eqn:Hc.
  { simpl. repeat split; auto. }
  destruct (plan_truthy (to_move self)) as [plan|] eqn:Hp.
  { destruct (__perform_swap int_of_str plan zk) as [[r zk'] lg]. simpl.
    repeat split; auto. }
  fold (candidates_of self zk).
  destruct (candidates_of self zk !! slim_broker_id self) as [slim_l|] eqn:Hs.
  2:{ simpl. repeat split; auto. }
  destruct (min_by_size slim_l) as [s|e] eqn:Hm.
  2:{ simpl. repeat split; auto. }
  destruct (candidates_of self zk !! fat_broker_id self) as [fat_l|] eqn:Hf.
  2:{ simpl. repeat split; auto. }
  destruct (SwapPartitionsSpec.find_best_spec (gap self) (size s) fat_l)
    as [[Hr _]|(f & Hr & Hin & Hlt & Hmin)]; rewrite Hr.
  { simpl. repeat split; auto. }
  destruct (__perform_swap int_of_str _ zk) as [[r zk'] lg].
  apply min_by_size_spec in Hm as [Hsin Hsmin].
  destruct r as [b|e]; simpl.
  all: split; [done|]; split; [done|]; split; [done|]; split; [done|].
  all: right; split; [done|]; split; [done|].
  all: exists slim_l, fat_l, s, f; repeat split; auto.
Qed.

End Plan.

(** In a plan built from a candidate of the slim broker and one of the
    fat broker, each partition keeps its number of replicas and its
    other replicas; the slim partition ends on the fat broker and off
    the slim one, the fat partition the other way round, and replica
    lists without repetition stay so. *)
Theorem planned_swap_exchanges_brokers
    (zk : Zk) (fat slim : pyobj) (topics_stats : gmap string (gmap Z Z))
    (slim_l fat_l : list TpData) (s f : TpData) :
  slim <> fat ->
  __find_all_swap_candidates zk fat slim topics_stats !! slim = Some slim_l ->
  __find_all_swap_candidates zk fat slim topics_stats !! fat = Some fat_l ->
  s ∈ slim_l -> f ∈ fat_l ->
  exists rs_s rs_f,
    __create_swap_partitions_json s slim f fat =
      [(topic s, partition s, rs_s); (topic f, partition f, rs_f)] /\
    (topic s, partition s, replicas s) ∈ load_partition_assignment zk /\
    (topic f, partition f, replicas f) ∈ load_partition_assignment zk /\
    length rs_s = length (replicas s) /\ length rs_f = length (replicas f) /\
    fat ∈ rs_s /\ (slim ∉ rs_s) /\ slim ∈ rs_f /\ (fat ∉ rs_f) /\
    (forall r, r <> slim -> r <> fat ->
               (r ∈ rs_s <-> r ∈ replicas s) /\ (r ∈ rs_f <-> r ∈ replicas f)) /\
    (NoDup (replicas s) -> NoDup rs_s) /\ (NoDup (replicas f) -> NoDup rs_f).
Proof.
  intros Hne Hsl Hfl Hs Hf.
  assert (Hsel : forall b l tp,
            __find_all_swap_candidates zk fat slim topics_stats !! b = Some l ->
            tp ∈ l ->
            exists item, item ∈ load_partition_assignment zk /\
                         selected fat slim topics_stats item b tp).
  { intros b l tp Hl Hin.
    assert (He : entry_in (__find_all_swap_candidates zk fat slim topics_stats)
                   b tp) by by exists l.
    apply SwapPartitionsSpec.entry_in_foldl in He as [He|He]; [|done].
    by apply SwapPartitionsSpec.entry_in_empty in He. }
  destruct (Hsel _ _ _ Hsl Hs) as ([[ts ps] rss] & Hits & _ & Htps & Hboths & _ & Hins).
  destruct (Hsel _ _ _ Hfl Hf) as ([[tf pf] rsf] & Hitf & _ & Htpf & Hbothf & _ & Hinf).
  simpl in *.
  assert (Hs_slim : slim ∈ replicas s).
  { rewrite Htps. simpl. by apply PyFacts.py_in_spec. }
  assert (Hs_fat : fat ∉ replicas s).
  { rewrite Htps. simpl. intros H%PyFacts.py_in_spec.
    rewrite H, Hins in Hboths. discriminate. }
  assert (Hf_fat : fat ∈ replicas f).
  { rewrite Htpf. simpl. by apply PyFacts.py_in_spec. }
  assert (Hf_slim : slim ∉ replicas f).
  { rewrite Htpf. simpl. intros H%PyFacts.py_in_spec.
    rewrite H, Hinf in Hbothf. discriminate. }
  exists (swap_replica slim fat (replicas s)),
         (swap_replica fat slim (replicas f)).
  split; [done|].
  split; [by rewrite Htps|]. split; [by rewrite Htpf|].
  split; [apply swap_replica_length|]. split; [apply swap_replica_length|].
  rewrite !elem_of_swap_replica.
  split; [by left|]. split; [intros [[? ?]|[? ?]]; congruence|].
  split; [by left|]. split; [intros [[? ?]|[? ?]]; congruence|].
  split.
  - intros r Hrs Hrf. rewrite !elem_of_swap_replica. split; split.
    + intros [[? ?]|[? ?]]; [congruence|done].
    + intros H. by right.
    + intros [[? ?]|[? ?]]; [congruence|done].
    + intros H. by right.
  - split; intros Hnd; by apply swap_replica_NoDup.
Qed.

Lemma planned_swap_exchanges_brokers_witness :
  exists rs_s rs_f,
    __create_swap_partitions_json
      (mkTpData "t" 1 20 [slim2; PyInt 3]) slim2
      (mkTpData "t" 0 10 [fat1; PyInt 3]) fat1 =
      [("t", 1, rs_s); ("t", 0, rs_f)] /\
    ("t", 1, [slim2; PyInt 3]) ∈ load_partition_assignment zk_both /\
    ("t", 0, [fat1; PyInt 3]) ∈ load_partition_assignment zk_both /\
    length rs_s = 2%nat /\ length rs_f = 2%nat /\
    fat1 ∈ rs_s /\ (slim2 ∉ rs_s) /\ slim2 ∈ rs_f /\ (fat1 ∉ rs_f) /\
    (forall r, r <> slim2 -> r <> fat1 ->
               (r ∈ rs_s <-> r ∈ [slim2; PyInt 3]) /\
               (r ∈ rs_f <-> r ∈ [fat1; PyInt 3])) /\
    (NoDup [slim2; PyInt 3] -> NoDup rs_s) /\
    (NoDup [fat1; PyInt 3] -> NoDup rs_f).
Proof.
  apply (planned_swap_exchanges_brokers zk_both fat1 slim2
           (merge_stats stats_both)
           [mkTpData "t" 1 20 [slim2; PyInt 3]]
           [mkTpData "t" 0 10 [fat1; PyInt 3]]
           (mkTpData "t" 1 20 [slim2; PyInt 3])
           (mkTpData "t" 0 10 [fat1; PyInt 3])).
  - discriminate.
  - vm_compute. reflexivity.
  - vm_compute. reflexivity.
  - by left.
  - by left.
Defined.

End SwapMoreSpec.

(** ** controller.py: the pause between two steps *)

Module ControllerLoopSpec.
Import Controller ControllerLoop ControllerSamples.

Local Open Scope float_scope.





(** Why the timers must be numbers: with an interval that is NaN the
    minimum is NaN, the test for a positive pause fails and the loop
    does not sleep, although no check is due. *)
Example nan_timer_never_sleeps :
  let w := mkWorld [mkCheck nan 0 (Ok None)] [] true [] clock3 0 in
  (pause_after_step w).1.1 = Ok NoSleep /\
  (remaining w 0 (mkCheck nan 0 (Ok None)) <=? 0) = false.
Proof. split; reflexivity. Qed.

(** A controller with no check and nothing queued does not survive its
    first turn: the step does nothing, and the minimum over no timers
    raises [ValueError], with the world untouched and no event left. *)
Theorem loop_turn_without_checks_raises (provider_id : string) (w : World) :
  checks w = [] -> changes w = [] ->
  loop_turn provider_id w = (Raise ValueError, w, []).
Proof.
  destruct w as [cks chs run reg clk tks]. simpl. intros -> ->.
  unfold loop_turn, make_step, _register_running_changes, _run_changes,
    _release_changes_lock, pause_after_step.
  unfold mbind, M_bind, get_world, mret, M_ret, raise. simpl.
  destruct run; reflexivity.
Qed.

Lemma loop_turn_without_checks_raises_witness :
  loop_turn "1.1.1.1" (mkWorld [] [] true [] clock3 0) =
    (Raise ValueError, mkWorld [] [] true [] clock3 0, []).
Proof.
  apply (loop_turn_without_checks_raises "1.1.1.1"
           (mkWorld [] [] true [] clock3 0)); reflexivity.
Defined.

End ControllerLoopSpec.
